(** * Zenith: the daily time-allocation scheduler, the overlap validator,
      the task state machine and the reminder scheduler.

    A shallow embedding of the algorithmic core of the application
    (components.tsx, App.tsx, services.ts, types.ts) and the properties
    proved about it.

    Numbers are JavaScript doubles in the source.  The number inputs store
    [parseInt(value) || 0], so durations are integers, and instants are
    integer milliseconds; below 2^53 double arithmetic on them is exact,
    and a duration beyond that is far longer than a day and fits no slot
    either way.  They are embedded as [Z].

    Strings stand for texts by the bytes of their UTF-8 form.  Where the
    code asks the host about a text ([trim] in the duration form,
    [toLowerCase] in the search of the task list), the function of the
    host is an argument of the definition and the theorems hold for every
    such function. *)

From stdpp Require Import gmap strings list fin_maps sorting.
From Stdlib Require Import ZArith Lia.

Open Scope Z_scope.

(** ** types.ts *)

Inductive Status := pending | in_progress | completed.
Inductive Priority := low | medium | high.

#[global] Instance Status_eq_dec : EqDecision Status.
Proof. solve_decision. Defined.
#[global] Instance Priority_eq_dec : EqDecision Priority.
Proof. solve_decision. Defined.

Record Category := mkCategory {
  cat_id : string;
  cat_name : string;
  cat_color : string
}.

Record Task := mkTask {
  id : string;
  title : string;
  description : option string;
  startTime : Z;
  endTime : Z;
  status : Status;
  priority : Priority;
  categoryId : string;
  order : Z;
  createdAt : Z
}.

(** [interface CompletedTask extends Task { completedAt }] *)
Record CompletedTask := mkCompletedTask {
  ct_task :> Task;
  completedAt : Z
}.

#[global] Instance Task_eq_dec : EqDecision Task.
Proof. solve_decision. Defined.

(** Object spreads [{...t, status: s}] and [{...t, order: n}]. *)
Definition withStatus (t : Task) (s : Status) : Task :=
  mkTask (id t) (title t) (description t) (startTime t) (endTime t) s
         (priority t) (categoryId t) (order t) (createdAt t).

Definition withOrder (t : Task) (n : Z) : Task :=
  mkTask (id t) (title t) (description t) (startTime t) (endTime t) (status t)
         (priority t) (categoryId t) n (createdAt t).

(** ** Array.prototype.sort with a numeric comparator

    [sort] is stable: an element moves before another one only when the
    comparator is positive for the pair in their current order.  The
    embedding is the stable insertion sort. *)

Section Sort.
Context {A : Type} (cmp : A → A → Z).

Fixpoint insertBy (x : A) (l : list A) : list A :=
  match l with
  | [] => [x]
  | y :: l' => if cmp x y <=? 0 then x :: y :: l' else y :: insertBy x l'
  end.

Definition sortBy (l : list A) : list A := foldr insertBy [] l.
End Sort.

(** ** components.tsx: SetupModal, the duration-mode allocator *)

(** [String.prototype.toLowerCase] as far as it matters where the
    allocator and the duration form use it, which is to compare a
    category name with the words 'rest', 'work' and 'study': the ASCII
    capitals are lowered, and so is the Kelvin sign U+212A (the bytes 226
    132 170), the one character outside ASCII whose lower case is an
    ASCII letter; every other character is left as it is.  The result is
    one of those words exactly when the result of the host is.  (The
    search of the task list takes the function of the host as an
    argument, see [filteredTasks].) *)
Definition lowerAscii (c : Ascii.ascii) : Ascii.ascii :=
  let n := Ascii.nat_of_ascii c in
  if ((65 <=? n) && (n <=? 90))%nat then Ascii.ascii_of_nat (n + 32) else c.

Definition isKelvinSign (c1 c2 c3 : Ascii.ascii) : bool :=
  ((Ascii.nat_of_ascii c1 =? 226) && (Ascii.nat_of_ascii c2 =? 132) &&
   (Ascii.nat_of_ascii c3 =? 170))%nat.

Fixpoint toLowerCase (s : string) : string :=
  match s with
  | EmptyString => EmptyString
  | String c s' =>
      match s' with
      | String c2 (String c3 s3) =>
          if isKelvinSign c c2 c3 then String (Ascii.ascii_of_nat 107) (toLowerCase s3)
          else String (lowerAscii c) (toLowerCase s')
      | _ => String (lowerAscii c) (toLowerCase s')
      end
  end.

(** A free slot [{ start, end }]; the dayjs instants are their epoch
    milliseconds ([valueOf]). *)
Record Slot := mkSlot { start : Z; end_ : Z }.

(** [Omit<Task, 'startTime' | 'endTime'>] *)
Record TaskDetails := mkDetails {
  d_id : string;
  d_title : string;
  d_description : option string;
  d_status : Status;
  d_priority : Priority;
  d_categoryId : string;
  d_order : Z;
  d_createdAt : Z
}.

(** A full [Task] passed where [taskDetails] is expected: its own
    [startTime] and [endTime] are overwritten by the spread below. *)
Definition detailsOf (t : Task) : TaskDetails :=
  mkDetails (id t) (title t) (description t) (status t) (priority t)
            (categoryId t) (order t) (createdAt t).

(** [{ ...taskDetails, startTime: s, endTime: e }] *)
Definition scheduled (d : TaskDetails) (s e : Z) : Task :=
  mkTask (d_id d) (d_title d) (d_description d) s e (d_status d)
         (d_priority d) (d_categoryId d) (d_order d) (d_createdAt d).

(** The two local variables the closure [allocateTime] mutates. *)
Record AllocState := mkAlloc {
  scheduledTasks : list Task;
  freeSlots : list Slot
}.

(** The [for] loop of [allocateTime], entered at index [i] with [n] slots
    left to look at.  The result is the returned boolean and the state. *)
Fixpoint allocateLoop (n : nat) (i : nat) (durationMs : Z)
    (taskDetails : TaskDetails) (st : AllocState) : bool * AllocState :=
  match n with
  | O => (false, st)
  | S n' =>
    match freeSlots st !! i with
    | None => (false, st)
    | Some slot =>
      let slotDuration := end_ slot - start slot in
      if slotDuration >=? durationMs then
        let taskStartTime := start slot in
        let taskEndTime := taskStartTime + durationMs in
        let scheduledTasks' :=
          scheduledTasks st ++ [scheduled taskDetails taskStartTime taskEndTime] in
        let remainingSlotStart := taskEndTime in
        if remainingSlotStart <? end_ slot then
          (true, mkAlloc scheduledTasks'
                   (<[i := mkSlot remainingSlotStart (end_ slot)]> (freeSlots st)))
        else
          (true, mkAlloc scheduledTasks' (delete i (freeSlots st)))
      else allocateLoop n' (S i) durationMs taskDetails st
    end
  end.

Definition allocateTime (durationMs : Z) (taskDetails : TaskDetails)
    (st : AllocState) : bool * AllocState :=
  allocateLoop (length (freeSlots st)) 0 durationMs taskDetails st.

Record FixedTask := mkFixed {
  ft_title : string;
  ft_durationHours : Z;
  ft_category : string;
  ft_priority : Priority
}.

Definition fixedTasks (sleepDuration workDuration : Z) : list FixedTask :=
  [ mkFixed "Sleeping Time" sleepDuration "rest" low;
    mkFixed "Work/School Time" workDuration "work" high ].

(** What [crypto.randomUUID()] and [Date.now()] return in one iteration
    of [fixedTasks.forEach]. *)
Record Draw := mkDraw { uuid : string; now : Z }.

(** [categories[0].id]; [None] is the TypeError of reading [id] of
    [undefined]. *)
Definition firstCategoryId (categories : list Category) : option string :=
  match categories with
  | [] => None
  | c :: _ => Some (cat_id c)
  end.

(** [categories.find(c => c.name.toLowerCase() === name)?.id || categories[0].id];
    the empty string is falsy. *)
Definition findCategoryId (categories : list Category) (name : string)
    : option string :=
  match List.find (λ c, bool_decide (toLowerCase (cat_name c) = name)) categories with
  | Some c =>
      if bool_decide (cat_id c = EmptyString) then firstCategoryId categories
      else Some (cat_id c)
  | None => firstCategoryId categories
  end.

(** The callback of [fixedTasks.forEach]; [None] is an exception thrown
    while the argument of [allocateTime] is evaluated. *)
Definition fixedStep (categories : list Category) (ft : FixedTask) (dr : Draw)
    (st : AllocState) : option AllocState :=
  if ft_durationHours ft <=? 0 then Some st
  else
    cid ← findCategoryId categories (ft_category ft);
    Some (allocateTime (ft_durationHours ft * 60 * 60 * 1000)
            (mkDetails (uuid dr) (ft_title ft) None pending (ft_priority ft)
                       cid 0 (now dr)) st).2.

Fixpoint forEachFixed (categories : list Category)
    (fts : list (FixedTask * Draw)) (st : AllocState) : option AllocState :=
  match fts with
  | [] => Some st
  | (ft, dr) :: fts' =>
      st' ← fixedStep categories ft dr st;
      forEachFixed categories fts' st'
  end.

(** [userDurationTasks.forEach(dt => allocateTime(dt.endTime, dt))] *)
Definition userStep (st : AllocState) (dt : Task) : AllocState :=
  (allocateTime (endTime dt) (detailsOf dt) st).2.

Definition forEachUser (dts : list Task) (st : AllocState) : AllocState :=
  foldl userStep st dts.

Definition msPerDay : Z := 24 * 60 * 60 * 1000.

(** [scheduleDurationTasks], as a function of the component state it reads
    ([sleepDuration], [workDuration], [tempTasks], [categories]) and of the
    host values: [today] is [dayjs().startOf('day')] and [draws] are the
    UUIDs and timestamps handed out to the fixed tasks. *)
Definition scheduleDurationTasks (today : Z) (draws : Draw * Draw)
    (categories : list Category) (sleepDuration workDuration : Z)
    (tempTasks : list Task) : option (list Task) :=
  let st0 := mkAlloc [] [mkSlot today (today + msPerDay)] in
  st1 ← forEachFixed categories
          (zip (fixedTasks sleepDuration workDuration) [draws.1; draws.2]) st0;
  let userDurationTasks := sortBy (λ a b, endTime b - endTime a) tempTasks in
  let st2 := forEachUser userDurationTasks st1 in
  Some (imap (λ index t, withOrder t (Z.of_nat index))
          (sortBy (λ a b, startTime a - startTime b) (scheduledTasks st2))).

(** *** The state of the SetupModal component and its handlers *)

Inductive Mode := clock | duration.

Record SetupState := mkSetup {
  mode : Mode;
  tempTasks : list Task;
  editingTask : option Task;
  isTaskModalOpen : bool;
  sleepDuration : Z;
  workDuration : Z;
  durationTaskName : string;
  durationTaskMinutes : Z;
  editingDurationTaskId : option string;
  previewedTasks : option (list Task)
}.

Definition setTempTasks (v : list Task) (st : SetupState) : SetupState :=
  mkSetup (mode st) v (editingTask st) (isTaskModalOpen st) (sleepDuration st)
    (workDuration st) (durationTaskName st) (durationTaskMinutes st)
    (editingDurationTaskId st) (previewedTasks st).

Definition setPreviewedTasks (v : option (list Task)) (st : SetupState) : SetupState :=
  mkSetup (mode st) (tempTasks st) (editingTask st) (isTaskModalOpen st)
    (sleepDuration st) (workDuration st) (durationTaskName st)
    (durationTaskMinutes st) (editingDurationTaskId st) v.

Definition setEditingTask (v : option Task) (st : SetupState) : SetupState :=
  mkSetup (mode st) (tempTasks st) v (isTaskModalOpen st) (sleepDuration st)
    (workDuration st) (durationTaskName st) (durationTaskMinutes st)
    (editingDurationTaskId st) (previewedTasks st).

Definition setIsTaskModalOpen (v : bool) (st : SetupState) : SetupState :=
  mkSetup (mode st) (tempTasks st) (editingTask st) v (sleepDuration st)
    (workDuration st) (durationTaskName st) (durationTaskMinutes st)
    (editingDurationTaskId st) (previewedTasks st).

Definition setSleepDuration (v : Z) (st : SetupState) : SetupState :=
  mkSetup (mode st) (tempTasks st) (editingTask st) (isTaskModalOpen st) v
    (workDuration st) (durationTaskName st) (durationTaskMinutes st)
    (editingDurationTaskId st) (previewedTasks st).

Definition setWorkDuration (v : Z) (st : SetupState) : SetupState :=
  mkSetup (mode st) (tempTasks st) (editingTask st) (isTaskModalOpen st)
    (sleepDuration st) v (durationTaskName st) (durationTaskMinutes st)
    (editingDurationTaskId st) (previewedTasks st).

Definition setDurationTaskName (v : string) (st : SetupState) : SetupState :=
  mkSetup (mode st) (tempTasks st) (editingTask st) (isTaskModalOpen st)
    (sleepDuration st) (workDuration st) v (durationTaskMinutes st)
    (editingDurationTaskId st) (previewedTasks st).

Definition setDurationTaskMinutes (v : Z) (st : SetupState) : SetupState :=
  mkSetup (mode st) (tempTasks st) (editingTask st) (isTaskModalOpen st)
    (sleepDuration st) (workDuration st) (durationTaskName st) v
    (editingDurationTaskId st) (previewedTasks st).

Definition setEditingDurationTaskId (v : option string) (st : SetupState)
    : SetupState :=
  mkSetup (mode st) (tempTasks st) (editingTask st) (isTaskModalOpen st)
    (sleepDuration st) (workDuration st) (durationTaskName st)
    (durationTaskMinutes st) v (previewedTasks st).

(** The body of the arrow function given to [previewedTasks.some]: the
    edited task against one task of the preview. *)
Definition overlapsWith (task existingTask : Task) : bool :=
  negb (bool_decide (id existingTask = id task)) &&
  (((startTime task >=? startTime existingTask) &&
    (startTime task <? endTime existingTask)) ||
   ((endTime task >? startTime existingTask) &&
    (endTime task <=? endTime existingTask)) ||
   ((startTime task <=? startTime existingTask) &&
    (endTime task >=? endTime existingTask))).

Definition overlapAlert : string :=
  "Task times overlap with an existing task in the preview. Please choose different times.".

(** [l.map(t => t.id === task.id ? task : t)] *)
Definition replaceById (task : Task) (l : list Task) : list Task :=
  map (λ t, if bool_decide (id t = id task) then task else t) l.

Definition hasId (taskId : string) (l : list Task) : bool :=
  existsb (λ t, bool_decide (id t = taskId)) l.

(** [handleSaveTask] of the SetupModal.  The result is the next state and
    the message given to [alert], if any. *)
Definition handleSaveTask (task : Task) (st : SetupState)
    : SetupState * option string :=
  let close st' := setEditingTask None (setIsTaskModalOpen false st') in
  let toTemp :=
    match List.find (λ t, bool_decide (id t = id task)) (tempTasks st) with
    | Some _ => setTempTasks (replaceById task (tempTasks st)) st
    | None =>
        setTempTasks
          (tempTasks st ++ [withOrder task (Z.of_nat (length (tempTasks st)))]) st
    end in
  match previewedTasks st with
  | Some previewed =>
      if hasId (id task) previewed then
        let overlaps := existsb (overlapsWith task) previewed in
        if overlaps then (st, Some overlapAlert)
        else
          (close (setPreviewedTasks
                    (Some (sortBy (λ a b, startTime a - startTime b)
                             (replaceById task previewed))) st), None)
      else (close toTemp, None)
  | None => (close toTemp, None)
  end.

Definition handleDeleteTask (taskId : string) (st : SetupState) : SetupState :=
  setTempTasks (filter (λ t, id t ≠ taskId) (tempTasks st)) st.

(** [!s.trim()] for a text given by the bytes of its UTF-8 form: the text
    is empty once the white space is trimmed, that is, it holds nothing
    but the white space and line terminators of ECMAScript: TAB, LF, VT,
    FF, CR and SP in one byte, U+00A0 in two, and U+1680, U+2000 to
    U+200A, U+2028, U+2029, U+202F, U+205F, U+3000 and U+FEFF in three. *)
Definition isWhiteSpace (c : Ascii.ascii) : bool :=
  let n := Ascii.nat_of_ascii c in
  (((9 <=? n) && (n <=? 13)) || (n =? 32))%nat.

Definition isWhiteSpace2 (c1 c2 : Ascii.ascii) : bool :=
  let n1 := Ascii.nat_of_ascii c1 in
  let n2 := Ascii.nat_of_ascii c2 in
  ((n1 =? 194) && (n2 =? 160))%nat.

Definition isWhiteSpace3 (c1 c2 c3 : Ascii.ascii) : bool :=
  let n1 := Ascii.nat_of_ascii c1 in
  let n2 := Ascii.nat_of_ascii c2 in
  let n3 := Ascii.nat_of_ascii c3 in
  (((n1 =? 225) && (n2 =? 154) && (n3 =? 128)) ||
   ((n1 =? 226) && (n2 =? 128) &&
    (((128 <=? n3) && (n3 <=? 138)) || (n3 =? 168) || (n3 =? 169) ||
     (n3 =? 175))) ||
   ((n1 =? 226) && (n2 =? 129) && (n3 =? 159)) ||
   ((n1 =? 227) && (n2 =? 128) && (n3 =? 128)) ||
   ((n1 =? 239) && (n2 =? 187) && (n3 =? 191)))%nat.

Fixpoint blank (s : string) : bool :=
  match s with
  | EmptyString => true
  | String c1 s1 =>
      if isWhiteSpace c1 then blank s1
      else
        match s1 with
        | String c2 s2 =>
            if isWhiteSpace2 c1 c2 then blank s2
            else
              match s2 with
              | String c3 s3 => isWhiteSpace3 c1 c2 c3 && blank s3
              | EmptyString => false
              end
        | EmptyString => false
        end
  end.

(** [{ ...t, title: name, endTime: e }] *)
Definition withTitleEnd (t : Task) (name : string) (e : Z) : Task :=
  mkTask (id t) name (description t) (startTime t) e (status t) (priority t)
         (categoryId t) (order t) (createdAt t).

(** [categories.find(c => c.name.toLowerCase() === 'study')?.id
     || categories[0]?.id || 'study'] *)
Definition studyCategoryId (categories : list Category) : string :=
  let orFirst :=
    match categories with
    | c :: _ => if bool_decide (cat_id c = EmptyString) then "study" else cat_id c
    | [] => "study"
    end in
  match List.find (λ c, bool_decide (toLowerCase (cat_name c) = "study")) categories with
  | Some c => if bool_decide (cat_id c = EmptyString) then orFirst else cat_id c
  | None => orFirst
  end.

(** [handleAddOrUpdateDurationTask].  [blankName] is the test
    [!durationTaskName.trim()] of the guard, a function of the host: what
    follows holds for every such function, and [blank] is the one of
    ECMAScript on UTF-8 text. *)
Definition handleAddOrUpdateDurationTask (blankName : string → bool)
    (categories : list Category) (dr : Draw) (st : SetupState) : SetupState :=
  if blankName (durationTaskName st) || (durationTaskMinutes st <=? 0) then st
  else
    let updated eid :=
      map (λ t, if bool_decide (id t = eid)
                then withTitleEnd t (durationTaskName st)
                       (durationTaskMinutes st * 60 * 1000)
                else t) (tempTasks st) in
    let added :=
      tempTasks st ++
      [mkTask (uuid dr) (durationTaskName st) (Some "Duration-based task")
         0 (durationTaskMinutes st * 60 * 1000) pending medium
         (studyCategoryId categories) (Z.of_nat (length (tempTasks st)))
         (now dr)] in
    let tempTasks' :=
      match editingDurationTaskId st with
      | Some eid => if bool_decide (eid = EmptyString) then added else updated eid
      | None => added
      end in
    setEditingDurationTaskId None
      (setDurationTaskMinutes 30
         (setDurationTaskName EmptyString (setTempTasks tempTasks' st))).

(** The edit button of a row of the duration list. *)
Definition editDurationTask (task : Task) (st : SetupState) : SetupState :=
  setDurationTaskMinutes (endTime task / 60000)
    (setDurationTaskName (title task)
       (setEditingDurationTaskId (Some (id task)) st)).

(** The state after the effect that follows a switch to duration mode:
    [setPreviewedTasks(null); setTempTasks([])]. *)
Definition enterDurationMode (st : SetupState) : SetupState :=
  mkSetup duration [] (editingTask st) (isTaskModalOpen st) (sleepDuration st)
    (workDuration st) (durationTaskName st) (durationTaskMinutes st)
    (editingDurationTaskId st) None.

(** What the user can do in the duration form, the part of the modal
    that writes the state the allocator reads.  The number inputs store
    [parseInt(e.target.value) || 0], an integer.  The preview, its "Go
    Back" and the edit of a previewed task are the further constructors
    of [SetupAction] below. *)
Inductive DurationAction :=
| TypeSleep (hours : Z)
| TypeWork (hours : Z)
| TypeName (name : string)
| TypeMinutes (minutes : Z)
| ClickEdit (index : nat)
| ClickDelete (index : nat)
| ClickAddOrUpdate (dr : Draw).

Definition durationStep (blankName : string → bool)
    (categories : list Category) (st : SetupState) (a : DurationAction)
    : SetupState :=
  match a with
  | TypeSleep h => setSleepDuration h st
  | TypeWork h => setWorkDuration h st
  | TypeName n => setDurationTaskName n st
  | TypeMinutes m => setDurationTaskMinutes m st
  | ClickEdit i =>
      match tempTasks st !! i with
      | Some t => editDurationTask t st
      | None => st
      end
  | ClickDelete i =>
      match tempTasks st !! i with
      | Some t => handleDeleteTask (id t) st
      | None => st
      end
  | ClickAddOrUpdate dr =>
      handleAddOrUpdateDurationTask blankName categories dr st
  end.

(** The preview button and [handleSaveAndExit] call the allocator on the
    current state. *)
Definition previewSchedule (today : Z) (draws : Draw * Draw)
    (categories : list Category) (st : SetupState) : option (list Task) :=
  scheduleDurationTasks today draws categories (sleepDuration st)
    (workDuration st) (tempTasks st).

(** ** services.ts: the notification service *)

Definition dquote : string := String (Ascii.ascii_of_nat 34) EmptyString.

(** The arguments of one call of [showNotification(title, options)]. *)
Record Notification := mkNotification {
  n_title : string;
  n_body : string;
  n_icon : string;
  n_tag : option string
}.

(** [showNotification] hands the notification to the browser when the
    permission is granted and does nothing otherwise. *)
Definition showNotification (granted : bool) (n : Notification)
    : list Notification :=
  if granted then [n] else [].

(** The functions given to [setTimeout].  [StartCallback] and
    [EndCallback] close over the task given to
    [scheduleTaskNotifications]; [OtherCallback] stands for the timers of
    the rest of the application (toasts, the daily summary). *)
Inductive Callback :=
| StartCallback (task : Task)
| EndCallback (task : Task)
| OtherCallback.

(** A pending timer of the host: its callback and the instant it is due,
    the time of the [setTimeout] call plus the delay. *)
Record Timeout := mkTimeout { callback : Callback; due : Z }.

(** [scheduledNotifications], the module-level [Map<string, number[]>],
    with the timer table of the host and the next timer id it hands out. *)
Record NotifState := mkNotif {
  scheduledNotifications : gmap string (list nat);
  timeouts : gmap nat Timeout;
  nextTimeoutId : nat
}.

Definition setTimeout (cb : Callback) (nowv delay : Z) (st : NotifState)
    : nat * NotifState :=
  (nextTimeoutId st,
   mkNotif (scheduledNotifications st)
     (<[nextTimeoutId st := mkTimeout cb (nowv + delay)]> (timeouts st))
     (S (nextTimeoutId st))).

Definition clearTimeout (tbl : gmap nat Timeout) (timeoutId : nat)
    : gmap nat Timeout :=
  delete timeoutId tbl.

Definition cancelTaskNotifications (taskId : string) (st : NotifState)
    : NotifState :=
  match scheduledNotifications st !! taskId with
  | Some timeoutIds =>
      mkNotif (delete taskId (scheduledNotifications st))
        (foldl clearTimeout (timeouts st) timeoutIds)
        (nextTimeoutId st)
  | None => st
  end.

(** [scheduleTaskNotifications(task)]; [nowv] is what [Date.now()]
    returns. *)
Definition scheduleTaskNotifications (nowv : Z) (task : Task)
    (st : NotifState) : NotifState :=
  let st := cancelTaskNotifications (id task) st in
  if bool_decide (status task = completed) then st
  else
    let '(timeoutIds, st) :=
      if startTime task >? nowv then
        let '(startTimeoutId, st') :=
          setTimeout (StartCallback task) nowv (startTime task - nowv) st in
        ([startTimeoutId], st')
      else ([], st) in
    let '(timeoutIds, st) :=
      if endTime task >? nowv then
        let '(endTimeoutId, st') :=
          setTimeout (EndCallback task) nowv (endTime task - nowv) st in
        (timeoutIds ++ [endTimeoutId], st')
      else (timeoutIds, st) in
    if (0 <? length timeoutIds)%nat then
      mkNotif (<[id task := timeoutIds]> (scheduledNotifications st))
        (timeouts st) (nextTimeoutId st)
    else st.

Definition iconPath : string := "/icons/icon-192x192.png".

(** The body of a timer callback: the [showNotification] call it makes.
    [db] is the [tasks] object store, keyed by task id, as it is when the
    callback runs. *)
Definition runCallback (db : gmap string Task) (cb : Callback)
    : list Notification :=
  match cb with
  | StartCallback task =>
      [mkNotification ("Task Started: " +:+ title task)
         ("It's time to begin " +:+ dquote +:+ title task +:+ dquote
            +:+ ". You can do it!")
         iconPath (Some ("task-start-" +:+ id task))]
  | EndCallback task =>
      let currentTask := db !! id task in
      if bool_decide (status <$> currentTask ≠ Some completed) then
        [mkNotification ("Task Overdue: " +:+ title task)
           ("Your task " +:+ dquote +:+ title task +:+ dquote
              +:+ " was due. Don't forget to complete it!")
           iconPath (Some ("task-end-" +:+ id task))]
      else
        [mkNotification ("Task Ended: " +:+ title task)
           ("Time's up for " +:+ dquote +:+ title task +:+ dquote
              +:+ ". Hope you finished it!")
           iconPath (Some ("task-end-" +:+ id task))]
  | OtherCallback => []
  end.

(** The host runs the timer [timeoutId]: it leaves the timer table and its
    callback runs.  Nothing happens for an id that is not pending. *)
Definition fireTimeout (db : gmap string Task) (timeoutId : nat)
    (st : NotifState) : list Notification * NotifState :=
  match timeouts st !! timeoutId with
  | Some tm =>
      (runCallback db (callback tm),
       mkNotif (scheduledNotifications st) (delete timeoutId (timeouts st))
         (nextTimeoutId st))
  | None => ([], st)
  end.

(** [dbService.saveTasks]: clear the store, then [put] every task under
    its id. *)
Definition saveTasks (tasks : list Task) : gmap string Task :=
  foldl (λ store t, <[id t := t]> store) ∅ tasks.

(** ** App.tsx: DashboardPage and DataProvider *)

(** The predicate given to [tasks.find] in [findCurrentTask]. *)
Definition isCurrentAt (nowv : Z) (t : Task) : bool :=
  (nowv >=? startTime t) && (nowv <=? endTime t) &&
  negb (bool_decide (status t = completed)).

(** [findCurrentTask]: the value given to [setCurrentTaskId]. *)
Definition findCurrentTask (nowv : Z) (tasks : list Task) : option string :=
  match List.find (isCurrentAt nowv) tasks with
  | Some current => Some (id current)
  | None => None
  end.

(** The [isCurrent] property a TaskItem and the Timeline receive:
    [task.id === currentTaskId]. *)
Definition isCurrent (currentTaskId : option string) (task : Task) : bool :=
  bool_decide (currentTaskId = Some (id task)).

Record Achievement := mkAchievement {
  a_id : string;
  a_title : string;
  a_description : string;
  unlocked : bool;
  a_icon : string
}.

(** The state of the DataProvider, with the [tasks] object store and the
    notification service it drives. *)
Record AppState := mkApp {
  tasks : list Task;
  history : list CompletedTask;
  achievements : list Achievement;
  tasksStore : gmap string Task;
  notif : NotifState
}.

(** [earlyRiser.unlocked = true] on the first achievement whose id is
    ['early-riser']; the object is shared with the state array. *)
Fixpoint unlockEarlyRiser (l : list Achievement) : list Achievement :=
  match l with
  | [] => []
  | a :: l' =>
      if bool_decide (a_id a = "early-riser") then
        mkAchievement (a_id a) (a_title a) (a_description a) true (a_icon a) :: l'
      else a :: unlockEarlyRiser l'
  end.

(** [addCompletedTask]; [nowv] is [Date.now()] and [hour] is
    [dayjs().hour()].  The function is a closure of one render of the
    DataProvider: [render] is the state that render saw, which the test on
    [history] and the copy of [achievements] read, while
    [setHistory(prev => [...prev, completedTask])] appends to the pending
    state [st].  Between two events the component renders again and the
    two agree. *)
Definition addCompletedTask (nowv hour : Z) (render : AppState) (task : Task)
    (st : AppState) : AppState :=
  if existsb (λ h : CompletedTask, bool_decide (id h = id task)) (history render)
  then st
  else
    let completedTask := mkCompletedTask (withStatus task completed) nowv in
    let history' := history st ++ [completedTask] in
    let achievements' :=
      match List.find (λ a, bool_decide (a_id a = "early-riser"))
              (achievements render) with
      | Some earlyRiser =>
          if negb (unlocked earlyRiser) && (hour <? 8)
          then unlockEarlyRiser (achievements render)
          else achievements st
      | None => achievements st
      end in
    mkApp (tasks st) history' achievements' (tasksStore st) (notif st).

(** [handleSetTasks], the [setTasks] of the data context. *)
Definition handleSetTasks (newTasks : list Task) (st : AppState) : AppState :=
  mkApp newTasks (history st) (achievements st) (saveTasks newTasks) (notif st).

(** ** components.tsx: TaskItem and TaskManager *)

(** [handleStatusChange]: the task it hands to [onUpdate]. *)
Definition handleStatusChange (task : Task) : Task :=
  withStatus task
    (if bool_decide (status task = completed) then pending else completed).

(** The values an event handler reads from the host: [Date.now()] and
    [dayjs().hour()] in [addCompletedTask], and [Date.now()] in
    [scheduleTaskNotifications]. *)
Record Clock := mkClock { completionNow : Z; hourNow : Z; armNow : Z }.

(** [handleUpdateTask] of the TaskManager, run on the state [st] the
    component rendered with. *)
Definition handleUpdateTask (clk : Clock) (updatedTask : Task)
    (st : AppState) : AppState :=
  let st1 :=
    if bool_decide (status updatedTask = completed)
    then addCompletedTask (completionNow clk) (hourNow clk) st updatedTask st
    else st in
  let st2 := handleSetTasks (replaceById updatedTask (tasks st)) st1 in
  mkApp (tasks st2) (history st2) (achievements st2) (tasksStore st2)
    (scheduleTaskNotifications (armNow clk) updatedTask (notif st2)).

(** A click on the status button of the TaskItem that shows the task with
    id [taskId]: [handleStatusChange] on that task, then
    [handleUpdateTask]. *)
Definition toggleStatus (clk : Clock) (taskId : string) (st : AppState)
    : AppState :=
  match List.find (λ t, bool_decide (id t = taskId)) (tasks st) with
  | Some task => handleUpdateTask clk (handleStatusChange task) st
  | None => st
  end.

(** [handleBulkComplete] with the ids in [selectedTasks]; [clocks i] is
    what the [i]-th call of [onTaskComplete] reads from the host. *)
Definition handleBulkComplete (clocks : nat → Clock)
    (selectedTasks : list string) (st : AppState) : AppState :=
  let selected t := bool_decide (id t ∈ selectedTasks) in
  let st1 :=
    handleSetTasks
      (map (λ t, if selected t then withStatus t completed else t) (tasks st))
      st in
  foldl (λ s '(i, t),
           addCompletedTask (completionNow (clocks i)) (hourNow (clocks i)) st t s)
    st1 (imap pair (List.filter selected (tasks st))).

(** ** App.tsx: AppContent and the rest of the DataProvider *)

(** [tasks.forEach(t => notificationService.scheduleTaskNotifications(t))];
    each call comes with the value of [Date.now()] it reads. *)
Definition armAll (l : list (Z * Task)) (st : NotifState) : NotifState :=
  foldl (λ s x, scheduleTaskNotifications x.1 x.2 s) st l.

(** [handleSetupComplete]: [setTasks(newTasks)], then the reminders of
    every new task; [nows i] is [Date.now()] in the [i]-th call. *)
Definition handleSetupComplete (nows : nat → Z) (newTasks : list Task)
    (st : AppState) : AppState :=
  let st1 := handleSetTasks newTasks st in
  mkApp (tasks st1) (history st1) (achievements st1) (tasksStore st1)
    (armAll (imap (λ i t, (nows i, t)) newTasks) (notif st1)).

(** [DataProvider.handleSaveTask], the [saveTask] of the data context. *)
Definition saveTask (nowv : Z) (taskToSave : Task) (st : AppState) : AppState :=
  let newTasks :=
    match List.find (λ t, bool_decide (id t = id taskToSave)) (tasks st) with
    | Some _ => replaceById taskToSave (tasks st)
    | None => tasks st ++ [taskToSave]
    end in
  mkApp newTasks (history st) (achievements st) (saveTasks newTasks)
    (scheduleTaskNotifications nowv taskToSave (notif st)).

(** ** components.tsx: the rest of the SetupModal and of the TaskManager *)

(** [handleSaveAndExit]: what is handed to [onSetupComplete]; [None] when
    the allocator throws.  An empty preview is an array and so is taken. *)
Definition handleSaveAndExit (today : Z) (draws : Draw * Draw)
    (categories : list Category) (st : SetupState) : option (list Task) :=
  match mode st with
  | duration =>
      match previewedTasks st with
      | Some previewed => Some previewed
      | None =>
          scheduleDurationTasks today draws categories (sleepDuration st)
            (workDuration st) (tempTasks st)
      end
  | clock => Some (sortBy (λ a b, startTime a - startTime b) (tempTasks st))
  end.

(** [Array.prototype.findIndex]: the index of the first element that
    passes the test, and -1 when there is none. *)
Fixpoint findIndexFrom {A} (f : A → bool) (i : Z) (l : list A) : Z :=
  match l with
  | [] => -1
  | x :: l' => if f x then i else findIndexFrom f (i + 1) l'
  end.

Definition findIndex {A} (f : A → bool) (l : list A) : Z := findIndexFrom f 0 l.

(** [Array.prototype.splice(start, deleteCount, ...items)]: the removed
    elements and the array after the call.  A negative [start] counts
    from the end of the array, and [start] is clamped to the array. *)
Definition splice {A} (l : list A) (start : Z) (deleteCount : nat)
    (items : list A) : list A * list A :=
  let len := Z.of_nat (length l) in
  let s := Z.to_nat (if start <? 0 then Z.max (len + start) 0
                     else Z.min start len) in
  (take deleteCount (drop s l), take s l ++ items ++ drop (s + deleteCount) l).

(** [String.prototype.includes]: [sub] occurs in [s].  (Strings stand for
    texts by the bytes of their UTF-8 form; a text occurs in another one
    exactly when its bytes occur in the bytes of the other.) *)
Fixpoint includes (s sub : string) : bool :=
  String.prefix sub s ||
  match s with
  | EmptyString => false
  | String _ s' => includes s' sub
  end.

Module TaskManager.

(** [handleSaveTask] of the TaskManager: [onTaskSave(task)], which is
    [saveTask] of the data context behind a toast, then [onTaskComplete]
    for a completed task.  Both closures belong to the render [st]. *)
Definition handleSaveTask (clk : Clock) (task : Task) (st : AppState)
    : AppState :=
  let st1 := saveTask (armNow clk) task st in
  if bool_decide (status task = completed)
  then addCompletedTask (completionNow clk) (hourNow clk) st task st1
  else st1.

(** [handleDeleteTask] *)
Definition handleDeleteTask (taskId : string) (st : AppState) : AppState :=
  let st1 := handleSetTasks (filter (λ t, id t ≠ taskId) (tasks st)) st in
  mkApp (tasks st1) (history st1) (achievements st1) (tasksStore st1)
    (cancelTaskNotifications taskId (notif st1)).

(** [handleToggleSelect]: the next value of [selectedTasks]. *)
Definition handleToggleSelect (taskId : string) (prev : list string)
    : list string :=
  if bool_decide (taskId ∈ prev) then filter (λ x, x ≠ taskId) prev
  else prev ++ [taskId].

(** [handleBulkDelete]: the next state and the next [selectedTasks]. *)
Definition handleBulkDelete (selectedTasks : list string) (st : AppState)
    : AppState * list string :=
  let st1 := handleSetTasks (filter (λ t, id t ∉ selectedTasks) (tasks st)) st in
  (mkApp (tasks st1) (history st1) (achievements st1) (tasksStore st1)
     (foldl (λ s x, cancelTaskNotifications x s) (notif st1) selectedTasks),
   []).

(** [handleDrop]: what it hands to [onTasksChange], if it calls it.
    [draggingTask] is [draggingTask.current].  The array is copied with
    its elements as [Some]; [removed] is [undefined] ([None]) when the
    first [splice] removes nothing, and the spread of [undefined] in the
    final [map] gives an object that has the [order] only, again
    [None]. *)
Definition handleDrop (draggingTask : option Task) (dropTargetTask : Task)
    (tasks : list Task) : option (list (option Task)) :=
  match draggingTask with
  | Some dragging =>
      if bool_decide (id dropTargetTask ≠ id dragging) then
        let newTasks := Some <$> tasks in
        let dragIndex :=
          findIndex (λ t, bool_decide (id t = id dragging)) tasks in
        let dropIndex :=
          findIndex (λ t, bool_decide (id t = id dropTargetTask)) tasks in
        let '(removedItems, newTasks) := splice newTasks dragIndex 1 [] in
        let removed := default None (head removedItems) in
        let '(_, newTasks) := splice newTasks dropIndex 0 [removed] in
        Some (imap (λ index t, (λ t, withOrder t (Z.of_nat index)) <$> t)
                newTasks)
      else None
  | None => None
  end.

(** The value of the status filter: [Task['status'] | 'all']. *)
Inductive StatusFilter := allStatuses | onlyStatus (s : Status).

(** [filteredTasks].  [lowerCase] is [String.prototype.toLowerCase], a
    function of the host and its Unicode tables: what is proved holds for
    every such function. *)
Definition filteredTasks (lowerCase : string → string) (searchTerm : string)
    (statusFilter : StatusFilter) (categoryFilter : string)
    (tasks : list Task) : list Task :=
  sortBy (λ a b, order a - order b)
    (List.filter
       (λ t, bool_decide (categoryFilter = "all") ||
             bool_decide (categoryId t = categoryFilter))
       (List.filter
          (λ t, match statusFilter with
                | allStatuses => true
                | onlyStatus s => bool_decide (status t = s)
                end)
          (List.filter
             (λ t, bool_decide (searchTerm = EmptyString) ||
                   includes (lowerCase (title t)) (lowerCase searchTerm))
             tasks))).

End TaskManager.

(** ** components.tsx: TaskModal *)

(** [end.diff(start, 'minute')]: dayjs divides the difference in
    milliseconds by 60000 and truncates toward zero. *)
Definition diffMinutes (startMs endMs : Z) : Z := (endMs - startMs) ÷ 60000.

Inductive TimeInputMode := endTimeMode | durationMode.

(** The state of the TaskModal.  The two time fields hold a local date
    and time to the minute; [f_startMs] and [f_endMs] are what
    [dayjs(startTime).valueOf()] and [dayjs(endTime).valueOf()] give for
    them. *)
Record ModalForm := mkForm {
  f_title : string;
  f_description : string;
  f_startMs : Z;
  f_endMs : Z;
  f_priority : Priority;
  f_categoryId : string;
  f_timeInputMode : TimeInputMode;
  f_hours : Z;
  f_minutes : Z
}.

(** The state the modal starts with, after the effect that sets
    [duration] from the task.  [startMs] and [endMs] are the values of the
    two time fields, [formatted] from the task or from the clock. *)
Definition openTaskModal (task : option Task) (categories : list Category)
    (startMs endMs : Z) : ModalForm :=
  match task with
  | Some t =>
      let diff := diffMinutes (startTime t) (endTime t) in
      mkForm (title t) (default EmptyString (description t)) startMs endMs
        (priority t)
        (if bool_decide (categoryId t = EmptyString)
         then match categories with
              | c :: _ => cat_id c
              | [] => EmptyString
              end
         else categoryId t)
        endTimeMode (diff / 60) (Z.rem diff 60)
  | None =>
      mkForm EmptyString EmptyString startMs endMs medium
        (match categories with
         | c :: _ => cat_id c
         | [] => EmptyString
         end)
        endTimeMode 1 0
  end.

(** The button that switches between an end time and a duration.  In
    duration mode the effect that follows writes the end field:
    [dayjs(startTime).add(hours, 'hour').add(minutes, 'minute')], an
    instant on a whole minute, which the field holds as it is. *)
Definition switchTimeInputMode (form : ModalForm) : ModalForm :=
  match f_timeInputMode form with
  | endTimeMode =>
      mkForm (f_title form) (f_description form) (f_startMs form)
        (f_startMs form + f_hours form * 3600000 + f_minutes form * 60000)
        (f_priority form) (f_categoryId form) durationMode
        (f_hours form) (f_minutes form)
  | durationMode =>
      mkForm (f_title form) (f_description form) (f_startMs form)
        (f_endMs form) (f_priority form) (f_categoryId form) endTimeMode
        (f_hours form) (f_minutes form)
  end.

(** [handleSubmit]: the task given to [onSave], if any; [dr] is what
    [crypto.randomUUID()] and [Date.now()] return.  dayjs adds hours and
    minutes to an instant as milliseconds. *)
Definition handleSubmit (task : option Task) (dr : Draw) (form : ModalForm)
    : option Task :=
  if bool_decide (f_title form = EmptyString) ||
     bool_decide (f_categoryId form = EmptyString) then None
  else
    let finalEndTime :=
      match f_timeInputMode form with
      | durationMode =>
          f_startMs form + f_hours form * 3600000 + f_minutes form * 60000
      | endTimeMode => f_endMs form
      end in
    Some (mkTask
            (match task with
             | Some t => if bool_decide (id t = EmptyString) then uuid dr else id t
             | None => uuid dr
             end)
            (f_title form) (Some (f_description form)) (f_startMs form)
            finalEndTime
            (match task with Some t => status t | None => pending end)
            (f_priority form) (f_categoryId form)
            (match task with Some t => order t | None => 0 end)
            (match task with
             | Some t => if createdAt t =? 0 then now dr else createdAt t
             | None => now dr
             end)).

(** ** components.tsx: SetupModal, a setup in duration mode

    Everything the user can do while the modal is in duration mode: the
    duration form, "Preview Schedule", "Go Back", and the edit button of
    a row of the preview with the TaskModal it opens.  (A switch to clock
    mode and back runs the effect again: the setup starts anew from
    [enterDurationMode].) *)

(** [handleEditTask] *)
Definition handleEditTask (task : Task) (st : SetupState) : SetupState :=
  setIsTaskModalOpen true (setEditingTask (Some task) st).

Inductive SetupAction :=
| FormAction (a : DurationAction)
| ClickPreview (today : Z) (draws : Draw * Draw)
| ClickGoBack
| EditPreviewed (index : nat) (dr : Draw) (form : ModalForm)
| CloseTaskModal.

(** One action.  "Preview Schedule" is shown when there is no preview and
    is disabled when [tempTasks] is empty; an exception of the allocator
    leaves the state as it is.  "Go Back" is shown with the preview.
    [EditPreviewed]: the edit button of row [index] of the preview
    ([handleEditTask]), the fields of the TaskModal filled in as [form],
    and its submit button, whose [onSave] is [handleSaveTask]; after an
    alert the TaskModal stays open.  The TaskModal covers the page, so
    nothing else happens between these three. *)
Definition setupStep (blankName : string → bool) (categories : list Category)
    (st : SetupState) (a : SetupAction) : SetupState :=
  match a with
  | FormAction a => durationStep blankName categories st a
  | ClickPreview today draws =>
      match previewedTasks st, tempTasks st with
      | None, _ :: _ =>
          match previewSchedule today draws categories st with
          | Some out => setPreviewedTasks (Some out) st
          | None => st
          end
      | _, _ => st
      end
  | ClickGoBack =>
      match previewedTasks st with
      | Some _ => setPreviewedTasks None st
      | None => st
      end
  | EditPreviewed index dr form =>
      match previewedTasks st with
      | Some previewed =>
          match previewed !! index with
          | Some t =>
              let st1 := handleEditTask t st in
              match handleSubmit (Some t) dr form with
              | Some task => (handleSaveTask task st1).1
              | None => st1
              end
          | None => st
          end
      | None => st
      end
  | CloseTaskModal => setIsTaskModalOpen false st
  end.

(** ** components.tsx: ActivityPieChart *)

(** A [Map<string, number>]: the entries in insertion order. *)
Definition mapGet (k : string) (m : list (string * Z)) : option Z :=
  snd <$> List.find (λ kv, bool_decide (kv.1 = k)) m.

Fixpoint mapSet (k : string) (v : Z) (m : list (string * Z))
    : list (string * Z) :=
  match m with
  | [] => [(k, v)]
  | (k', v') :: m' =>
      if bool_decide (k' = k) then (k, v) :: m' else (k', v') :: mapSet k v m'
  end.

(** [categoryTime] after [history.forEach]. *)
Definition categoryTime (history : list CompletedTask) : list (string * Z) :=
  foldl (λ m (task : CompletedTask),
           mapSet (categoryId task)
             (default 0 (mapGet (categoryId task) m)
              + (endTime task - startTime task)) m)
    [] history.

Record PieSlice := mkSlice { ps_name : string; ps_value : Z }.

(** [data] of the ActivityPieChart. *)
Definition pieData (history : list CompletedTask) (categories : list Category)
    : list PieSlice :=
  map (λ '(catId, time),
         mkSlice
           (match List.find (λ c, bool_decide (cat_id c = catId)) categories with
            | Some c =>
                if bool_decide (cat_name c = EmptyString) then "Unknown"
                else cat_name c
            | None => "Unknown"
            end)
           time)
    (categoryTime history).

(** ** App.tsx: AppContent, the effect that opens the SetupModal *)

(** Whether the effect calls [setShowSetupModal(true)], for a user who is
    logged in and whose data is loaded: no task starts between
    [todayStart] and [todayEnd], the [startOf('day')] and the
    [endOf('day')] of the clock. *)
Definition showsSetupModal (todayStart todayEnd : Z) (tasks : list Task)
    : bool :=
  Nat.eqb
    (length (List.filter
               (λ t, (startTime t >=? todayStart) && (startTime t <=? todayEnd))
               tasks))
    0.

(** ** App.tsx: AuthProvider, with the stores of services.ts it uses *)

Record User := mkUser {
  u_id : option nat;
  u_name : string;
  u_email : string;
  u_password : option string;
  u_bio : option string;
  u_profilePic : option string
}.

(** [{ ...user, id: k }] *)
Definition withId (user : User) (k : nat) : User :=
  mkUser (Some k) (u_name user) (u_email user) (u_password user) (u_bio user)
    (u_profilePic user).

(** The object stores [users] ([keyPath: 'id', autoIncrement: true], with
    the current number of its key generator) and [currentUser]
    ([keyPath: 'id']). *)
Record UserDb := mkUserDb {
  usersStore : gmap nat User;
  usersKeyGenerator : nat;
  currentUserStore : gmap nat User
}.

(** A database that was just created. *)
Definition newUserDb : UserDb := mkUserDb ∅ 1 ∅.

(** [db.put('users', user)]: the key of the record.  A value without an
    id gets the current number of the key generator, stored in the value;
    a value with an id is stored under it and moves the generator past
    it. *)
Definition putUser (user : User) (db : UserDb) : nat * UserDb :=
  match u_id user with
  | Some k =>
      (k, mkUserDb (<[k := user]> (usersStore db))
            (Nat.max (usersKeyGenerator db) (S k)) (currentUserStore db))
  | None =>
      let k := usersKeyGenerator db in
      (k, mkUserDb (<[k := withId user k]> (usersStore db)) (S k)
            (currentUserStore db))
  end.

Definition getUser (k : nat) (db : UserDb) : option User := usersStore db !! k.

(** [db.getAll('users')]: the records in ascending order of their keys. *)
Definition getAllUsers (db : UserDb) : list User :=
  map snd (sortBy (λ a b : nat * User, Z.of_nat a.1 - Z.of_nat b.1)
             (map_to_list (usersStore db))).

Definition getUserByEmail (email : string) (db : UserDb) : option User :=
  List.find (λ u, bool_decide (u_email u = email)) (getAllUsers db).

Definition setCurrentUser (user : User) (db : UserDb) : UserDb :=
  mkUserDb (usersStore db) (usersKeyGenerator db)
    (<[1%nat := withId user 1]> (currentUserStore db)).

Definition getCurrentUser (db : UserDb) : option User :=
  currentUserStore db !! 1%nat.

Definition clearCurrentUser (db : UserDb) : UserDb :=
  mkUserDb (usersStore db) (usersKeyGenerator db)
    (delete 1%nat (currentUserStore db)).

(** The state of the AuthProvider and the database. *)
Record AuthState := mkAuth { userDb : UserDb; user : option User }.

(** The component when the page is loaded: [useState(null)]. *)
Definition mountAuth (db : UserDb) : AuthState := mkAuth db None.

(** [checkUser], the effect that runs when the provider is mounted. *)
Definition checkUser (st : AuthState) : AuthState :=
  match getCurrentUser (userDb st) with
  | Some currentUser =>
      match u_id currentUser with
      | Some (S k) => mkAuth (userDb st) (getUser (S k) (userDb st))
      | _ => st
      end
  | None => st
  end.

Definition login (email password : string) (st : AuthState)
    : bool * AuthState :=
  match getUserByEmail email (userDb st) with
  | Some foundUser =>
      if bool_decide (u_password foundUser = Some password)
      then (true, mkAuth (setCurrentUser foundUser (userDb st)) (Some foundUser))
      else (false, st)
  | None => (false, st)
  end.

Definition signup (name email password : string) (st : AuthState)
    : bool * AuthState :=
  match getUserByEmail email (userDb st) with
  | Some _ => (false, st)
  | None =>
      let newUser := mkUser None name email (Some password) None None in
      let '(k, db1) := putUser newUser (userDb st) in
      let userWithId := withId newUser k in
      (true, mkAuth (setCurrentUser userWithId db1) (Some userWithId))
  end.

Definition logout (st : AuthState) : AuthState :=
  mkAuth (clearCurrentUser (userDb st)) None.

(** * Specification *)

(** Two tasks overlap when their half-open intervals meet. *)
Definition overlap (a b : Task) : Prop :=
  startTime a < endTime b ∧ startTime b < endTime a.

(** Every element is related to every later one. *)
Fixpoint pairwise {A} (R : A → A → Prop) (l : list A) : Prop :=
  match l with
  | [] => True
  | a :: l' => Forall (R a) l' ∧ pairwise R l'
  end.

Definition disjointTasks (a b : Task) : Prop := ¬ overlap a b.

(** No free slot is long enough for [durationMs]. *)
Definition noSlotFits (durationMs : Z) (st : AllocState) : Prop :=
  Forall (λ slot, end_ slot - start slot < durationMs) (freeSlots st).


(** The duration lists the duration-mode form can build. *)
Definition durationsPositive (l : list Task) : Prop :=
  Forall (λ t, 0 < endTime t) l.

(** The overlap validator as the specification words it: over time
    intervals [{start, end}], [validate(candidate, others)] is true iff
    the candidate overlaps some interval of [others], where two intervals
    overlap iff [a.start < b.end AND b.start < a.end]. *)
Record TimeInterval := mkInterval { ti_start : Z; ti_end : Z }.

Definition intervalsOverlap (a b : TimeInterval) : bool :=
  (ti_start a <? ti_end b) && (ti_start b <? ti_end a).

Definition validate (candidate : TimeInterval) (others : list TimeInterval)
    : bool :=
  existsb (intervalsOverlap candidate) others.

Definition intervalOf (t : Task) : TimeInterval :=
  mkInterval (startTime t) (endTime t).

(** The other tasks: the edited task's own prior version is left out. *)
Definition othersOf (task : Task) (previewed : list Task) : list TimeInterval :=
  intervalOf <$> filter (λ t, id t ≠ id task) previewed.

(** "Current" as the specification words it: [now] lies in the half-open
    interval [[start, end)] and the task is not completed. *)
Definition currentSpec (nowv : Z) (t : Task) : Prop :=
  startTime t ≤ nowv < endTime t ∧ status t ≠ completed.

(** The task a timer callback belongs to. *)
Definition callbackTaskId (cb : Callback) : option string :=
  match cb with
  | StartCallback task | EndCallback task => Some (id task)
  | OtherCallback => None
  end.

(** The live timers of a task id: the pending timers of the host whose
    callback belongs to that id. *)
Definition liveTimers (taskId : string) (st : NotifState) : gmap nat Timeout :=
  filter (λ kv, callbackTaskId (callback kv.2) = Some taskId) (timeouts st).

(** Every live timer of a task is listed in the registry under the id of
    the task. *)
Definition registryTracks (st : NotifState) : Prop :=
  ∀ k tm x,
    timeouts st !! k = Some tm → callbackTaskId (callback tm) = Some x →
    ∃ timeoutIds, scheduledNotifications st !! x = Some timeoutIds ∧ k ∈ timeoutIds.

(** The number of timers one call of [scheduleTaskNotifications] arms. *)
Definition armedCount (nowv : Z) (task : Task) : nat :=
  if bool_decide (status task = completed) then 0%nat
  else (if nowv <? startTime task then 1%nat else 0%nat) +
       (if nowv <? endTime task then 1%nat else 0%nat).

(** The two notifications of the end timer. *)
Definition taskOverdue (taskTitle taskId : string) : Notification :=
  mkNotification ("Task Overdue: " +:+ taskTitle)
    ("Your task " +:+ dquote +:+ taskTitle +:+ dquote
       +:+ " was due. Don't forget to complete it!")
    iconPath (Some ("task-end-" +:+ taskId)).

Definition taskEnded (taskTitle taskId : string) : Notification :=
  mkNotification ("Task Ended: " +:+ taskTitle)
    ("Time's up for " +:+ dquote +:+ taskTitle +:+ dquote
       +:+ ". Hope you finished it!")
    iconPath (Some ("task-end-" +:+ taskId)).

(** The history has a record of the task id. *)
Definition recorded (taskId : string) (h : list CompletedTask) : bool :=
  existsb (λ c : CompletedTask, bool_decide (id c = taskId)) h.

(** What happens to the timers in a session: the application arms and
    disarms the reminders of tasks, sets timers of its own, and the host
    runs a timer that is due. *)
Inductive NotifAction :=
| Arm (nowv : Z) (task : Task)
| Disarm (taskId : string)
| SetOther (nowv delay : Z)
| Fire (db : gmap string Task) (timeoutId : nat).

Definition notifStep (st : NotifState) (a : NotifAction) : NotifState :=
  match a with
  | Arm nowv task => scheduleTaskNotifications nowv task st
  | Disarm taskId => cancelTaskNotifications taskId st
  | SetOther nowv delay => (setTimeout OtherCallback nowv delay st).2
  | Fire db timeoutId => (fireTimeout db timeoutId st).2
  end.

(** *** The allocator as first fit with one cursor *)

(** What the allocator is asked to place: a duration in milliseconds and
    the details of the task. *)
Definition fixedRequest (categories : list Category) (x : FixedTask * Draw)
    : option (list (Z * TaskDetails)) :=
  if ft_durationHours x.1 <=? 0 then Some []
  else
    cid ← findCategoryId categories (ft_category x.1);
    Some [(ft_durationHours x.1 * 60 * 60 * 1000,
           mkDetails (uuid x.2) (ft_title x.1) None pending (ft_priority x.1)
             cid 0 (now x.2))].

Fixpoint fixedRequests (categories : list Category)
    (fts : list (FixedTask * Draw)) : option (list (Z * TaskDetails)) :=
  match fts with
  | [] => Some []
  | x :: fts' =>
      r ← fixedRequest categories x;
      rs ← fixedRequests categories fts';
      Some (r ++ rs)
  end.

Definition userRequests (tempTasks : list Task) : list (Z * TaskDetails) :=
  map (λ dt, (endTime dt, detailsOf dt))
    (sortBy (λ a b, endTime b - endTime a) tempTasks).

(** The cursor [p] is where the free part of the day starts.  A request
    is placed at the cursor when it is no longer than what is left, and
    is passed over otherwise. *)
Fixpoint place (p dayEnd : Z) (reqs : list (Z * TaskDetails)) : list Task :=
  match reqs with
  | [] => []
  | (d, details) :: reqs' =>
      if (p <? dayEnd) && (d <=? dayEnd - p)
      then scheduled details p (p + d) :: place (p + d) dayEnd reqs'
      else place p dayEnd reqs'
  end.

Fixpoint advance (p dayEnd : Z) (reqs : list (Z * TaskDetails)) : Z :=
  match reqs with
  | [] => p
  | (d, _) :: reqs' =>
      if (p <? dayEnd) && (d <=? dayEnd - p)
      then advance (p + d) dayEnd reqs'
      else advance p dayEnd reqs'
  end.

(** The free slots when the cursor is at [p]. *)
Definition slotsFrom (p dayEnd : Z) : list Slot :=
  if p <? dayEnd then [mkSlot p dayEnd] else [].

(** Each task starts where the one before it ends, the first one at
    [from]. *)
Fixpoint chained (from : Z) (l : list Task) : Prop :=
  match l with
  | [] => True
  | t :: l' => startTime t = from ∧ chained (endTime t) l'
  end.

Definition totalDuration (l : list Task) : Z :=
  foldr (λ t acc, endTime t + acc) 0 l.

Definition requestTotal (reqs : list (Z * TaskDetails)) : Z :=
  foldr (λ r acc, r.1 + acc) 0 reqs.

(** *** The timers of different tasks *)

(** The registry and the timer table agree: every live timer of a task is
    registered under its id, a registered id that is live belongs to that
    task, and the host has handed out every id in use. *)
Definition timersOwned (st : NotifState) : Prop :=
  registryTracks st ∧
  (∀ x timeoutIds k tm,
     scheduledNotifications st !! x = Some timeoutIds → k ∈ timeoutIds →
     timeouts st !! k = Some tm → callbackTaskId (callback tm) = Some x) ∧
  (∀ k tm, timeouts st !! k = Some tm → (k < nextTimeoutId st)%nat) ∧
  (∀ x timeoutIds k,
     scheduledNotifications st !! x = Some timeoutIds → k ∈ timeoutIds →
     (k < nextTimeoutId st)%nat).

(** The timers one call of [scheduleTaskNotifications] sets, in the order
    of the calls of [setTimeout]. *)
Definition armedTimeouts (nowv : Z) (task : Task) : list Timeout :=
  (if nowv <? startTime task
   then [mkTimeout (StartCallback task) (nowv + (startTime task - nowv))]
   else []) ++
  (if nowv <? endTime task
   then [mkTimeout (EndCallback task) (nowv + (endTime task - nowv))]
   else []).

(** [tms] entered in the timer table under the ids [n], [n+1], ... *)
Fixpoint setTimeouts (n : nat) (tms : list Timeout) (tbl : gmap nat Timeout)
    : gmap nat Timeout :=
  match tms with
  | [] => tbl
  | tm :: tms' => setTimeouts (S n) tms' (<[n := tm]> tbl)
  end.

Definition install (taskId : string) (tms : list Timeout) (st : NotifState)
    : NotifState :=
  mkNotif
    (if (0 <? length tms)%nat
     then <[taskId := seq (nextTimeoutId st) (length tms)]> (scheduledNotifications st)
     else scheduledNotifications st)
    (setTimeouts (nextTimeoutId st) tms (timeouts st))
    (nextTimeoutId st + length tms).

(** ** The scenarios of the specification, as inputs *)

Module Scenario.
(** The default categories of the DataProvider. *)
Definition categories : list Category :=
  [ mkCategory "work" "Work" "#ef4444";
    mkCategory "study" "Study" "#3b82f6";
    mkCategory "exercise" "Exercise" "#22c55e";
    mkCategory "gaming" "Gaming" "#8b5cf6";
    mkCategory "rest" "Rest" "#64748b" ].

(** Midnight of some day, and the values the host hands out. *)
Definition today : Z := 1762128000000.
Definition draws : Draw * Draw :=
  (mkDraw "uuid-sleep" (today + 36000000), mkDraw "uuid-work" (today + 36000001)).

Definition hour : Z := 60 * 60 * 1000.
Definition minute : Z := 60 * 1000.

(** Scenario A: one duration task, Study, of 90 minutes. *)
Definition study : Task :=
  mkTask "uuid-study" "Study" (Some "Duration-based task") 0 (90 * 60 * 1000)
    pending medium "study" 0 (today + 35000000).

(** An allocator state with one hour left at the end of the day, and the
    work commitment of 8 hours. *)
Definition lastHour : AllocState :=
  mkAlloc [] [mkSlot (today + 23 * hour) (today + 24 * hour)].
Definition work8 : FixedTask := mkFixed "Work/School Time" 8 "work" high.

(** Scenario C: two allocated tasks, the second from 09:30 to 10:30, and
    an edit that moves the first one to 09:00 - 10:00. *)
Definition at_ (h m : Z) : Z := today + h * hour + m * minute.

Definition reading : Task :=
  mkTask "uuid-reading" "Reading" None (at_ 8 0) (at_ 9 0) pending medium
    "study" 0 (today + 35000000).
Definition gym : Task :=
  mkTask "uuid-gym" "Gym" None (at_ 9 30) (at_ 10 30) pending medium
    "exercise" 1 (today + 35000001).
Definition readingEdited : Task :=
  mkTask "uuid-reading" "Reading" None (at_ 9 0) (at_ 10 0) pending medium
    "study" 0 (today + 35000000).

Definition previewing : SetupState :=
  mkSetup duration [] (Some reading) true 8 8 EmptyString 30 None
    (Some [reading; gym]).

(** Scenario D: a task that starts in 5 minutes and ends in 65. *)
Definition nowD : Z := at_ 12 0.
Definition meeting : Task :=
  mkTask "uuid-meeting" "Meeting" None (nowD + 5 * minute) (nowD + 65 * minute)
    pending high "work" 0 (today + 35000002).

Definition noTimers : NotifState := mkNotif ∅ ∅ 1.

(** The reminders of the meeting, armed at [nowD] in a fresh session. *)
Definition armed : NotifState := scheduleTaskNotifications nowD meeting noTimers.

Definition app : AppState :=
  mkApp [reading; gym] [] [] (saveTasks [reading; gym]) noTimers.

(** The host clock at [h]:[m] of the day. *)
Definition clockAt (h m : Z) : Clock := mkClock (at_ h m) h (at_ h m + 1).
End Scenario.

(** *** A setup in duration mode *)

(** The UUIDs an action draws from [crypto.randomUUID()], and those of a
    list of actions in the order they are drawn. *)
Definition actionUuids (a : SetupAction) : list string :=
  match a with
  | FormAction (ClickAddOrUpdate dr) => [uuid dr]
  | ClickPreview _ draws => [uuid draws.1; uuid draws.2]
  | EditPreviewed _ dr _ => [uuid dr]
  | _ => []
  end.

Definition sessionUuids (actions : list SetupAction) : list string :=
  concat (actionUuids <$> actions).

(** What [crypto.randomUUID()] promises: no UUID is drawn twice and none
    is the empty string. *)
Definition freshUuids (uuids : list string) : Prop :=
  NoDup uuids ∧ EmptyString ∉ uuids.

(** What every setup in duration mode keeps; [later] are the UUIDs that
    are still to be drawn. *)
Definition setupInv (later : list string) (st : SetupState) : Prop :=
  mode st = duration ∧
  durationsPositive (tempTasks st) ∧
  NoDup (id <$> tempTasks st) ∧
  (∀ x, x ∈ id <$> tempTasks st → x ≠ EmptyString ∧ x ∉ later) ∧
  ∀ previewed, previewedTasks st = Some previewed →
    NoDup (id <$> previewed) ∧ (EmptyString ∉ id <$> previewed) ∧
    pairwise disjointTasks previewed.

(** *** The activity chart *)

(** The time the records of category [c] took, and the time of all
    records. *)
Definition recordedTime (history : list CompletedTask) : Z :=
  foldr (λ (r : CompletedTask) acc, (endTime r - startTime r) + acc) 0 history.

Definition timeInCategory (c : string) (history : list CompletedTask) : Z :=
  recordedTime (filter (λ r : CompletedTask, categoryId r = c) history).

(** ** More inputs *)

Module Sample.
(** The schedule of Scenario A. *)
Definition scheduleA : list Task :=
  [ mkTask "uuid-sleep" "Sleeping Time" None (Scenario.at_ 0 0) (Scenario.at_ 8 0)
      pending low "rest" 0 (Scenario.today + 36000000);
    mkTask "uuid-work" "Work/School Time" None (Scenario.at_ 8 0)
      (Scenario.at_ 16 0) pending high "work" 1 (Scenario.today + 36000001);
    mkTask "uuid-study" "Study" (Some "Duration-based task") (Scenario.at_ 16 0)
      (Scenario.at_ 17 30) pending medium "study" 2 (Scenario.today + 35000000) ].

(** A setup in duration mode: no sleep, no work, Study for 90 minutes,
    and the preview. *)
Definition studyDraw : Draw := mkDraw "uuid-study" (Scenario.today + 35000000).

Definition studyForm : list SetupAction :=
  [ FormAction (TypeSleep 0); FormAction (TypeWork 0);
    FormAction (TypeName "Study"); FormAction (TypeMinutes 90);
    FormAction (ClickAddOrUpdate studyDraw) ].

Definition studyPreviewed : list SetupAction :=
  studyForm ++ [ClickPreview Scenario.today Scenario.draws].

(** The TaskModal on the row of Study, with the start set to 09:00 and the
    end to 10:00 of the next day. *)
Definition toNextDay : ModalForm :=
  mkForm "Study" "Duration-based task" (Scenario.at_ 33 0) (Scenario.at_ 34 0)
    medium "study" endTimeMode 1 30.

Definition studyEdited : list SetupAction :=
  studyPreviewed ++ [EditPreviewed 0 (mkDraw "uuid-edit" 0) toNextDay].

Definition studyMoved : Task :=
  mkTask "uuid-study" "Study" (Some "Duration-based task") (Scenario.at_ 33 0)
    (Scenario.at_ 34 0) pending medium "study" 0 (Scenario.today + 35000000).

(** The draws of "Save & Start Day". *)
Definition laterDraws : Draw * Draw :=
  (mkDraw "uuid-sleep-2" (Scenario.today + 36000002),
   mkDraw "uuid-work-2" (Scenario.today + 36000003)).

(** Reading moved to 11:00 - 12:00, where it meets no other task. *)
Definition readingMoved : Task :=
  mkTask "uuid-reading" "Reading" None (Scenario.at_ 11 0) (Scenario.at_ 12 0)
    pending medium "study" 0 (Scenario.today + 35000000).
End Sample.

(** * Proofs *)

(** ** Sorting *)

Section SortFacts.
Context {A : Type} (cmp : A → A → Z).

Lemma insertBy_Permutation x l : insertBy cmp x l ≡ₚ x :: l.
Proof.
  induction l as [|y l IH]; simpl; [done|].
  destruct (cmp x y <=? 0); [done|].
  rewrite IH. apply Permutation_swap.
Qed.

Lemma sortBy_Permutation l : sortBy cmp l ≡ₚ l.
Proof.
  induction l as [|x l IH]; simpl; [done|].
  by rewrite insertBy_Permutation, IH.
Qed.
End SortFacts.

(** ** Lists whose elements are pairwise related *)

Section Pairwise.
Context {A : Type} (R : A → A → Prop).


Lemma pairwise_Permutation l k :
  Symmetric R → l ≡ₚ k → pairwise R l → pairwise R k.
Proof.
  intros Hsym Hperm. induction Hperm as [|x l k Hlk IH|x y l|l k m _ IH1 _ IH2];
    simpl; [done|..].
  - intros [Hx Hl]. split; [by rewrite <- Hlk | by apply IH].
  - intros [Hy [Hx Hl]]. apply Forall_cons in Hy as [Hyx Hy].
    repeat split; [constructor; [by apply Hsym | done] | done | done].
  - intros H. by apply IH2, IH1.
Qed.

Lemma pairwise_lookup_lt l i j a b :
  pairwise R l → (i < j)%nat → l !! i = Some a → l !! j = Some b → R a b.
Proof.
  revert i j. induction l as [|x l IH]; intros i j Hl Hij Hi Hj; [done|].
  destruct Hl as [Hx Hl]. destruct j as [|j]; [lia|]. simpl in Hj.
  destruct i as [|i]; simpl in Hi.
  - simplify_eq. rewrite Forall_forall in Hx.
    apply Hx. by eapply list_elem_of_lookup_2.
  - apply (IH i j); [done | lia | done | done].
Qed.

End Pairwise.

#[global] Instance disjointTasks_sym : Symmetric disjointTasks.
Proof. intros a b. unfold disjointTasks, overlap. tauto. Qed.

(** ** The allocator *)

Lemma allocateLoop_no_fit n i durationMs details st :
  noSlotFits durationMs st →
  allocateLoop n i durationMs details st = (false, st).
Proof.
  intros Hfit. revert i. induction n as [|n IH]; intros i; simpl; [done|].
  destruct (freeSlots st !! i) as [slot|] eqn:Hslot; [|done].
  unfold noSlotFits in Hfit. rewrite Forall_forall in Hfit.
  pose proof (Hfit slot (list_elem_of_lookup_2 _ _ _ Hslot)) as Hlt.
  rewrite Z.geb_leb. destruct (Z.leb_spec durationMs (end_ slot - start slot)); [lia|].
  apply IH.
Qed.

Lemma allocateTime_no_fit durationMs details st :
  noSlotFits durationMs st →
  allocateTime durationMs details st = (false, st).
Proof. apply allocateLoop_no_fit. Qed.

Lemma allocateTime_no_slot durationMs details st :
  freeSlots st = [] → allocateTime durationMs details st = (false, st).
Proof.
  intros Hnil. apply allocateTime_no_fit. unfold noSlotFits. by rewrite Hnil.
Qed.

(** The only slot fits: the task starts where the slot starts. *)
Lemma allocateTime_single_fit durationMs details tasks0 p e :
  durationMs ≤ e - p →
  allocateTime durationMs details (mkAlloc tasks0 [mkSlot p e]) =
    (true, mkAlloc (tasks0 ++ [scheduled details p (p + durationMs)])
             (if p + durationMs <? e then [mkSlot (p + durationMs) e] else [])).
Proof.
  intros Hfit. unfold allocateTime. simpl.
  rewrite Z.geb_leb. destruct (Z.leb_spec durationMs (e - p)); [|lia].
  by destruct (Z.ltb_spec (p + durationMs) e).
Qed.

Lemma allocateTime_single_no_fit durationMs details tasks0 p e :
  e - p < durationMs →
  allocateTime durationMs details (mkAlloc tasks0 [mkSlot p e]) =
    (false, mkAlloc tasks0 [mkSlot p e]).
Proof.
  intros Hfit. apply allocateTime_no_fit. unfold noSlotFits. simpl.
  by repeat constructor.
Qed.






(** The exception of the allocator: reading [categories[0].id] of an empty
    category list. *)
Lemma findCategoryId_is_Some categories name :
  categories ≠ [] → is_Some (findCategoryId categories name).
Proof.
  intros Hne. unfold findCategoryId.
  assert (is_Some (firstCategoryId categories)) as Hfirst
    by (destruct categories; [done | by eexists]).
  destruct (List.find _ categories) as [c|]; [|done].
  by case_bool_decide.
Qed.

Lemma fixedStep_is_Some categories ft dr st :
  categories ≠ [] → is_Some (fixedStep categories ft dr st).
Proof.
  intros Hne. unfold fixedStep.
  destruct (ft_durationHours ft <=? 0); [by eexists|].
  destruct (findCategoryId_is_Some categories (ft_category ft) Hne) as [cid ->].
  by eexists.
Qed.

Lemma forEachFixed_is_Some categories fts st :
  categories ≠ [] → is_Some (forEachFixed categories fts st).
Proof.
  intros Hne. revert st. induction fts as [|[ft dr] fts IH]; intros st; simpl.
  - by eexists.
  - destruct (fixedStep_is_Some categories ft dr st Hne) as [st1 ->]. apply IH.
Qed.

(** The allocator returns a schedule whenever there is a category. *)
Lemma scheduleDurationTasks_is_Some today draws categories sleep work temp :
  categories ≠ [] →
  is_Some (scheduleDurationTasks today draws categories sleep work temp).
Proof.
  intros Hne. unfold scheduleDurationTasks.
  destruct (forEachFixed_is_Some categories
    (zip (fixedTasks sleep work) [draws.1; draws.2])
    (mkAlloc [] [mkSlot today (today + msPerDay)]) Hne) as [st1 ->].
  by eexists.
Qed.


Lemma forEachUser_no_slot dts st :
  freeSlots st = [] → forEachUser dts st = st.
Proof.
  intros Hnil. unfold forEachUser.
  induction dts as [|dt dts IH]; simpl; [done|].
  unfold userStep at 2. by rewrite allocateTime_no_slot.
Qed.

Lemma lookup_output_interval (l : list Task) i a :
  imap (λ index t, withOrder t (Z.of_nat index)) l !! i = Some a →
  ∃ t, l !! i = Some t ∧ startTime a = startTime t ∧ endTime a = endTime t.
Proof.
  rewrite list_lookup_imap. destruct (l !! i) as [t|]; [|done].
  simpl. intros [= <-]. by exists t.
Qed.





(** The guard of [handleAddOrUpdateDurationTask] keeps every duration of
    the list positive, whatever the user does in duration mode. *)
Lemma durationStep_positive blankName categories st a :
  durationsPositive (tempTasks st) →
  durationsPositive (tempTasks (durationStep blankName categories st a)).
Proof.
  unfold durationsPositive. intros Hpos.
  destruct a as [h|h|n|m|i|i|dr]; simpl; try done.
  - by destruct (tempTasks st !! i).
  - destruct (tempTasks st !! i) as [t|]; [|done]. simpl.
    apply Forall_forall. intros t' Ht'. apply list_elem_of_filter in Ht' as [_ Ht'].
    rewrite Forall_forall in Hpos. by apply Hpos.
  - unfold handleAddOrUpdateDurationTask.
    destruct (blankName (durationTaskName st)); simpl; [done|].
    destruct (Z.leb_spec (durationTaskMinutes st) 0) as [Hle|Hgt]; simpl; [done|].
    assert (Forall (λ t, 0 < endTime t)
              (tempTasks st ++
               [mkTask (uuid dr) (durationTaskName st) (Some "Duration-based task")
                  0 (durationTaskMinutes st * 60 * 1000) pending medium
                  (studyCategoryId categories)
                  (Z.of_nat (length (tempTasks st))) (now dr)])) as Hadded.
    { apply Forall_app. split; [done|]. repeat constructor. simpl. lia. }
    destruct (editingDurationTaskId st) as [eid|]; [|done].
    case_bool_decide; [done|].
    apply Forall_fmap. eapply Forall_impl; [exact Hpos|].
    intros t Ht. simpl. case_bool_decide; [simpl; lia | done].
Qed.

Lemma duration_mode_positive blankName categories st actions :
  durationsPositive
    (tempTasks (foldl (durationStep blankName categories)
                  (enterDurationMode st) actions)).
Proof.
  assert (durationsPositive (tempTasks (enterDurationMode st))) as Hinit
    by constructor.
  revert Hinit. generalize (enterDurationMode st). clear st.
  induction actions as [|a actions IH]; intros st Hst; simpl; [done|].
  by apply IH, durationStep_positive.
Qed.

(** Saving an edit of a previewed task leaves the duration list alone. *)
Lemma handleSaveTask_previewed_tempTasks task st previewed :
  previewedTasks st = Some previewed → hasId (id task) previewed = true →
  tempTasks (handleSaveTask task st).1 = tempTasks st.
Proof.
  intros Hprev Hid. unfold handleSaveTask. rewrite Hprev, Hid.
  by destruct (existsb (overlapsWith task) previewed).
Qed.

(** Hence the hypothesis of C1 and C2 holds whenever the allocator runs. *)
Lemma duration_mode_nonnegative blankName categories st actions :
  Forall (λ t, 0 ≤ endTime t)
    (tempTasks (foldl (durationStep blankName categories)
                  (enterDurationMode st) actions)).
Proof.
  eapply Forall_impl; [apply duration_mode_positive|]. simpl. intros t. lia.
Qed.

(** ** Infeasible items *)

Lemma fixedStep_skip categories ft dr st :
  ft_durationHours ft ≤ 0 → fixedStep categories ft dr st = Some st.
Proof.
  intros Hle. unfold fixedStep.
  by destruct (Z.leb_spec (ft_durationHours ft) 0); [|lia].
Qed.

Lemma fixedStep_no_fit categories ft dr st :
  categories ≠ [] →
  noSlotFits (ft_durationHours ft * 60 * 60 * 1000) st →
  fixedStep categories ft dr st = Some st.
Proof.
  intros Hne Hfit. unfold fixedStep.
  destruct (ft_durationHours ft <=? 0); [done|].
  destruct (findCategoryId_is_Some categories (ft_category ft) Hne) as [cid ->].
  simpl. by rewrite allocateTime_no_fit.
Qed.

Lemma userStep_no_fit st dt :
  noSlotFits (endTime dt) st → userStep st dt = st.
Proof. intros Hfit. unfold userStep. by rewrite allocateTime_no_fit. Qed.

(** Scenario B: no sleep and 24 hours of work. *)
Lemma scheduleDurationTasks_full_day today draws categories sleepDuration
    tempTasks :
  categories ≠ [] → sleepDuration ≤ 0 →
  ∃ cid,
    findCategoryId categories "work" = Some cid ∧
    scheduleDurationTasks today draws categories sleepDuration 24 tempTasks =
      Some [mkTask (uuid draws.2) "Work/School Time" None today
              (today + 24 * 60 * 60 * 1000) pending high cid 0 (now draws.2)].
Proof.
  intros Hne Hsleep.
  destruct (findCategoryId_is_Some categories "work" Hne) as [cid Hcid].
  exists cid. split; [done|].
  unfold scheduleDurationTasks, fixedTasks. simpl.
  rewrite fixedStep_skip by done. simpl.
  unfold fixedStep. simpl. rewrite Hcid. simpl.
  rewrite allocateTime_single_fit by (unfold msPerDay; lia). simpl.
  unfold msPerDay.
  destruct (Z.ltb_spec (today + 24 * 60 * 60 * 1000) (today + 24 * 60 * 60 * 1000));
    [lia|].
  by rewrite forEachUser_no_slot.
Qed.

(** Silent drop, when a category exists.  A fixed commitment whose
    duration is not positive, or that no free slot can hold, and a
    duration task that no free slot can hold, leave the allocator state as
    it is and raise no error: [forEach] goes on with the remaining items
    from the same state.  With no sleep and 24 hours of work the output is
    the work commitment alone, whatever the duration tasks are. *)
Lemma infeasible_items_are_dropped categories st ft dr fts dt dts
    today draws sleepDuration tempTasks :
  categories ≠ [] →
  ft_durationHours ft ≤ 0 ∨ noSlotFits (ft_durationHours ft * 60 * 60 * 1000) st →
  noSlotFits (endTime dt) st →
  sleepDuration ≤ 0 →
  fixedStep categories ft dr st = Some st ∧
  forEachFixed categories ((ft, dr) :: fts) st = forEachFixed categories fts st ∧
  allocateTime (endTime dt) (detailsOf dt) st = (false, st) ∧
  forEachUser (dt :: dts) st = forEachUser dts st ∧
  ∃ cid,
    findCategoryId categories "work" = Some cid ∧
    scheduleDurationTasks today draws categories sleepDuration 24 tempTasks =
      Some [mkTask (uuid draws.2) "Work/School Time" None today
              (today + 24 * 60 * 60 * 1000) pending high cid 0 (now draws.2)].
Proof.
  intros Hne Hft Hdt Hsleep.
  assert (fixedStep categories ft dr st = Some st) as Hstep.
  { destruct Hft; [by apply fixedStep_skip | by apply fixedStep_no_fit]. }
  split; [done|]. split; [simpl; by rewrite Hstep|].
  split; [by apply allocateTime_no_fit|].
  split; [unfold forEachUser; simpl; by rewrite userStep_no_fit|].
  by apply scheduleDurationTasks_full_day.
Qed.

Lemma infeasible_items_are_dropped_witness :
  Scenario.categories ≠ [] ∧
  noSlotFits (ft_durationHours Scenario.work8 * 60 * 60 * 1000) Scenario.lastHour ∧
  noSlotFits (endTime Scenario.study) Scenario.lastHour ∧
  fixedStep Scenario.categories Scenario.work8 Scenario.draws.2 Scenario.lastHour
    = Some Scenario.lastHour ∧
  forEachUser [Scenario.study] Scenario.lastHour = Scenario.lastHour ∧
  scheduleDurationTasks Scenario.today Scenario.draws Scenario.categories 0 24
    [Scenario.study] =
    Some [mkTask "uuid-work" "Work/School Time" None Scenario.today
            (Scenario.today + 24 * 60 * 60 * 1000) pending high "work" 0
            (Scenario.today + 36000001)].
Proof.
  assert (Scenario.categories ≠ []) as Hne by done.
  assert (noSlotFits (ft_durationHours Scenario.work8 * 60 * 60 * 1000)
            Scenario.lastHour) as Hft
    by (repeat constructor; vm_compute; reflexivity).
  assert (noSlotFits (endTime Scenario.study) Scenario.lastHour) as Hdt
    by (repeat constructor; vm_compute; reflexivity).
  destruct (infeasible_items_are_dropped Scenario.categories Scenario.lastHour
              Scenario.work8 Scenario.draws.2 [] Scenario.study []
              Scenario.today Scenario.draws 0 [Scenario.study]
              Hne (or_intror Hft) Hdt (Z.le_refl 0))
    as (Hstep & _ & _ & Huser & cid & Hcid & Hout).
  split; [exact Hne|]. split; [exact Hft|]. split; [exact Hdt|].
  split; [exact Hstep|]. split; [exact Huser|].
  vm_compute in Hcid. injection Hcid as <-. exact Hout.
Defined.

Lemma fixedStep_no_category ft dr st :
  0 < ft_durationHours ft → fixedStep [] ft dr st = None.
Proof.
  intros Hpos. unfold fixedStep.
  by destruct (Z.leb_spec (ft_durationHours ft) 0); [lia|].
Qed.

(** C9 (silent drop), where the code departs from it.  When no category
    is left, a fixed commitment with a positive duration is not dropped
    and nothing else is allocated: the argument of [allocateTime] reads
    [categories[0].id] before any slot is looked at, which throws, and
    [scheduleDurationTasks] returns no schedule, whether a slot could
    hold the commitment or not and whatever the duration tasks are.  The
    input of the witness has a sleep of 25 hours, which no slot of the
    day holds. *)
Theorem no_category_aborts_allocation today draws sleepDuration workDuration
    tempTasks :
  0 < sleepDuration ∨ 0 < workDuration →
  scheduleDurationTasks today draws [] sleepDuration workDuration tempTasks
    = None.
Proof.
  intros Hpos. unfold scheduleDurationTasks, fixedTasks. simpl.
  destruct (Z.leb_spec sleepDuration 0) as [Hsleep|Hsleep].
  - rewrite fixedStep_skip by done. simpl.
    by rewrite fixedStep_no_category by (simpl; lia).
  - by rewrite fixedStep_no_category.
Qed.

Lemma no_category_aborts_allocation_witness :
  scheduleDurationTasks Scenario.today Scenario.draws [] 25 8 [Scenario.study]
    = None.
Proof.
  apply (no_category_aborts_allocation Scenario.today Scenario.draws 25 8
           [Scenario.study]).
  left. lia.
Defined.

(** ** The current task *)

(** What [findCurrentTask] tests: the interval is closed on both ends. *)
Lemma isCurrentAt_true nowv t :
  isCurrentAt nowv t = true ↔
  startTime t ≤ nowv ≤ endTime t ∧ status t ≠ completed.
Proof.
  unfold isCurrentAt. rewrite !andb_true_iff, negb_true_iff, Z.geb_leb.
  rewrite !Z.leb_le, bool_decide_eq_false. tauto.
Qed.

(** Inside the interval the code and the specification agree. *)
Lemma isCurrentAt_before_end nowv t :
  nowv ≠ endTime t → (isCurrentAt nowv t = true ↔ currentSpec nowv t).
Proof.
  intros Hne. rewrite isCurrentAt_true. unfold currentSpec.
  split; intros [H1 H2]; (split; [lia | done]).
Qed.

(** At the instant a task ends the code still takes it for current. *)
Lemma isCurrentAt_end t :
  startTime t ≤ endTime t → status t ≠ completed →
  isCurrentAt (endTime t) t = true ∧ ¬ currentSpec (endTime t) t.
Proof.
  intros Hle Hst. split.
  - apply isCurrentAt_true. split; [lia | done].
  - unfold currentSpec. lia.
Qed.

(** C3, at the instant a task ends.  [findCurrentTask] running at
    [now = endTime] of a pending task makes it the current task, although
    [now] is outside the half-open interval [[start, end)]: the claim
    that a task whose end equals now is not current fails on the code. *)
Theorem findCurrentTask_at_end_is_current :
  isCurrentAt (endTime Scenario.reading) Scenario.reading = true ∧
  findCurrentTask (endTime Scenario.reading) [Scenario.reading] =
    Some "uuid-reading" ∧
  isCurrent (findCurrentTask (endTime Scenario.reading) [Scenario.reading])
    Scenario.reading = true ∧
  ¬ currentSpec (endTime Scenario.reading) Scenario.reading.
Proof.
  split; [reflexivity|]. split; [reflexivity|]. split; [reflexivity|].
  unfold currentSpec. simpl. lia.
Qed.

(** Two tasks that abut, as the allocator lays them out: at the common
    instant the one that has ended is the current one. *)
Example findCurrentTask_boundary :
  let a := mkTask "a" "A" None 0 1000 pending medium "work" 0 0 in
  let b := mkTask "b" "B" None 1000 2000 pending medium "work" 1 0 in
  findCurrentTask 1000 [a; b] = Some "a".
Proof. reflexivity. Qed.

(** ** The overlap validator *)

Lemma overlapsWith_of_overlap task o :
  id o ≠ id task → overlap task o → overlapsWith task o = true.
Proof.
  intros Hid [H1 H2]. unfold overlapsWith.
  rewrite bool_decide_eq_false_2 by done. simpl.
  rewrite !Z.geb_leb, Z.gtb_ltb.
  destruct (Z.leb_spec (startTime o) (startTime task)); simpl.
  { destruct (Z.ltb_spec (startTime task) (endTime o)); [done | lia]. }
  destruct (Z.ltb_spec (startTime o) (endTime task)); simpl; [|lia].
  destruct (Z.leb_spec (endTime task) (endTime o)); simpl; [done|].
  destruct (Z.leb_spec (startTime task) (startTime o)); simpl; [|lia].
  destruct (Z.leb_spec (endTime o) (endTime task)); [done | lia].
Qed.

Lemma overlapsWith_half_open task o :
  startTime task < endTime task → startTime o < endTime o →
  overlapsWith task o =
    negb (bool_decide (id o = id task)) &&
    intervalsOverlap (intervalOf task) (intervalOf o).
Proof.
  intros Htask Ho. unfold overlapsWith, intervalsOverlap. simpl.
  f_equal. rewrite !Z.geb_leb, Z.gtb_ltb.
  destruct (Z.leb_spec (startTime o) (startTime task));
    destruct (Z.ltb_spec (startTime task) (endTime o));
    destruct (Z.ltb_spec (startTime o) (endTime task));
    destruct (Z.leb_spec (endTime task) (endTime o));
    destruct (Z.leb_spec (startTime task) (startTime o));
    destruct (Z.leb_spec (endTime o) (endTime task)); simpl; try done; lia.
Qed.

(** C4.  For a candidate and a list of previewed tasks whose intervals all
    satisfy start < end, the three-case test of [handleSaveTask] is
    [validate] of the specification on the other tasks: it is true iff
    some task with another id has
    candidate.start < o.end AND o.start < candidate.end. *)
Theorem overlap_test_is_half_open task previewed :
  startTime task < endTime task →
  Forall (λ t, startTime t < endTime t) previewed →
  existsb (overlapsWith task) previewed =
    validate (intervalOf task) (othersOf task previewed) ∧
  (existsb (overlapsWith task) previewed = true ↔
   ∃ o, o ∈ previewed ∧ id o ≠ id task ∧
        startTime task < endTime o ∧ startTime o < endTime task).
Proof.
  intros Htask Hall.
  assert (existsb (overlapsWith task) previewed =
          validate (intervalOf task) (othersOf task previewed)) as Heq.
  { unfold validate, othersOf.
    induction Hall as [|o l Ho Hl IH]; [done|].
    rewrite filter_cons. simpl. rewrite IH, overlapsWith_half_open by done.
    case_decide as Hid.
    - rewrite bool_decide_eq_false_2 by done. done.
    - rewrite bool_decide_eq_true_2 by done. done. }
  split; [done|].
  rewrite Heq. unfold validate, othersOf. rewrite existsb_exists. split.
  - intros (iv & Hiv & Hov). apply list_elem_of_In in Hiv.
    apply list_elem_of_fmap in Hiv as (o & -> & Ho).
    apply list_elem_of_filter in Ho as [Hid Ho].
    exists o. unfold intervalsOverlap in Hov. simpl in Hov.
    apply andb_true_iff in Hov as [H1 H2].
    apply Z.ltb_lt in H1, H2. done.
  - intros (o & Ho & Hid & H1 & H2). exists (intervalOf o). split.
    + apply list_elem_of_In, list_elem_of_fmap. exists o. split; [done|].
      by apply list_elem_of_filter.
    + unfold intervalsOverlap. simpl.
      apply andb_true_iff. split; by apply Z.ltb_lt.
Qed.

Lemma overlap_test_is_half_open_witness :
  startTime Scenario.readingEdited < endTime Scenario.readingEdited ∧
  Forall (λ t, startTime t < endTime t) [Scenario.reading; Scenario.gym] ∧
  existsb (overlapsWith Scenario.readingEdited) [Scenario.reading; Scenario.gym] =
    validate (intervalOf Scenario.readingEdited)
      (othersOf Scenario.readingEdited [Scenario.reading; Scenario.gym]).
Proof.
  assert (startTime Scenario.readingEdited < endTime Scenario.readingEdited)
    as Htask by (vm_compute; reflexivity).
  assert (Forall (λ t, startTime t < endTime t) [Scenario.reading; Scenario.gym])
    as Hall by (repeat constructor; vm_compute; reflexivity).
  split; [exact Htask|]. split; [exact Hall|].
  exact (proj1 (overlap_test_is_half_open Scenario.readingEdited
                  [Scenario.reading; Scenario.gym] Htask Hall)).
Defined.

(** Shared end points are no overlap: an edit that makes a task end where
    the next one starts is accepted. *)
Example overlap_test_boundary :
  let edited :=
    mkTask "uuid-reading" "Reading" None (Scenario.at_ 8 30) (Scenario.at_ 9 30)
      pending medium "study" 0 0 in
  existsb (overlapsWith edited) [Scenario.reading; Scenario.gym] = false.
Proof. reflexivity. Qed.

(** ** Saving an edit of a previewed task *)

Lemma hasId_true taskId l :
  hasId taskId l = true ↔ ∃ t, t ∈ l ∧ id t = taskId.
Proof.
  unfold hasId. rewrite existsb_exists. split.
  - intros (t & Ht & Hid). exists t. split; [by apply list_elem_of_In|].
    by apply bool_decide_eq_true in Hid.
  - intros (t & Ht & Hid). exists t. split; [by apply list_elem_of_In|].
    by apply bool_decide_eq_true.
Qed.

(** C5.  When the task being saved is a task of the preview and it
    overlaps another task of the preview, [handleSaveTask] alerts and
    leaves the whole state of the modal, the previewed list included, as
    it was. *)
Theorem handleSaveTask_rejects_overlap task st previewed :
  previewedTasks st = Some previewed →
  (∃ t, t ∈ previewed ∧ id t = id task) →
  (∃ o, o ∈ previewed ∧ id o ≠ id task ∧
        startTime task < endTime o ∧ startTime o < endTime task) →
  handleSaveTask task st = (st, Some overlapAlert) ∧
  previewedTasks (handleSaveTask task st).1 = Some previewed.
Proof.
  intros Hprev Hin (o & Ho & Hid & Hov).
  assert (handleSaveTask task st = (st, Some overlapAlert)) as Heq.
  { unfold handleSaveTask. rewrite Hprev.
    rewrite (proj2 (hasId_true (id task) previewed)) by done.
    assert (existsb (overlapsWith task) previewed = true) as ->; [|done].
    apply existsb_exists. exists o. split; [by apply list_elem_of_In|].
    by apply overlapsWith_of_overlap. }
  split; [done|]. by rewrite Heq.
Qed.

Lemma handleSaveTask_rejects_overlap_witness :
  handleSaveTask Scenario.readingEdited Scenario.previewing =
    (Scenario.previewing, Some overlapAlert) ∧
  previewedTasks (handleSaveTask Scenario.readingEdited Scenario.previewing).1 =
    Some [Scenario.reading; Scenario.gym].
Proof.
  apply (handleSaveTask_rejects_overlap Scenario.readingEdited
           Scenario.previewing [Scenario.reading; Scenario.gym]).
  - reflexivity.
  - exists Scenario.reading. split; [apply list_elem_of_here | reflexivity].
  - exists Scenario.gym. split; [apply list_elem_of_further, list_elem_of_here|].
    split; [discriminate|]. split; vm_compute; reflexivity.
Defined.

(** An edit that overlaps nothing is applied and the preview is sorted
    again. *)
Example handleSaveTask_accepts :
  let edited :=
    mkTask "uuid-reading" "Reading" None (Scenario.at_ 11 0) (Scenario.at_ 12 0)
      pending medium "study" 0 (Scenario.today + 35000000) in
  handleSaveTask edited Scenario.previewing =
    (mkSetup duration [] None false 8 8 EmptyString 30 None
       (Some [Scenario.gym; edited]), None).
Proof. reflexivity. Qed.

(** ** The reminder scheduler *)

Lemma cleared_lookup_Some timeoutIds (tbl : gmap nat Timeout) k tm :
  foldl clearTimeout tbl timeoutIds !! k = Some tm →
  tbl !! k = Some tm ∧ k ∉ timeoutIds.
Proof.
  revert tbl. induction timeoutIds as [|a l IH]; intros tbl; simpl.
  - intros H. split; [done | apply not_elem_of_nil].
  - intros H. apply IH in H as [H Hl]. unfold clearTimeout in H.
    apply lookup_delete_Some in H as [Hne H].
    split; [done|]. apply not_elem_of_cons. done.
Qed.

Lemma liveTimers_empty x st :
  liveTimers x st = ∅ ↔
  ∀ k tm, timeouts st !! k = Some tm → callbackTaskId (callback tm) ≠ Some x.
Proof. unfold liveTimers. by rewrite map_empty_filter. Qed.

(** [cancelTaskNotifications] leaves no timer of the task and no entry of
    the registry for it. *)
Lemma cancelTaskNotifications_spec x st :
  registryTracks st →
  scheduledNotifications (cancelTaskNotifications x st) !! x = None ∧
  liveTimers x (cancelTaskNotifications x st) = ∅ ∧
  registryTracks (cancelTaskNotifications x st).
Proof.
  intros Htr. unfold cancelTaskNotifications.
  destruct (scheduledNotifications st !! x) as [timeoutIds|] eqn:Hreg; simpl.
  - split; [apply lookup_delete_eq|]. split.
    + apply liveTimers_empty. simpl. intros k tm Hk Hx.
      apply cleared_lookup_Some in Hk as [Hk Hnotin].
      destruct (Htr k tm x Hk Hx) as (l & Hl & Hin). naive_solver.
    + intros k tm y Hk Hy. simpl in *.
      apply cleared_lookup_Some in Hk as [Hk Hnotin].
      destruct (Htr k tm y Hk Hy) as (l & Hl & Hin).
      destruct (decide (y = x)) as [->|Hne]; [naive_solver|].
      exists l. by rewrite lookup_delete_ne.
  - split; [done|]. split; [|done].
    apply liveTimers_empty. intros k tm Hk Hx.
    destruct (Htr k tm x Hk Hx) as (l & Hl & Hin). naive_solver.
Qed.

(** What one call of [scheduleTaskNotifications] leaves behind for the
    task: the timers it has just armed and nothing else, all of them
    listed in the registry. *)
Lemma scheduleTaskNotifications_spec nowv task st :
  registryTracks st →
  registryTracks (scheduleTaskNotifications nowv task st) ∧
  size (liveTimers (id task) (scheduleTaskNotifications nowv task st)) =
    armedCount nowv task ∧
  (∀ k, is_Some (liveTimers (id task) (scheduleTaskNotifications nowv task st) !! k) ↔
        ∃ timeoutIds,
          scheduledNotifications (scheduleTaskNotifications nowv task st) !! id task
            = Some timeoutIds ∧ k ∈ timeoutIds) ∧
  (∀ k tm,
     liveTimers (id task) (scheduleTaskNotifications nowv task st) !! k = Some tm →
     (callback tm = StartCallback task ∧ due tm = startTime task ∧
      nowv < startTime task) ∨
     (callback tm = EndCallback task ∧ due tm = endTime task ∧
      nowv < endTime task)).
Proof.
  intros Htr.
  destruct (cancelTaskNotifications_spec (id task) st Htr) as (Hreg0 & Hlive0 & Htr0).
  unfold scheduleTaskNotifications, armedCount.
  destruct (cancelTaskNotifications (id task) st) as [reg tbl n].
  unfold liveTimers in *. simpl in *.
  case_bool_decide as Hdone.
  { simpl. rewrite Hlive0. split; [done|]. split; [done|]. split.
    - intros k. rewrite lookup_empty, Hreg0. split; [by intros [? ?]|].
      by intros (l & ? & _).
    - intros k tm. by rewrite lookup_empty. }
  assert (∀ k tm y, tbl !! k = Some tm → callbackTaskId (callback tm) = Some y →
                    y ≠ id task) as Hother.
  { intros k tm y Hk Hy ->. destruct (Htr0 k tm _ Hk Hy) as (l & Hl & _).
    simpl in Hl. congruence. }
  rewrite !Z.gtb_ltb.
  destruct (Z.ltb_spec nowv (startTime task)) as [Hs|Hs];
    destruct (Z.ltb_spec nowv (endTime task)) as [He|He]; simpl.
  - rewrite !map_filter_insert_True by done. rewrite Hlive0.
    split; [|split; [|split]].
    + intros k tm y Hk Hy. simpl in *.
      destruct (decide (y = id task)) as [->|Hne].
      * exists [n; S n]. rewrite lookup_insert_eq. split; [done|].
        apply lookup_insert_Some in Hk as [[<- _]|[_ Hk]]; [set_solver|].
        apply lookup_insert_Some in Hk as [[<- _]|[_ Hk]]; [set_solver|].
        by destruct (Hother k tm _ Hk Hy).
      * apply lookup_insert_Some in Hk as [[_ <-]|[_ Hk]]; [naive_solver|].
        apply lookup_insert_Some in Hk as [[_ <-]|[_ Hk]]; [naive_solver|].
        destruct (Htr0 k tm y Hk Hy) as (l & Hl & Hin). exists l.
        by rewrite lookup_insert_ne.
    + rewrite map_size_insert_None by (rewrite lookup_insert_ne by lia; done).
      by rewrite map_size_insert_None, map_size_empty by done.
    + intros k. rewrite lookup_insert_eq. split.
      * intros [tm Hk]. exists [n; S n]. split; [done|].
        apply lookup_insert_Some in Hk as [[<- _]|[_ Hk]]; [set_solver|].
        apply lookup_insert_Some in Hk as [[<- _]|[_ Hk]]; [set_solver|done].
      * intros (l & [= <-] & Hin).
        apply elem_of_cons in Hin as [->|Hin];
          [|apply elem_of_cons in Hin as [->|Hin]; [|by apply elem_of_nil in Hin]].
        -- rewrite lookup_insert_ne by lia. rewrite lookup_insert_eq. by eexists.
        -- rewrite lookup_insert_eq. by eexists.
    + intros k tm Hk.
      apply lookup_insert_Some in Hk as [[_ <-]|[_ Hk]]; [right; simpl; split; [done|lia]|].
      apply lookup_insert_Some in Hk as [[_ <-]|[_ Hk]]; [left; simpl; split; [done|lia]|done].
  - rewrite !map_filter_insert_True by done. rewrite Hlive0.
    split; [|split; [|split]].
    + intros k tm y Hk Hy. simpl in *.
      destruct (decide (y = id task)) as [->|Hne].
      * exists [n]. rewrite lookup_insert_eq. split; [done|].
        apply lookup_insert_Some in Hk as [[<- _]|[_ Hk]]; [set_solver|].
        by destruct (Hother k tm _ Hk Hy).
      * apply lookup_insert_Some in Hk as [[_ <-]|[_ Hk]]; [naive_solver|].
        destruct (Htr0 k tm y Hk Hy) as (l & Hl & Hin). exists l.
        by rewrite lookup_insert_ne.
    + by rewrite map_size_insert_None, map_size_empty by done.
    + intros k. rewrite lookup_insert_eq. split.
      * intros [tm Hk]. exists [n]. split; [done|].
        apply lookup_insert_Some in Hk as [[<- _]|[_ Hk]]; [set_solver|done].
      * intros (l & [= <-] & Hin). apply list_elem_of_singleton in Hin as ->.
        rewrite lookup_insert_eq. by eexists.
    + intros k tm Hk.
      apply lookup_insert_Some in Hk as [[_ <-]|[_ Hk]]; [left; simpl; split; [done|lia]|done].
  - rewrite !map_filter_insert_True by done. rewrite Hlive0.
    split; [|split; [|split]].
    + intros k tm y Hk Hy. simpl in *.
      destruct (decide (y = id task)) as [->|Hne].
      * exists [n]. rewrite lookup_insert_eq. split; [done|].
        apply lookup_insert_Some in Hk as [[<- _]|[_ Hk]]; [set_solver|].
        by destruct (Hother k tm _ Hk Hy).
      * apply lookup_insert_Some in Hk as [[_ <-]|[_ Hk]]; [naive_solver|].
        destruct (Htr0 k tm y Hk Hy) as (l & Hl & Hin). exists l.
        by rewrite lookup_insert_ne.
    + by rewrite map_size_insert_None, map_size_empty by done.
    + intros k. rewrite lookup_insert_eq. split.
      * intros [tm Hk]. exists [n]. split; [done|].
        apply lookup_insert_Some in Hk as [[<- _]|[_ Hk]]; [set_solver|done].
      * intros (l & [= <-] & Hin). apply list_elem_of_singleton in Hin as ->.
        rewrite lookup_insert_eq. by eexists.
    + intros k tm Hk.
      apply lookup_insert_Some in Hk as [[_ <-]|[_ Hk]]; [right; simpl; split; [done|lia]|done].
  - rewrite Hlive0. split; [done|]. split; [done|]. split.
    + intros k. rewrite lookup_empty, Hreg0. split; [by intros [? ?]|].
      by intros (l & ? & _).
    + intros k tm. by rewrite lookup_empty.
Qed.

Lemma registryTracks_noTimers n : registryTracks (mkNotif ∅ ∅ n).
Proof. intros k tm x Hk. simpl in Hk. by rewrite lookup_empty in Hk. Qed.

Lemma armedCount_le_2 nowv task : (armedCount nowv task ≤ 2)%nat.
Proof.
  unfold armedCount. case_bool_decide; [lia|].
  destruct (nowv <? startTime task), (nowv <? endTime task); simpl; lia.
Qed.

(** C6 (idempotent re-arm).  After two calls of
    [scheduleTaskNotifications] for a task in succession, the live timers
    of the task id are the ones the second call computed: one per
    positive delay, two when both delays are positive, never more than
    two, and the registry lists exactly these. *)
Theorem arm_twice_keeps_latest_timers now1 now2 task st :
  registryTracks st →
  let st2 :=
    scheduleTaskNotifications now2 task (scheduleTaskNotifications now1 task st) in
  size (liveTimers (id task) st2) = armedCount now2 task ∧
  (size (liveTimers (id task) st2) ≤ 2)%nat ∧
  (status task ≠ completed → now2 < startTime task → now2 < endTime task →
   size (liveTimers (id task) st2) = 2%nat) ∧
  (∀ k, is_Some (liveTimers (id task) st2 !! k) ↔
        ∃ timeoutIds,
          scheduledNotifications st2 !! id task = Some timeoutIds ∧
          k ∈ timeoutIds) ∧
  (∀ k tm,
     liveTimers (id task) st2 !! k = Some tm →
     (callback tm = StartCallback task ∧ due tm = startTime task ∧
      now2 < startTime task) ∨
     (callback tm = EndCallback task ∧ due tm = endTime task ∧
      now2 < endTime task)).
Proof.
  intros Htr st2.
  destruct (scheduleTaskNotifications_spec now1 task st Htr) as (Htr1 & _).
  destruct (scheduleTaskNotifications_spec now2 task _ Htr1)
    as (_ & Hsize & Hreg & Hlive).
  fold st2 in Hsize, Hreg, Hlive.
  split; [done|]. split; [rewrite Hsize; apply armedCount_le_2|].
  split; [|done].
  intros Hdone Hs He. rewrite Hsize. unfold armedCount.
  rewrite bool_decide_eq_false_2 by done.
  by destruct (Z.ltb_spec now2 (startTime task)), (Z.ltb_spec now2 (endTime task));
    try lia.
Qed.

Lemma arm_twice_keeps_latest_timers_witness :
  registryTracks Scenario.noTimers ∧
  size (liveTimers (id Scenario.meeting)
          (scheduleTaskNotifications (Scenario.nowD + 1000) Scenario.meeting
             (scheduleTaskNotifications Scenario.nowD Scenario.meeting
                Scenario.noTimers))) = 2%nat.
Proof.
  assert (registryTracks Scenario.noTimers) as Htr.
  { intros k tm x Hk. simpl in Hk. rewrite lookup_empty in Hk. discriminate. }
  split; [exact Htr|].
  exact (proj1 (arm_twice_keeps_latest_timers Scenario.nowD
                  (Scenario.nowD + 1000) Scenario.meeting Scenario.noTimers Htr)).
Defined.

Lemma cleared_lookup_elem timeoutIds (tbl : gmap nat Timeout) k :
  k ∈ timeoutIds → foldl clearTimeout tbl timeoutIds !! k = None.
Proof.
  intros Hin. destruct (foldl clearTimeout tbl timeoutIds !! k) as [tm|] eqn:Hk;
    [|done].
  by apply cleared_lookup_Some in Hk as [_ Hnotin].
Qed.

(** C10.  For a completed task [scheduleTaskNotifications] is
    [cancelTaskNotifications]: every timer registered for the id is
    cleared, no timer is armed, and no live timer and no registry entry
    is left for the id. *)
Theorem completed_task_is_disarmed nowv task st :
  registryTracks st → status task = completed →
  let st' := scheduleTaskNotifications nowv task st in
  st' = cancelTaskNotifications (id task) st ∧
  (∀ timeoutIds k,
     scheduledNotifications st !! id task = Some timeoutIds → k ∈ timeoutIds →
     timeouts st' !! k = None) ∧
  (∀ k tm, timeouts st' !! k = Some tm → timeouts st !! k = Some tm) ∧
  nextTimeoutId st' = nextTimeoutId st ∧
  scheduledNotifications st' !! id task = None ∧
  liveTimers (id task) st' = ∅ ∧
  size (liveTimers (id task) st') = 0%nat.
Proof.
  intros Htr Hdone st'.
  assert (st' = cancelTaskNotifications (id task) st) as ->.
  { unfold st', scheduleTaskNotifications. by rewrite bool_decide_eq_true_2. }
  destruct (cancelTaskNotifications_spec (id task) st Htr) as (Hreg & Hlive & _).
  split; [done|]. split; [|split; [|split]].
  - intros timeoutIds k Hids Hk. unfold cancelTaskNotifications. rewrite Hids.
    simpl. by apply cleared_lookup_elem.
  - intros k tm. unfold cancelTaskNotifications.
    destruct (scheduledNotifications st !! id task); [|done]. simpl.
    intros Hk. by apply cleared_lookup_Some in Hk as [Hk _].
  - unfold cancelTaskNotifications.
    by destruct (scheduledNotifications st !! id task).
  - split; [done|]. split; [done|]. by rewrite Hlive, map_size_empty.
Qed.

Lemma completed_task_is_disarmed_witness :
  registryTracks Scenario.armed ∧
  size (liveTimers "uuid-meeting" Scenario.armed) = 2%nat ∧
  size (liveTimers "uuid-meeting"
          (scheduleTaskNotifications (Scenario.nowD + 1000)
             (withStatus Scenario.meeting completed) Scenario.armed)) = 0%nat.
Proof.
  assert (registryTracks Scenario.noTimers) as Htr0.
  { intros k tm x Hk. simpl in Hk. rewrite lookup_empty in Hk. discriminate. }
  destruct (scheduleTaskNotifications_spec Scenario.nowD Scenario.meeting
              Scenario.noTimers Htr0) as (Htr & Hsize & _).
  split; [exact Htr|]. split; [exact Hsize|].
  exact (proj2 (proj2 (proj2 (proj2 (proj2 (proj2
    (completed_task_is_disarmed (Scenario.nowD + 1000)
       (withStatus Scenario.meeting completed) Scenario.armed Htr eq_refl))))))).
Defined.

(** C8.  When an end timer fires, its callback looks the task up in the
    [tasks] store by id and shows "Task Ended" if the stored task is
    completed at that time and "Task Overdue" otherwise; the status of the
    task object the timer was armed with plays no part.  The timer then
    is gone. *)
Theorem end_timer_reads_persisted_status db k st task d :
  timeouts st !! k = Some (mkTimeout (EndCallback task) d) →
  (fireTimeout db k st).1 =
    [if bool_decide (status <$> db !! id task = Some completed)
     then taskEnded (title task) (id task)
     else taskOverdue (title task) (id task)] ∧
  timeouts (fireTimeout db k st).2 !! k = None.
Proof.
  intros Hk. unfold fireTimeout. rewrite Hk. simpl.
  split; [|apply lookup_delete_eq].
  by repeat case_bool_decide.
Qed.

Lemma end_timer_reads_persisted_status_witness :
  timeouts Scenario.armed !! 2%nat =
    Some (mkTimeout (EndCallback Scenario.meeting) (endTime Scenario.meeting)) ∧
  status Scenario.meeting = pending ∧
  (fireTimeout (saveTasks [withStatus Scenario.meeting completed]) 2
     Scenario.armed).1 = [taskEnded "Meeting" "uuid-meeting"] ∧
  (fireTimeout (saveTasks [Scenario.meeting]) 2 Scenario.armed).1 =
    [taskOverdue "Meeting" "uuid-meeting"].
Proof.
  assert (timeouts Scenario.armed !! 2%nat =
          Some (mkTimeout (EndCallback Scenario.meeting) (endTime Scenario.meeting)))
    as Hk by (vm_compute; reflexivity).
  split; [exact Hk|]. split; [reflexivity|]. split.
  - exact (proj1 (end_timer_reads_persisted_status
                    (saveTasks [withStatus Scenario.meeting completed]) 2
                    Scenario.armed Scenario.meeting _ Hk)).
  - exact (proj1 (end_timer_reads_persisted_status
                    (saveTasks [Scenario.meeting]) 2 Scenario.armed
                    Scenario.meeting _ Hk)).
Defined.

(** ** Toggling a task and the history *)

Lemma handleStatusChange_pending task :
  status task = pending → handleStatusChange task = withStatus task completed.
Proof. intros H. unfold handleStatusChange. by rewrite H. Qed.

Lemma handleStatusChange_twice task :
  status task = pending → handleStatusChange (handleStatusChange task) = task.
Proof. destruct task. simpl. by intros ->. Qed.

Lemma history_handleUpdateTask clk updatedTask st :
  history (handleUpdateTask clk updatedTask st) =
  history (if bool_decide (status updatedTask = completed)
           then addCompletedTask (completionNow clk) (hourNow clk) st
                  updatedTask st
           else st).
Proof. done. Qed.

(** The guard of [addCompletedTask]. *)
Lemma addCompletedTask_recorded nowv hour task st :
  recorded (id task) (history st) = true →
  addCompletedTask nowv hour st task st = st.
Proof. intros H. unfold addCompletedTask. unfold recorded in H. by rewrite H. Qed.

Lemma addCompletedTask_fresh nowv hour task st :
  recorded (id task) (history st) = false →
  history (addCompletedTask nowv hour st task st) =
    history st ++ [mkCompletedTask (withStatus task completed) nowv].
Proof. intros H. unfold addCompletedTask. unfold recorded in H. by rewrite H. Qed.

Lemma find_id_eq taskId (l : list Task) t :
  List.find (λ t, bool_decide (id t = taskId)) l = Some t → id t = taskId.
Proof.
  intros H. apply find_some in H as [_ H]. by apply bool_decide_eq_true in H.
Qed.

Lemma history_toggleStatus_recorded clk taskId st :
  recorded taskId (history st) = true →
  history (toggleStatus clk taskId st) = history st.
Proof.
  intros Hrec. unfold toggleStatus.
  destruct (List.find _ (tasks st)) as [t|] eqn:Hfind; [|done].
  apply find_id_eq in Hfind. rewrite history_handleUpdateTask.
  case_bool_decide; [|done].
  rewrite addCompletedTask_recorded; [done|].
  unfold handleStatusChange. simpl. by rewrite Hfind.
Qed.

Lemma history_toggles_recorded taskId st (cs : list Clock) :
  recorded taskId (history st) = true →
  history (foldl (λ s c, toggleStatus c taskId s) st cs) = history st.
Proof.
  revert st. induction cs as [|c cs IH]; intros st Hrec; simpl; [done|].
  rewrite IH; rewrite history_toggleStatus_recorded; done.
Qed.

Lemma recorded_snoc taskId h (c : CompletedTask) :
  id c = taskId → recorded taskId (h ++ [c]) = true.
Proof.
  intros Hid. unfold recorded. rewrite existsb_app. simpl.
  rewrite (bool_decide_eq_true_2 _ Hid). by rewrite orb_true_r.
Qed.

Lemma recorded_false_filter taskId (h : list CompletedTask) :
  recorded taskId h = false →
  filter (λ r : CompletedTask, id r = taskId) h = [].
Proof.
  unfold recorded. induction h as [|r h IH]; [done|].
  simpl. intros Hfresh. apply orb_false_iff in Hfresh as [Hr Hh].
  apply bool_decide_eq_false in Hr.
  rewrite filter_cons_False by done. by apply IH.
Qed.

(** C7 (toggle symmetry).  Toggling a pending task completes it and
    toggling it again gives back the task it was, field for field.  In a
    session that starts with no record of the task id, any number of
    toggles (at least one) of that id leaves one record of it in the
    history, the one appended by the first toggle; from then on
    [addCompletedTask] for that id changes nothing. *)
Theorem toggle_symmetry_single_record st task (c : Clock) (cs : list Clock) :
  List.find (λ t, bool_decide (id t = id task)) (tasks st) = Some task →
  status task = pending →
  recorded (id task) (history st) = false →
  let st' := foldl (λ s c, toggleStatus c (id task) s) st (c :: cs) in
  status (handleStatusChange task) = completed ∧
  handleStatusChange (handleStatusChange task) = task ∧
  history st' =
    history st ++ [mkCompletedTask (withStatus task completed) (completionNow c)] ∧
  length (filter (λ r : CompletedTask, id r = id task) (history st')) = 1%nat ∧
  ∀ nowv hour task', id task' = id task →
    addCompletedTask nowv hour st' task' st' = st'.
Proof.
  intros Hfind Hpending Hfresh st'.
  assert (history (toggleStatus c (id task) st) =
          history st ++
          [mkCompletedTask (withStatus task completed) (completionNow c)]) as Hfirst.
  { unfold toggleStatus. rewrite Hfind, history_handleUpdateTask.
    rewrite (handleStatusChange_pending task Hpending). simpl.
    by rewrite addCompletedTask_fresh. }
  assert (history st' =
          history st ++
          [mkCompletedTask (withStatus task completed) (completionNow c)]) as Hhist.
  { unfold st'. simpl. rewrite history_toggles_recorded; [done|].
    rewrite Hfirst. by apply recorded_snoc. }
  split; [by rewrite (handleStatusChange_pending task Hpending)|].
  split; [by apply handleStatusChange_twice|].
  split; [done|]. split.
  - rewrite Hhist, filter_app, length_app.
    assert (filter (λ r : CompletedTask, id r = id task) (history st) = []) as ->.
    { by apply recorded_false_filter. }
    rewrite filter_cons_True by done. done.
  - intros nowv hour task' Hid. apply addCompletedTask_recorded.
    rewrite Hid, Hhist. by apply recorded_snoc.
Qed.

Lemma toggle_symmetry_single_record_witness :
  handleStatusChange (handleStatusChange Scenario.reading) = Scenario.reading ∧
  history
    (foldl (λ s c, toggleStatus c "uuid-reading" s) Scenario.app
       [Scenario.clockAt 8 10; Scenario.clockAt 8 20; Scenario.clockAt 8 30]) =
    [mkCompletedTask (withStatus Scenario.reading completed) (Scenario.at_ 8 10)].
Proof.
  destruct (toggle_symmetry_single_record Scenario.app Scenario.reading
              (Scenario.clockAt 8 10)
              [Scenario.clockAt 8 20; Scenario.clockAt 8 30]
              eq_refl eq_refl eq_refl) as (_ & Htwice & Hhist & _).
  split; [exact Htwice | exact Hhist].
Defined.

(** A bulk completion applied again adds no record for an id the history
    already has. *)
Lemma handleBulkComplete_recorded clocks selectedTasks taskId st :
  recorded taskId (history st) = true →
  filter (λ r : CompletedTask, id r = taskId)
    (history (handleBulkComplete clocks selectedTasks st)) =
  filter (λ r : CompletedTask, id r = taskId) (history st).
Proof.
  intros Hrec. unfold handleBulkComplete.
  generalize (imap pair
    (List.filter (λ t, bool_decide (id t ∈ selectedTasks)) (tasks st))).
  intros l.
  assert (∀ s : AppState,
    filter (λ r : CompletedTask, id r = taskId) (history s) =
      filter (λ r : CompletedTask, id r = taskId) (history st) →
    filter (λ r : CompletedTask, id r = taskId)
      (history
         (foldl (λ s '(i, t),
                   addCompletedTask (completionNow (clocks i))
                     (hourNow (clocks i)) st t s) s l)) =
      filter (λ r : CompletedTask, id r = taskId) (history st)) as Hfold.
  { induction l as [|[i t] l IH]; intros s Hs; simpl; [done|].
    apply IH. unfold addCompletedTask.
    destruct (existsb _ (history st)) eqn:Hex; [done|]. simpl.
    rewrite filter_app, Hs.
    rewrite filter_cons_False, filter_nil, app_nil_r; [done|].
    simpl. intros Hid. unfold recorded in Hrec. rewrite <- Hid in Hrec.
    congruence. }
  by apply Hfold.
Qed.

(** Scenario A: sleep 8 hours, work 8 hours and Study for 90 minutes. *)
Example scenario_A :
  option_map (map (λ t, (title t, startTime t, endTime t, order t)))
    (scheduleDurationTasks Scenario.today Scenario.draws Scenario.categories
       8 8 [Scenario.study]) =
  Some [ ("Sleeping Time", Scenario.at_ 0 0, Scenario.at_ 8 0, 0);
         ("Work/School Time", Scenario.at_ 8 0, Scenario.at_ 16 0, 1);
         ("Study", Scenario.at_ 16 0, Scenario.at_ 17 30, 2) ].
Proof. reflexivity. Qed.

(** Scenario D: the start timer is due in 5 minutes and the end timer in
    65. *)
Example scenario_D :
  timeouts Scenario.armed !! 1%nat =
    Some (mkTimeout (StartCallback Scenario.meeting)
            (Scenario.nowD + 5 * Scenario.minute)) ∧
  timeouts Scenario.armed !! 2%nat =
    Some (mkTimeout (EndCallback Scenario.meeting)
            (Scenario.nowD + 65 * Scenario.minute)) ∧
  scheduledNotifications Scenario.armed !! "uuid-meeting" = Some [1%nat; 2%nat].
Proof. repeat split; vm_compute; reflexivity. Qed.

(** ** The hypotheses of the theorems hold in every session *)

(** The registry tracks the live timers from the start of a session on,
    whatever is armed, disarmed, set or fired. *)
Lemma registryTracks_notifStep st a :
  registryTracks st → registryTracks (notifStep st a).
Proof.
  intros Htr. destruct a as [nowv task|taskId|nowv delay|db k]; simpl.
  - by apply scheduleTaskNotifications_spec.
  - by apply cancelTaskNotifications_spec.
  - intros j tm x Hj Hx. simpl in *.
    apply lookup_insert_Some in Hj as [[_ <-]|[_ Hj]]; [done|].
    by apply (Htr j tm x).
  - unfold fireTimeout. destruct (timeouts st !! k) as [tm0|]; [|done].
    intros j tm x Hj Hx. simpl in *.
    apply lookup_delete_Some in Hj as [_ Hj]. by apply (Htr j tm x).
Qed.

Lemma registryTracks_session n actions :
  registryTracks (foldl notifStep (mkNotif ∅ ∅ n) actions).
Proof.
  assert (registryTracks (mkNotif ∅ ∅ n)) as Hinit
    by apply registryTracks_noTimers.
  revert Hinit. generalize (mkNotif ∅ ∅ n).
  induction actions as [|a actions IH]; intros st Hst; simpl; [done|].
  by apply IH, registryTracks_notifStep.
Qed.

(** Why the guard matters: [allocateTime] on a negative duration moves
    the start of the free slot backwards, into time already given away.
    The form never produces such a list. *)
Example negative_duration_reopens_slot :
  let task name (d : Z) := mkTask name name None 0 d pending medium "study" 0 0 in
  option_map (map (λ t, (title t, startTime t - Scenario.today, endTime t - Scenario.today)))
    (scheduleDurationTasks Scenario.today Scenario.draws Scenario.categories 0 0
       [task "p" 600000; task "a" (-60000); task "b" (-180000)]) =
  Some [("p", 0, 600000); ("b", 540000, 360000); ("a", 600000, 540000)].
Proof. reflexivity. Qed.

(** * More of the code *)

(** ** The allocator is first fit with one cursor *)

Section SortedFacts.
Context {A : Type} (key : A → Z).

Lemma insertBy_Sorted x l :
  Sorted (λ a b, key a ≤ key b) l →
  Sorted (λ a b, key a ≤ key b) (insertBy (λ a b, key a - key b) x l).
Proof.
  induction 1 as [|y l Hl IH Hy]; simpl; [by repeat constructor|].
  destruct (Z.leb_spec (key x - key y) 0).
  - constructor; [by constructor|]. constructor. lia.
  - constructor; [done|].
    destruct Hy as [|z l' Hz]; simpl.
    + constructor. lia.
    + destruct (key x - key z <=? 0); constructor; lia.
Qed.

Lemma sortBy_Sorted l :
  Sorted (λ a b, key a ≤ key b) (sortBy (λ a b, key a - key b) l).
Proof.
  induction l as [|x l IH]; simpl; [constructor|]. by apply insertBy_Sorted.
Qed.

Lemma sortBy_of_Sorted l :
  Sorted (λ a b, key a ≤ key b) l → sortBy (λ a b, key a - key b) l = l.
Proof.
  induction 1 as [|x l Hl IH Hx]; simpl; [done|].
  rewrite IH. destruct Hx as [|y l' Hy]; simpl; [done|].
  by destruct (Z.leb_spec (key x - key y) 0); [|lia].
Qed.
End SortedFacts.

Lemma place_app p dayEnd reqs1 reqs2 :
  place p dayEnd (reqs1 ++ reqs2) =
  place p dayEnd reqs1 ++ place (advance p dayEnd reqs1) dayEnd reqs2.
Proof.
  revert p. induction reqs1 as [|[d details] reqs1 IH]; intros p; simpl; [done|].
  destruct ((p <? dayEnd) && (d <=? dayEnd - p)); simpl; by rewrite IH.
Qed.

Lemma advance_app p dayEnd reqs1 reqs2 :
  advance p dayEnd (reqs1 ++ reqs2) =
  advance (advance p dayEnd reqs1) dayEnd reqs2.
Proof.
  revert p. induction reqs1 as [|[d details] reqs1 IH]; intros p; simpl; [done|].
  by destruct ((p <? dayEnd) && (d <=? dayEnd - p)).
Qed.

Lemma advance_bounds p dayEnd reqs :
  Forall (λ r, 0 ≤ r.1) reqs → p ≤ dayEnd →
  p ≤ advance p dayEnd reqs ≤ dayEnd.
Proof.
  intros Hpos. revert p. induction Hpos as [|[d details] reqs Hd _ IH];
    intros p Hp; simpl in *; [lia|].
  destruct (Z.ltb_spec p dayEnd); simpl; [|by apply IH].
  destruct (Z.leb_spec d (dayEnd - p)); [|by apply IH].
  specialize (IH (p + d)). lia.
Qed.

Lemma chained_place p dayEnd reqs : chained p (place p dayEnd reqs).
Proof.
  revert p. induction reqs as [|[d details] reqs IH]; intros p; simpl; [done|].
  destruct ((p <? dayEnd) && (d <=? dayEnd - p)); simpl; [|done].
  split; [done | apply IH].
Qed.

Lemma chained_Sorted from l :
  Forall (λ t, startTime t ≤ endTime t) l → chained from l →
  Sorted (λ a b, startTime a ≤ startTime b) l.
Proof.
  intros Hall. revert from. induction Hall as [|t l Ht _ IH]; intros from;
    simpl; [constructor|].
  intros [Hfrom Hl]. constructor; [by eapply IH|].
  destruct l as [|t' l']; constructor. simpl in Hl. lia.
Qed.

Lemma place_spans p dayEnd reqs :
  Forall (λ r, 0 ≤ r.1) reqs →
  Forall (λ t, startTime t ≤ endTime t) (place p dayEnd reqs).
Proof.
  intros Hpos. revert p. induction Hpos as [|[d details] reqs Hd _ IH];
    intros p; simpl in *; [done|].
  destruct ((p <? dayEnd) && (d <=? dayEnd - p)); [|done].
  constructor; [simpl; lia | done].
Qed.

(** One call of [allocateTime] when the free slots are those of a
    cursor. *)
Lemma allocateTime_cursor p dayEnd d details tasks0 :
  p ≤ dayEnd →
  (allocateTime d details (mkAlloc tasks0 (slotsFrom p dayEnd))).2 =
  mkAlloc (tasks0 ++ place p dayEnd [(d, details)])
    (slotsFrom (advance p dayEnd [(d, details)]) dayEnd).
Proof.
  intros Hp. unfold slotsFrom at 1. simpl.
  destruct (Z.ltb_spec p dayEnd) as [Hlt|Hge]; simpl.
  - destruct (Z.leb_spec d (dayEnd - p)) as [Hfit|Hno].
    + by rewrite allocateTime_single_fit.
    + rewrite allocateTime_single_no_fit by done. simpl.
      rewrite app_nil_r. unfold slotsFrom.
      by destruct (Z.ltb_spec p dayEnd); [|lia].
  - rewrite app_nil_r. unfold slotsFrom.
    by destruct (Z.ltb_spec p dayEnd); [lia|].
Qed.

Lemma forEachUser_cursor p dayEnd dts tasks0 :
  Forall (λ t, 0 ≤ endTime t) dts → p ≤ dayEnd →
  forEachUser dts (mkAlloc tasks0 (slotsFrom p dayEnd)) =
  mkAlloc (tasks0 ++ place p dayEnd (map (λ dt, (endTime dt, detailsOf dt)) dts))
    (slotsFrom (advance p dayEnd (map (λ dt, (endTime dt, detailsOf dt)) dts))
       dayEnd).
Proof.
  unfold forEachUser. intros Hpos. revert p tasks0.
  induction Hpos as [|dt dts Hdt _ IH]; intros p tasks0 Hp.
  - simpl. by rewrite app_nil_r.
  - cbn [foldl map]. unfold userStep at 2.
    rewrite allocateTime_cursor by done.
    rewrite IH.
    + rewrite <- app_assoc.
      change ((endTime dt, detailsOf dt) :: map (λ dt0, (endTime dt0, detailsOf dt0)) dts)
        with ([(endTime dt, detailsOf dt)] ++
              map (λ dt0, (endTime dt0, detailsOf dt0)) dts).
      by rewrite place_app, advance_app.
    + apply (advance_bounds p dayEnd [(endTime dt, detailsOf dt)]); [|done].
      by repeat constructor.
Qed.

Lemma fixedRequest_nonneg categories x r :
  fixedRequest categories x = Some r → Forall (λ q, 0 ≤ q.1) r.
Proof.
  unfold fixedRequest. destruct (Z.leb_spec (ft_durationHours x.1) 0).
  - by intros [= <-].
  - destruct (findCategoryId _ _); [|done]. simpl. intros [= <-].
    repeat constructor. simpl. lia.
Qed.

Lemma fixedRequests_nonneg categories fts rs :
  fixedRequests categories fts = Some rs → Forall (λ q, 0 ≤ q.1) rs.
Proof.
  revert rs. induction fts as [|x fts IH]; intros rs; simpl.
  - by intros [= <-].
  - destruct (fixedRequest categories x) as [r|] eqn:Hr; [|done]. simpl.
    destruct (fixedRequests categories fts) as [rs'|]; [|done]. simpl.
    intros [= <-]. apply Forall_app. split; [by eapply fixedRequest_nonneg | by apply IH].
Qed.

Lemma forEachFixed_cursor categories p dayEnd fts tasks0 :
  p ≤ dayEnd →
  forEachFixed categories fts (mkAlloc tasks0 (slotsFrom p dayEnd)) =
  rs ← fixedRequests categories fts;
  Some (mkAlloc (tasks0 ++ place p dayEnd rs)
          (slotsFrom (advance p dayEnd rs) dayEnd)).
Proof.
  revert p tasks0. induction fts as [|[ft dr] fts IH]; intros p tasks0 Hp.
  - simpl. by rewrite app_nil_r.
  - cbn [forEachFixed fixedRequests]. unfold fixedStep, fixedRequest. simpl.
    destruct (Z.leb_spec (ft_durationHours ft) 0) as [Hle|Hgt]; simpl.
    + rewrite IH by done. by destruct (fixedRequests categories fts).
    + destruct (findCategoryId categories (ft_category ft)) as [cid|]; [|done].
      simpl. rewrite allocateTime_cursor by done.
      rewrite IH.
      * destruct (fixedRequests categories fts) as [rs|]; [|done]. simpl.
        destruct ((p <? dayEnd) &&
                  (ft_durationHours ft * 60 * 60 * 1000 <=? dayEnd - p)); simpl;
          by rewrite <- ?app_assoc, ?app_nil_r.
      * apply (advance_bounds p dayEnd); [|done]. repeat constructor. simpl. lia.
Qed.

Lemma place_sorted p dayEnd reqs :
  Forall (λ r, 0 ≤ r.1) reqs →
  sortBy (λ a b, startTime a - startTime b) (place p dayEnd reqs) =
  place p dayEnd reqs.
Proof.
  intros Hpos. apply (sortBy_of_Sorted startTime).
  eapply chained_Sorted; [by apply place_spans | apply chained_place].
Qed.

Lemma userRequests_nonneg tempTasks :
  Forall (λ t, 0 ≤ endTime t) tempTasks →
  Forall (λ r, 0 ≤ r.1) (userRequests tempTasks).
Proof.
  intros Hpos. unfold userRequests. apply Forall_fmap.
  by rewrite sortBy_Permutation.
Qed.

(** The allocator before its final sort, as placements from a cursor. *)
Lemma scheduleDurationTasks_place today draws categories sleepDuration
    workDuration tempTasks :
  Forall (λ t, 0 ≤ endTime t) tempTasks →
  scheduleDurationTasks today draws categories sleepDuration workDuration
    tempTasks =
  rs ← fixedRequests categories
         (zip (fixedTasks sleepDuration workDuration) [draws.1; draws.2]);
  Some (imap (λ index t, withOrder t (Z.of_nat index))
          (sortBy (λ a b, startTime a - startTime b)
             (place today (today + msPerDay) (rs ++ userRequests tempTasks)))).
Proof.
  intros Hpos. unfold scheduleDurationTasks.
  assert ([mkSlot today (today + msPerDay)] = slotsFrom today (today + msPerDay))
    as ->.
  { unfold slotsFrom, msPerDay.
    by destruct (Z.ltb_spec today (today + 24 * 60 * 60 * 1000)); [|lia]. }
  rewrite forEachFixed_cursor by (unfold msPerDay; lia).
  destruct (fixedRequests categories _) as [rs|] eqn:Hrs; [|done]. simpl.
  rewrite forEachUser_cursor.
  - simpl. by rewrite place_app.
  - by rewrite sortBy_Permutation.
  - apply advance_bounds; [by eapply fixedRequests_nonneg | unfold msPerDay; lia].
Qed.

(** Silent drop, when a category exists: a sleep of more than 24 hours
    fits no slot and is passed over, and what is returned is the first
    fit of the work commitment and the duration tasks alone. *)
Lemma infeasible_sleep_rest_allocated today draws categories sleepDuration
    workDuration tempTasks :
  categories ≠ [] → 24 < sleepDuration →
  Forall (λ t, 0 ≤ endTime t) tempTasks →
  ∃ rs,
    fixedRequest categories
      (mkFixed "Work/School Time" workDuration "work" high, draws.2) = Some rs ∧
    scheduleDurationTasks today draws categories sleepDuration workDuration
      tempTasks =
    Some (imap (λ index t, withOrder t (Z.of_nat index))
            (place today (today + msPerDay) (rs ++ userRequests tempTasks))).
Proof.
  intros Hne Hsleep Hpos. rewrite scheduleDurationTasks_place by done.
  unfold fixedTasks. cbn [zip zip_with fixedRequests].
  destruct (fixedRequest categories
              (mkFixed "Work/School Time" workDuration "work" high, draws.2))
    as [rs|] eqn:Hrs.
  - exists rs. split; [done|].
    unfold fixedRequest. cbn [fst snd ft_durationHours ft_category].
    destruct (Z.leb_spec sleepDuration 0) as [?|_]; [lia|].
    destruct (findCategoryId_is_Some categories "rest" Hne) as [cid ->].
    cbn. rewrite app_nil_r.
    assert (Forall (λ r, 0 ≤ r.1) (rs ++ userRequests tempTasks)) as Hreqs.
    { apply Forall_app. split; [by eapply fixedRequest_nonneg|].
      by apply userRequests_nonneg. }
    destruct (Z.ltb_spec today (today + msPerDay)) as [_|?];
      [|unfold msPerDay in *; lia].
    destruct (Z.leb_spec (sleepDuration * 60 * 60 * 1000)
                (today + msPerDay - today)) as [?|_];
      [unfold msPerDay in *; lia|].
    cbn [andb].
    change (foldr (insertBy (λ a b : Task, startTime a - startTime b)) [])
      with (sortBy (λ a b : Task, startTime a - startTime b)).
    by rewrite place_sorted.
  - exfalso. unfold fixedRequest in Hrs. simpl in Hrs.
    destruct (workDuration <=? 0); [done|].
    by destruct (findCategoryId_is_Some categories "work" Hne) as [cid' Hcid];
      rewrite Hcid in Hrs.
Qed.

Lemma Sorted_pairwise {A} (R : A → A → Prop) `{!Transitive R} l :
  Sorted R l → pairwise R l.
Proof.
  intros Hl. apply Sorted_StronglySorted in Hl; [|done].
  induction Hl as [|x l _ IH Hx]; simpl; [done|]. by split.
Qed.

Lemma chained_imap (f : nat → Task → Task) from l :
  (∀ i t, startTime (f i t) = startTime t ∧ endTime (f i t) = endTime t) →
  chained from l → chained from (imap f l).
Proof.
  revert f from. induction l as [|t l IH]; intros f from Hf; simpl; [done|].
  intros [Hfrom Hl]. destruct (Hf 0%nat t) as [-> ->]. split; [done|].
  apply IH; [|done]. intros i t'. apply Hf.
Qed.

(** X1.  The schedule the allocator returns is in ascending order of
    start time and the [order] field of each task is its position. *)
Theorem schedule_sorted_and_ranked today draws categories sleepDuration
    workDuration tempTasks out :
  scheduleDurationTasks today draws categories sleepDuration workDuration
    tempTasks = Some out →
  (∀ i j a b, (i < j)%nat → out !! i = Some a → out !! j = Some b →
     startTime a ≤ startTime b) ∧
  (∀ i t, out !! i = Some t → order t = Z.of_nat i).
Proof.
  unfold scheduleDurationTasks.
  destruct (forEachFixed _ _ _) as [st1|]; [|done]. simpl. intros [= <-]. split.
  - intros i j a b Hij Ha Hb.
    apply lookup_output_interval in Ha as (ta & Hta & -> & _).
    apply lookup_output_interval in Hb as (tb & Htb & -> & _).
    eapply (pairwise_lookup_lt (λ a b, startTime a ≤ startTime b));
      [|exact Hij|exact Hta|exact Htb].
    apply Sorted_pairwise; [intros x y z; lia|].
    apply (sortBy_Sorted startTime).
  - intros i t. rewrite list_lookup_imap.
    destruct (_ !! i) as [t0|]; [|done]. simpl. by intros [= <-].
Qed.

Lemma schedule_sorted_and_ranked_witness :
  scheduleDurationTasks Scenario.today Scenario.draws Scenario.categories
    8 8 [Scenario.study] = Some Sample.scheduleA ∧
  (∀ i j a b, (i < j)%nat → Sample.scheduleA !! i = Some a →
     Sample.scheduleA !! j = Some b → startTime a ≤ startTime b) ∧
  (∀ i t, Sample.scheduleA !! i = Some t → order t = Z.of_nat i).
Proof.
  assert (scheduleDurationTasks Scenario.today Scenario.draws
            Scenario.categories 8 8 [Scenario.study] = Some Sample.scheduleA)
    as Hout by (vm_compute; reflexivity).
  split; [exact Hout|].
  exact (schedule_sorted_and_ranked Scenario.today Scenario.draws
           Scenario.categories 8 8 [Scenario.study] Sample.scheduleA Hout).
Defined.

(** X2.  When no duration is negative the allocator is first fit with one
    cursor: the requests are the fixed tasks of positive duration, then
    the duration tasks longest first; each is placed at the cursor when
    it is no longer than what is left of the day, and passed over
    otherwise; the final sort changes nothing. *)
Theorem schedule_is_first_fit today draws categories sleepDuration
    workDuration tempTasks :
  Forall (λ t, 0 ≤ endTime t) tempTasks →
  scheduleDurationTasks today draws categories sleepDuration workDuration
    tempTasks =
  rs ← fixedRequests categories
         (zip (fixedTasks sleepDuration workDuration) [draws.1; draws.2]);
  Some (imap (λ index t, withOrder t (Z.of_nat index))
          (place today (today + msPerDay) (rs ++ userRequests tempTasks))).
Proof.
  intros Hpos. rewrite scheduleDurationTasks_place by done.
  destruct (fixedRequests categories _) as [rs|] eqn:Hrs; [|done]. simpl.
  rewrite place_sorted; [done|].
  apply Forall_app. split;
    [by eapply fixedRequests_nonneg | by apply userRequests_nonneg].
Qed.

Lemma schedule_is_first_fit_witness :
  Forall (λ t, 0 ≤ endTime t) [Scenario.study] ∧
  scheduleDurationTasks Scenario.today Scenario.draws Scenario.categories
    8 16 [Scenario.study] =
  rs ← fixedRequests Scenario.categories
         (zip (fixedTasks 8 16) [Scenario.draws.1; Scenario.draws.2]);
  Some (imap (λ index t, withOrder t (Z.of_nat index))
          (place Scenario.today (Scenario.today + msPerDay)
             (rs ++ userRequests [Scenario.study]))).
Proof.
  assert (Forall (λ t, 0 ≤ endTime t) [Scenario.study]) as Hpos
    by (repeat constructor; simpl; lia).
  split; [exact Hpos|].
  exact (schedule_is_first_fit Scenario.today Scenario.draws
           Scenario.categories 8 16 [Scenario.study] Hpos).
Defined.

Lemma chained_lookup from l :
  chained from l →
  (∀ t, l !! 0%nat = Some t → startTime t = from) ∧
  (∀ i a b, l !! i = Some a → l !! S i = Some b → startTime b = endTime a).
Proof.
  revert from. induction l as [|t l IH]; intros from Hchain.
  - split; [done|]. intros i a b Ha. done.
  - destruct Hchain as [Hfrom Hl]. destruct (IH _ Hl) as [Hfirst Hnext]. split.
    + by intros t' [= <-].
    + intros [|i] a b Ha Hb; simpl in *.
      * injection Ha as <-. by apply Hfirst.
      * by eapply Hnext.
Qed.

(** X3.  When no duration is negative the schedule has no gaps: its first
    task starts at the start of the day and every other task starts at
    the instant the task before it ends. *)
Theorem schedule_has_no_gaps today draws categories sleepDuration
    workDuration tempTasks out :
  Forall (λ t, 0 ≤ endTime t) tempTasks →
  scheduleDurationTasks today draws categories sleepDuration workDuration
    tempTasks = Some out →
  chained today out ∧
  (∀ t, out !! 0%nat = Some t → startTime t = today) ∧
  (∀ i a b, out !! i = Some a → out !! S i = Some b → startTime b = endTime a).
Proof.
  intros Hpos. rewrite scheduleDurationTasks_place by done.
  destruct (fixedRequests categories _) as [rs|] eqn:Hrs; [|done]. simpl.
  intros [= <-].
  assert (chained today
            (imap (λ index t, withOrder t (Z.of_nat index))
               (sortBy (λ a b, startTime a - startTime b)
                  (place today (today + msPerDay) (rs ++ userRequests tempTasks)))))
    as Hchain.
  { apply chained_imap; [done|]. rewrite place_sorted; [apply chained_place|].
    apply Forall_app. split;
      [by eapply fixedRequests_nonneg | by apply userRequests_nonneg]. }
  split; [done|]. by apply chained_lookup.
Qed.

Lemma schedule_has_no_gaps_witness :
  Forall (λ t, 0 ≤ endTime t) [Scenario.study] ∧
  scheduleDurationTasks Scenario.today Scenario.draws Scenario.categories
    8 8 [Scenario.study] = Some Sample.scheduleA ∧
  chained Scenario.today Sample.scheduleA.
Proof.
  assert (Forall (λ t, 0 ≤ endTime t) [Scenario.study]) as Hpos
    by (repeat constructor; simpl; lia).
  assert (scheduleDurationTasks Scenario.today Scenario.draws
            Scenario.categories 8 8 [Scenario.study] = Some Sample.scheduleA)
    as Hout by (vm_compute; reflexivity).
  split; [exact Hpos|]. split; [exact Hout|].
  exact (proj1 (schedule_has_no_gaps Scenario.today Scenario.draws
                  Scenario.categories 8 8 [Scenario.study] Sample.scheduleA
                  Hpos Hout)).
Defined.

Lemma map_imap_invariant {B} (g : Task → B) (f : nat → Task → Task) l :
  (∀ i t, g (f i t) = g t) → map g (imap f l) = map g l.
Proof.
  revert f. induction l as [|t l IH]; intros f Hf; simpl; [done|].
  rewrite Hf. f_equal. apply IH. intros i t'. apply Hf.
Qed.

Lemma requestTotal_nonneg reqs :
  Forall (λ r, 0 < r.1) reqs → 0 ≤ requestTotal reqs.
Proof. induction 1 as [|r reqs Hr _ IH]; simpl; lia. Qed.

Lemma place_all_fit p dayEnd reqs :
  Forall (λ r, 0 < r.1) reqs → p + requestTotal reqs ≤ dayEnd →
  map (λ t, (id t, endTime t - startTime t)) (place p dayEnd reqs) =
  map (λ r, (d_id r.2, r.1)) reqs.
Proof.
  intros Hpos. revert p. induction Hpos as [|[d details] reqs Hd Hrest IH];
    intros p Hfit; simpl in *; [done|].
  pose proof (requestTotal_nonneg reqs Hrest).
  destruct (Z.ltb_spec p dayEnd); [|lia].
  destruct (Z.leb_spec d (dayEnd - p)); [|lia]. simpl.
  f_equal; [f_equal; lia|]. apply IH. lia.
Qed.

Lemma totalDuration_Permutation l k :
  l ≡ₚ k → totalDuration l = totalDuration k.
Proof.
  unfold totalDuration.
  induction 1 as [|x l k _ IH|x y l|l k m _ IH1 _ IH2]; simpl; lia.
Qed.

Lemma requestTotal_userRequests tempTasks :
  requestTotal (userRequests tempTasks) = totalDuration tempTasks.
Proof.
  unfold userRequests.
  rewrite <- (totalDuration_Permutation _ _
    (sortBy_Permutation (λ a b, endTime b - endTime a) tempTasks)).
  induction (sortBy _ tempTasks) as [|t l IH]; simpl; [done|]. by rewrite IH.
Qed.

(** X4.  When sleep, work and the duration tasks are all positive and
    together no longer than 24 hours, nothing is dropped: the schedule
    holds sleep, then work, then every duration task, longest first, each
    with exactly the duration asked for. *)
Theorem schedule_keeps_all_that_fits today draws categories sleepDuration
    workDuration tempTasks :
  categories ≠ [] → 0 < sleepDuration → 0 < workDuration →
  Forall (λ t, 0 < endTime t) tempTasks →
  sleepDuration * 60 * 60 * 1000 + workDuration * 60 * 60 * 1000 +
    totalDuration tempTasks ≤ 24 * 60 * 60 * 1000 →
  ∃ out,
    scheduleDurationTasks today draws categories sleepDuration workDuration
      tempTasks = Some out ∧
    length out = (2 + length tempTasks)%nat ∧
    map (λ t, (id t, endTime t - startTime t)) out =
      (uuid draws.1, sleepDuration * 60 * 60 * 1000) ::
      (uuid draws.2, workDuration * 60 * 60 * 1000) ::
      map (λ dt, (id dt, endTime dt))
        (sortBy (λ a b, endTime b - endTime a) tempTasks).
Proof.
  intros Hne Hsleep Hwork Hpos Htotal.
  assert (Forall (λ t, 0 ≤ endTime t) tempTasks) as Hnonneg.
  { eapply Forall_impl; [exact Hpos|]. simpl. intros t. lia. }
  rewrite scheduleDurationTasks_place by done.
  unfold fixedTasks. cbn [zip zip_with fixedRequests]. unfold fixedRequest. simpl.
  destruct (Z.leb_spec sleepDuration 0); [lia|].
  destruct (Z.leb_spec workDuration 0); [lia|].
  destruct (findCategoryId_is_Some categories "rest" Hne) as [c1 ->].
  destruct (findCategoryId_is_Some categories "work" Hne) as [c2 ->].
  simpl. eexists. split; [done|].
  set (reqs := (sleepDuration * 60 * 60 * 1000,
                mkDetails (uuid draws.1) "Sleeping Time" None pending low c1 0
                  (now draws.1)) ::
               (workDuration * 60 * 60 * 1000,
                mkDetails (uuid draws.2) "Work/School Time" None pending high c2 0
                  (now draws.2)) :: userRequests tempTasks).
  assert (Forall (λ r, 0 < r.1) reqs) as Hreqs.
  { repeat constructor; simpl; [lia | lia |].
    unfold userRequests. apply Forall_fmap. by rewrite sortBy_Permutation. }
  assert (map (λ t, (id t, endTime t - startTime t))
            (imap (λ index t, withOrder t (Z.of_nat index))
               (sortBy (λ a b, startTime a - startTime b)
                  (place today (today + msPerDay) reqs))) =
          map (λ r, (d_id r.2, r.1)) reqs) as Hmap.
  { rewrite map_imap_invariant by done.
    rewrite place_sorted.
    - apply place_all_fit; [done|]. unfold reqs. simpl.
      rewrite requestTotal_userRequests. unfold msPerDay. lia.
    - eapply Forall_impl; [exact Hreqs|]. simpl. intros r. lia. }
  split.
  - apply (f_equal length) in Hmap. rewrite !length_map in Hmap.
    etrans; [exact Hmap|]. unfold reqs, userRequests. simpl.
    by rewrite length_map, (Permutation_length (sortBy_Permutation _ tempTasks)).
  - etrans; [exact Hmap|]. unfold reqs, userRequests. simpl.
    do 2 f_equal. rewrite map_map. done.
Qed.

Lemma schedule_keeps_all_that_fits_witness :
  ∃ out,
    scheduleDurationTasks Scenario.today Scenario.draws Scenario.categories
      8 8 [Scenario.study] = Some out ∧
    length out = 3%nat ∧
    map (λ t, (id t, endTime t - startTime t)) out =
      [("uuid-sleep", 28800000); ("uuid-work", 28800000); ("uuid-study", 5400000)].
Proof.
  assert (Forall (λ t, 0 < endTime t) [Scenario.study]) as Hpos
    by (repeat constructor).
  assert (8 * 60 * 60 * 1000 + 8 * 60 * 60 * 1000 +
            totalDuration [Scenario.study] ≤ 24 * 60 * 60 * 1000) as Htotal
    by (vm_compute; discriminate).
  exact (schedule_keeps_all_that_fits Scenario.today Scenario.draws
           Scenario.categories 8 8 [Scenario.study]
           ltac:(discriminate) ltac:(lia) ltac:(lia) Hpos Htotal).
Defined.

(** ** Edits of the preview that are accepted *)

Lemma replaceById_fmap task l :
  replaceById task l =
  (λ t, if bool_decide (id t = id task) then task else t) <$> l.
Proof.
  induction l as [|t l IH]; [done|]. simpl. by f_equal.
Qed.

Lemma ids_replaceById task l : id <$> replaceById task l = id <$> l.
Proof.
  rewrite replaceById_fmap, <- list_fmap_compose.
  apply list_fmap_ext. intros i t _. simpl. by case_bool_decide.
Qed.

Lemma replaceById_absent task l :
  id task ∉ id <$> l → replaceById task l = l.
Proof.
  unfold replaceById. induction l as [|t l IH]; simpl; [done|].
  intros Hnotin. apply not_elem_of_cons in Hnotin as [Hne Hnotin].
  rewrite bool_decide_eq_false_2 by done. f_equal. by apply IH.
Qed.

Lemma pairwise_replaceById (R : Task → Task → Prop) `{!Symmetric R} task l :
  NoDup (id <$> l) → pairwise R l →
  (∀ o, o ∈ l → id o ≠ id task → R task o) →
  pairwise R (replaceById task l).
Proof.
  induction l as [|t l IH]; simpl; [done|].
  intros Hnodup [Ht Hl] Htask. apply NoDup_cons in Hnodup as [Hnotin Hnodup].
  case_bool_decide as Hid.
  - rewrite Hid in Hnotin. fold (replaceById task l).
    rewrite replaceById_absent by done. split; [|done].
    apply Forall_forall. intros o Ho. apply Htask; [by right|].
    intros Heq. apply Hnotin. rewrite <- Heq.
    apply list_elem_of_fmap. by exists o.
  - fold (replaceById task l). split.
    + apply Forall_forall. intros o Ho.
      apply list_elem_of_fmap in Ho as (o' & -> & Ho').
      rewrite Forall_forall in Ht.
      case_bool_decide; [|by apply Ht].
      symmetry. apply Htask; [by left | done].
    + apply IH; [done | done |]. intros o Ho. apply Htask. by right.
Qed.

(** X5.  An edit of a previewed task that [handleSaveTask] accepts keeps
    the preview in order: when the ids of the preview are distinct and
    its tasks do not overlap, the new preview holds the edited task in
    place of the old one, has the same ids, is free of overlaps again and
    is sorted by start time; the modal is closed and the duration list is
    not touched. *)
Theorem accepted_edit_keeps_preview task st previewed :
  previewedTasks st = Some previewed →
  hasId (id task) previewed = true →
  NoDup (id <$> previewed) →
  pairwise disjointTasks previewed →
  (handleSaveTask task st).2 = None →
  ∃ previewed',
    previewedTasks (handleSaveTask task st).1 = Some previewed' ∧
    previewed' ≡ₚ replaceById task previewed ∧
    task ∈ previewed' ∧
    id <$> replaceById task previewed = id <$> previewed ∧
    NoDup (id <$> previewed') ∧
    pairwise disjointTasks previewed' ∧
    Sorted (λ a b, startTime a ≤ startTime b) previewed' ∧
    isTaskModalOpen (handleSaveTask task st).1 = false ∧
    editingTask (handleSaveTask task st).1 = None ∧
    tempTasks (handleSaveTask task st).1 = tempTasks st.
Proof.
  intros Hprev Hid Hnodup Hpw. unfold handleSaveTask. rewrite Hprev, Hid.
  destruct (existsb (overlapsWith task) previewed) eqn:Hov; [done|].
  intros _. simpl.
  exists (sortBy (λ a b, startTime a - startTime b) (replaceById task previewed)).
  assert (sortBy (λ a b, startTime a - startTime b) (replaceById task previewed)
          ≡ₚ replaceById task previewed) as Hperm by apply sortBy_Permutation.
  split; [done|]. split; [done|]. split.
  { rewrite Hperm. apply hasId_true in Hid as (t & Ht & Heq).
    unfold replaceById. apply list_elem_of_fmap. exists t.
    by rewrite bool_decide_eq_true_2. }
  split; [apply ids_replaceById|]. split.
  { rewrite Hperm, ids_replaceById. done. }
  split.
  { eapply pairwise_Permutation; [apply _ | symmetry; exact Hperm |].
    apply pairwise_replaceById; [apply _ | done | done |].
    intros o Ho Hne Hover.
    assert (existsb (overlapsWith task) previewed = true) as Hex; [|congruence].
    apply existsb_exists. exists o. split; [by apply list_elem_of_In|].
    by apply overlapsWith_of_overlap. }
  split; [apply (sortBy_Sorted startTime)|]. done.
Qed.

Lemma accepted_edit_keeps_preview_witness :
  NoDup (id <$> [Scenario.reading; Scenario.gym]) ∧
  pairwise disjointTasks [Scenario.reading; Scenario.gym] ∧
  ∃ previewed',
    previewedTasks (handleSaveTask Sample.readingMoved Scenario.previewing).1 =
      Some previewed' ∧
    previewed' ≡ₚ replaceById Sample.readingMoved [Scenario.reading; Scenario.gym] ∧
    pairwise disjointTasks previewed'.
Proof.
  assert (pairwise disjointTasks [Scenario.reading; Scenario.gym]) as Hpw.
  { simpl. split; [|split; [constructor | exact I]].
    constructor; [|constructor]. unfold disjointTasks, overlap. vm_compute.
    intros [H1 H2]. discriminate H2. }
  assert (NoDup (id <$> [Scenario.reading; Scenario.gym])) as Hnodup.
  { simpl. apply NoDup_cons. split; [|apply NoDup_singleton].
    intros Hin. apply list_elem_of_singleton in Hin. discriminate Hin. }
  split; [exact Hnodup|]. split; [exact Hpw|].
  destruct (accepted_edit_keeps_preview Sample.readingMoved Scenario.previewing
              [Scenario.reading; Scenario.gym] eq_refl eq_refl Hnodup Hpw eq_refl)
    as (previewed' & Hsome & Hperm & _ & _ & _ & Hdisj & _).
  exists previewed'. split; [exact Hsome|]. split; [exact Hperm | exact Hdisj].
Defined.

(** ** The timers of one task and the timers of the others *)

Lemma scheduleTaskNotifications_install nowv task st :
  scheduleTaskNotifications nowv task st =
  if bool_decide (status task = completed)
  then cancelTaskNotifications (id task) st
  else install (id task) (armedTimeouts nowv task)
         (cancelTaskNotifications (id task) st).
Proof.
  unfold scheduleTaskNotifications, install, armedTimeouts.
  destruct (cancelTaskNotifications (id task) st) as [reg tbl n].
  case_bool_decide; [done|]. rewrite !Z.gtb_ltb.
  destruct (nowv <? startTime task), (nowv <? endTime task); simpl;
    rewrite ?Nat.add_0_r; try done; f_equal; lia.
Qed.

Lemma setTimeouts_lookup n tms (tbl : gmap nat Timeout) k :
  setTimeouts n tms tbl !! k =
  if decide (n ≤ k < n + length tms)%nat then tms !! (k - n)%nat else tbl !! k.
Proof.
  revert n tbl. induction tms as [|tm tms IH]; intros n tbl; simpl.
  - case_decide; [lia | done].
  - rewrite IH. destruct (decide (k = n)) as [->|Hne].
    + rewrite decide_False by lia. rewrite decide_True by lia.
      by rewrite lookup_insert_eq, Nat.sub_diag.
    + rewrite lookup_insert_ne by done.
      destruct (decide (S n ≤ k < S n + length tms)%nat).
      * rewrite decide_True by lia.
        replace (k - n)%nat with (S (k - S n)) by lia. done.
      * by rewrite decide_False by lia.
Qed.

Lemma cleared_lookup_notin timeoutIds (tbl : gmap nat Timeout) k :
  k ∉ timeoutIds → foldl clearTimeout tbl timeoutIds !! k = tbl !! k.
Proof.
  revert tbl. induction timeoutIds as [|a l IH]; intros tbl Hk; simpl; [done|].
  apply not_elem_of_cons in Hk as [Hne Hk].
  rewrite IH by done. unfold clearTimeout. by rewrite lookup_delete_ne.
Qed.

Lemma timersOwned_cancel x st :
  timersOwned st → timersOwned (cancelTaskNotifications x st).
Proof.
  intros (Htr & Hown & Hfresh & Hreg).
  split; [by apply cancelTaskNotifications_spec|].
  unfold cancelTaskNotifications.
  destruct (scheduledNotifications st !! x) as [ids|] eqn:Hx; [|done]. simpl.
  split; [|split].
  - intros y l k tm Hy Hk Htm.
    apply lookup_delete_Some in Hy as [Hne Hy].
    apply cleared_lookup_Some in Htm as [Htm _]. by eapply Hown.
  - intros k tm Htm. apply cleared_lookup_Some in Htm as [Htm _]. by eapply Hfresh.
  - intros y l k Hy Hk. apply lookup_delete_Some in Hy as [Hne Hy].
    by eapply Hreg.
Qed.

Lemma liveTimers_cancel_other x y st :
  timersOwned st → x ≠ y →
  liveTimers y (cancelTaskNotifications x st) = liveTimers y st.
Proof.
  intros (Htr & Hown & _) Hne. unfold liveTimers, cancelTaskNotifications.
  destruct (scheduledNotifications st !! x) as [ids|] eqn:Hx; [|done]. simpl.
  apply map_filter_strong_ext_1. intros k tm. simpl. split.
  - intros [Hy Hk]. apply cleared_lookup_Some in Hk as [Hk _]. done.
  - intros [Hy Hk]. split; [done|].
    rewrite cleared_lookup_notin; [done|].
    intros Hin. pose proof (Hown x ids k tm Hx Hin Hk). congruence.
Qed.

Lemma timersOwned_install x tms st :
  timersOwned st → scheduledNotifications st !! x = None →
  Forall (λ tm, callbackTaskId (callback tm) = Some x) tms →
  timersOwned (install x tms st).
Proof.
  intros (Htr & Hown & Hfresh & Hreg) Hx Hall.
  rewrite Forall_lookup in Hall.
  assert (∀ k tm y, timeouts st !! k = Some tm →
            callbackTaskId (callback tm) = Some y → y ≠ x) as Hother.
  { intros k tm y Hk Hy ->. destruct (Htr k tm x Hk Hy) as (l & Hl & _).
    congruence. }
  unfold install. split; [|split; [|split]]; simpl.
  - intros k tm y. simpl. rewrite setTimeouts_lookup. case_decide as Hk.
    + intros Htm Hy. pose proof (Hall _ _ Htm) as Hbel. simpl in Hbel.
      assert (y = x) as -> by congruence.
      apply lookup_lt_Some in Htm as Hlt.
      rewrite (proj2 (Nat.ltb_lt 0 (length tms))) by lia.
      rewrite lookup_insert_eq. eexists. split; [done|].
      apply elem_of_seq. lia.
    + intros Htm Hy. destruct (Htr k tm y Htm Hy) as (l & Hl & Hin).
      exists l. split; [|done].
      destruct (0 <? length tms)%nat; [|done].
      rewrite lookup_insert_ne; [done|]. intros <-. by eapply Hother.
  - intros y l k tm Hy Hin. rewrite setTimeouts_lookup. case_decide as Hk.
    + intros Htm. pose proof (Hall _ _ Htm) as Hbel. simpl in Hbel.
      destruct (0 <? length tms)%nat eqn:Hlen.
      * apply lookup_insert_Some in Hy as [[<- _]|[Hne Hy]]; [done|].
        pose proof (Hreg y l k Hy Hin). lia.
      * pose proof (Hreg y l k Hy Hin). lia.
    + intros Htm. destruct (0 <? length tms)%nat eqn:Hlen.
      * apply lookup_insert_Some in Hy as [[<- <-]|[Hne Hy]].
        -- apply elem_of_seq in Hin. lia.
        -- by eapply Hown.
      * by eapply Hown.
  - intros k tm. rewrite setTimeouts_lookup. case_decide as Hk; [lia|].
    intros Htm. pose proof (Hfresh k tm Htm). lia.
  - intros y l k Hy Hin. destruct (0 <? length tms)%nat eqn:Hlen.
    + apply lookup_insert_Some in Hy as [[<- <-]|[Hne Hy]].
      * apply elem_of_seq in Hin. lia.
      * pose proof (Hreg y l k Hy Hin). lia.
    + pose proof (Hreg y l k Hy Hin). lia.
Qed.

Lemma liveTimers_install_other x y tms st :
  timersOwned st → x ≠ y →
  Forall (λ tm, callbackTaskId (callback tm) = Some x) tms →
  liveTimers y (install x tms st) = liveTimers y st.
Proof.
  intros (_ & _ & Hfresh & _) Hne Hall. rewrite Forall_lookup in Hall.
  unfold liveTimers, install. simpl.
  apply map_filter_strong_ext_1. intros k tm. simpl.
  rewrite setTimeouts_lookup. case_decide as Hk.
  - split.
    + intros [Hy Htm]. pose proof (Hall _ _ Htm) as Hbel. simpl in Hbel.
      congruence.
    + intros [Hy Htm]. pose proof (Hfresh k tm Htm). lia.
  - done.
Qed.

Lemma armedTimeouts_belong nowv task :
  Forall (λ tm, callbackTaskId (callback tm) = Some (id task))
    (armedTimeouts nowv task).
Proof.
  unfold armedTimeouts.
  destruct (nowv <? startTime task), (nowv <? endTime task);
    repeat constructor.
Qed.

Lemma timersOwned_arm nowv task st :
  timersOwned st → timersOwned (scheduleTaskNotifications nowv task st).
Proof.
  intros Hown. rewrite scheduleTaskNotifications_install.
  pose proof (timersOwned_cancel (id task) st Hown) as Hown0.
  case_bool_decide; [done|].
  apply timersOwned_install; [done| |apply armedTimeouts_belong].
  apply cancelTaskNotifications_spec. by destruct Hown.
Qed.

Lemma liveTimers_arm_other nowv task y st :
  timersOwned st → id task ≠ y →
  liveTimers y (scheduleTaskNotifications nowv task st) = liveTimers y st.
Proof.
  intros Hown Hne. rewrite scheduleTaskNotifications_install.
  case_bool_decide.
  - by apply liveTimers_cancel_other.
  - rewrite liveTimers_install_other;
      [by apply liveTimers_cancel_other | by apply timersOwned_cancel | done
      | apply armedTimeouts_belong].
Qed.

Lemma timersOwned_notifStep st a :
  timersOwned st → timersOwned (notifStep st a).
Proof.
  intros Hown. destruct a as [nowv task|taskId|nowv delay|db k]; simpl.
  - by apply timersOwned_arm.
  - by apply timersOwned_cancel.
  - destruct Hown as (Htr & Hown & Hfresh & Hreg).
    split; [by apply (registryTracks_notifStep st (SetOther nowv delay))|].
    split; [|split]; simpl.
    + intros x l j tm Hx Hin Hj.
      apply lookup_insert_Some in Hj as [[<- _]|[_ Hj]]; [|by eapply Hown].
      pose proof (Hreg x l _ Hx Hin). lia.
    + intros j tm Hj.
      apply lookup_insert_Some in Hj as [[<- _]|[_ Hj]]; [lia|].
      pose proof (Hfresh j tm Hj). lia.
    + intros x l j Hx Hin. pose proof (Hreg x l j Hx Hin). lia.
  - destruct Hown as (Htr & Hown & Hfresh & Hreg).
    split; [by apply (registryTracks_notifStep st (Fire db k))|].
    unfold fireTimeout. destruct (timeouts st !! k) as [tm0|]; [|done]. simpl.
    split; [|split].
    + intros x l j tm Hx Hin Hj. apply lookup_delete_Some in Hj as [_ Hj].
      by eapply Hown.
    + intros j tm Hj. apply lookup_delete_Some in Hj as [_ Hj]. by eapply Hfresh.
    + done.
Qed.

Lemma timersOwned_fresh n : timersOwned (mkNotif ∅ ∅ n).
Proof.
  split; [apply registryTracks_noTimers|]. split; [|split]; simpl.
  - intros x l k tm Hx. by rewrite lookup_empty in Hx.
  - intros k tm Hk. by rewrite lookup_empty in Hk.
  - intros x l k Hx. by rewrite lookup_empty in Hx.
Qed.

Lemma timersOwned_session n actions :
  timersOwned (foldl notifStep (mkNotif ∅ ∅ n) actions).
Proof.
  assert (timersOwned (mkNotif ∅ ∅ n)) as Hinit by apply timersOwned_fresh.
  revert Hinit. generalize (mkNotif ∅ ∅ n).
  induction actions as [|a actions IH]; intros st Hst; simpl; [done|].
  by apply IH, timersOwned_notifStep.
Qed.

Lemma registry_cancel_other x y st :
  x ≠ y →
  scheduledNotifications (cancelTaskNotifications x st) !! y =
  scheduledNotifications st !! y.
Proof.
  intros Hne. unfold cancelTaskNotifications.
  destruct (scheduledNotifications st !! x); [|done]. simpl.
  by rewrite lookup_delete_ne.
Qed.

Lemma registry_arm_other nowv task y st :
  id task ≠ y →
  scheduledNotifications (scheduleTaskNotifications nowv task st) !! y =
  scheduledNotifications st !! y.
Proof.
  intros Hne. rewrite scheduleTaskNotifications_install.
  case_bool_decide; [by apply registry_cancel_other|].
  unfold install. simpl. destruct (0 <? _)%nat.
  - rewrite lookup_insert_ne by done. by apply registry_cancel_other.
  - by apply registry_cancel_other.
Qed.

(** X6.  In every session, whatever has been armed, disarmed, set or
    fired before, arming or disarming the reminders of one task leaves
    the live timers and the registry entry of every task with another id
    exactly as they were. *)
Theorem reminders_of_other_tasks_untouched n actions nowv task y :
  id task ≠ y →
  let st := foldl notifStep (mkNotif ∅ ∅ n) actions in
  liveTimers y (scheduleTaskNotifications nowv task st) = liveTimers y st ∧
  scheduledNotifications (scheduleTaskNotifications nowv task st) !! y =
    scheduledNotifications st !! y ∧
  liveTimers y (cancelTaskNotifications (id task) st) = liveTimers y st ∧
  scheduledNotifications (cancelTaskNotifications (id task) st) !! y =
    scheduledNotifications st !! y.
Proof.
  intros Hne st. pose proof (timersOwned_session n actions) as Hown.
  fold st in Hown.
  split; [by apply liveTimers_arm_other|].
  split; [by apply registry_arm_other|].
  split; [by apply liveTimers_cancel_other | by apply registry_cancel_other].
Qed.

Lemma reminders_of_other_tasks_untouched_witness :
  liveTimers "uuid-meeting"
    (scheduleTaskNotifications Scenario.nowD Scenario.gym Scenario.armed) =
  liveTimers "uuid-meeting" Scenario.armed.
Proof.
  exact (proj1 (reminders_of_other_tasks_untouched 1
                  [Arm Scenario.nowD Scenario.meeting] Scenario.nowD
                  Scenario.gym "uuid-meeting" ltac:(discriminate))).
Defined.

Lemma armAll_spec l st :
  timersOwned st → NoDup ((λ x, id x.2) <$> l) →
  timersOwned (armAll l st) ∧
  (∀ x, x ∈ l → size (liveTimers (id x.2) (armAll l st)) = armedCount x.1 x.2) ∧
  (∀ y, y ∉ (λ x, id x.2) <$> l → liveTimers y (armAll l st) = liveTimers y st).
Proof.
  unfold armAll. revert st. induction l as [|[nowv t] l IH]; intros st Hown Hnodup.
  - simpl. split; [done|]. split; [|done]. intros x Hx. by apply elem_of_nil in Hx.
  - rewrite fmap_cons in Hnodup. apply NoDup_cons in Hnodup as [Hnotin Hnodup].
    simpl in *.
    pose proof (timersOwned_arm nowv t st Hown) as Hown1.
    destruct (IH _ Hown1 Hnodup) as (Hown2 & Hin & Hout).
    split; [done|]. split.
    + intros x Hx. apply elem_of_cons in Hx as [->|Hx]; [|by apply Hin].
      simpl. rewrite Hout by done.
      apply scheduleTaskNotifications_spec. by destruct Hown.
    + intros y Hy. apply not_elem_of_cons in Hy as [Hne Hy].
      rewrite Hout by done. by apply liveTimers_arm_other.
Qed.

(** ** The tasks store *)

Lemma store_fold_absent (l : list Task) (m : gmap string Task) k :
  k ∉ id <$> l → foldl (λ store t, <[id t := t]> store) m l !! k = m !! k.
Proof.
  revert m. induction l as [|a l IH]; intros m Hk; simpl; [done|].
  rewrite fmap_cons in Hk. apply not_elem_of_cons in Hk as [Hne Hk].
  rewrite IH by done. by rewrite lookup_insert_ne.
Qed.

Lemma store_fold_present (l : list Task) (m : gmap string Task) t :
  NoDup (id <$> l) → t ∈ l →
  foldl (λ store t, <[id t := t]> store) m l !! id t = Some t.
Proof.
  revert m. induction l as [|a l IH]; intros m Hnodup Ht; simpl.
  - by apply elem_of_nil in Ht.
  - rewrite fmap_cons in Hnodup. apply NoDup_cons in Hnodup as [Hnotin Hnodup].
    apply elem_of_cons in Ht as [->|Ht].
    + rewrite store_fold_absent by done. apply lookup_insert_eq.
    + by apply IH.
Qed.

Lemma saveTasks_absent l k : k ∉ id <$> l → saveTasks l !! k = None.
Proof. intros Hk. unfold saveTasks. by rewrite store_fold_absent. Qed.

Lemma saveTasks_present l t :
  NoDup (id <$> l) → t ∈ l → saveTasks l !! id t = Some t.
Proof. apply store_fold_present. Qed.

(** X7.  [saveTasks] followed by [getTasks] gives back what was saved:
    for tasks with distinct ids the store holds exactly the saved tasks,
    each under its id, and nothing under any other key. *)
Theorem saveTasks_round_trip l :
  NoDup (id <$> l) →
  map_to_list (saveTasks l) ≡ₚ (λ t, (id t, t)) <$> l ∧
  (∀ t, t ∈ l → saveTasks l !! id t = Some t) ∧
  (∀ k, k ∉ id <$> l → saveTasks l !! k = None).
Proof.
  intros Hnodup.
  split; [|split; [intros t; by apply saveTasks_present | apply saveTasks_absent]].
  assert (((λ t, (id t, t)) <$> l).*1 = id <$> l) as Hkeys.
  { rewrite <- list_fmap_compose. by apply list_fmap_ext. }
  assert (saveTasks l = list_to_map ((λ t, (id t, t)) <$> l)) as ->.
  { apply map_eq. intros k.
    destruct (decide (k ∈ id <$> l)) as [Hin|Hout].
    - apply list_elem_of_fmap in Hin as (t & -> & Ht).
      rewrite saveTasks_present by done. symmetry.
      apply elem_of_list_to_map; [by rewrite Hkeys|].
      apply list_elem_of_fmap. by exists t.
    - rewrite saveTasks_absent by done. symmetry.
      apply not_elem_of_list_to_map. by rewrite Hkeys. }
  apply map_to_list_to_map. by rewrite Hkeys.
Qed.

Lemma saveTasks_round_trip_witness :
  NoDup (id <$> [Scenario.reading; Scenario.gym]) ∧
  saveTasks [Scenario.reading; Scenario.gym] !! "uuid-gym" = Some Scenario.gym.
Proof.
  assert (NoDup (id <$> [Scenario.reading; Scenario.gym])) as Hnodup.
  { simpl. apply NoDup_cons. split; [|apply NoDup_singleton].
    intros Hin. apply list_elem_of_singleton in Hin. discriminate Hin. }
  split; [exact Hnodup|].
  destruct (saveTasks_round_trip [Scenario.reading; Scenario.gym] Hnodup)
    as (_ & Hin & _).
  apply (Hin Scenario.gym). apply list_elem_of_further, list_elem_of_here.
Defined.

(** ** Setting up the day *)

Lemma ids_with_nows (nows : nat → Z) (l : list Task) :
  (λ x : Z * Task, id x.2) <$> imap (λ i t, (nows i, t)) l = id <$> l.
Proof.
  revert nows. induction l as [|t l IH]; intros nows; [done|].
  rewrite imap_cons, !fmap_cons. simpl. f_equal. apply (IH (nows ∘ S)).
Qed.

(** X8.  Arming a schedule.  After [handleSetupComplete] on tasks with
    distinct
    ids, the task list is the new schedule, the store holds every task
    under its id, and every task has exactly the timers its own call of
    [scheduleTaskNotifications] armed: the later calls do not disturb
    them. *)
Theorem setup_complete_arms_every_task nows newTasks st :
  timersOwned (notif st) → NoDup (id <$> newTasks) →
  tasks (handleSetupComplete nows newTasks st) = newTasks ∧
  ∀ i t, newTasks !! i = Some t →
    tasksStore (handleSetupComplete nows newTasks st) !! id t = Some t ∧
    size (liveTimers (id t) (notif (handleSetupComplete nows newTasks st))) =
      armedCount (nows i) t.
Proof.
  intros Hown Hnodup. split; [done|]. intros i t Hi. simpl. split.
  - apply saveTasks_present; [done|]. by eapply list_elem_of_lookup_2.
  - destruct (armAll_spec (imap (λ i t, (nows i, t)) newTasks) (notif st) Hown)
      as (_ & Hin & _); [by rewrite ids_with_nows|].
    apply (Hin (nows i, t)). apply elem_of_lookup_imap. by exists i, t.
Qed.

Lemma setup_complete_arms_every_task_witness :
  size (liveTimers "uuid-meeting"
          (notif (handleSetupComplete (λ _, Scenario.nowD)
                    [Scenario.gym; Scenario.meeting] Scenario.app))) = 2%nat.
Proof.
  assert (NoDup (id <$> [Scenario.gym; Scenario.meeting])) as Hnodup.
  { simpl. apply NoDup_cons. split; [|apply NoDup_singleton].
    intros Hin. apply list_elem_of_singleton in Hin. discriminate Hin. }
  assert (timersOwned (notif Scenario.app)) as Hown.
  { split; [|split; [|split]]; simpl.
    - intros k tm x Hk. simpl in Hk. rewrite lookup_empty in Hk. discriminate.
    - intros x l k tm Hx. rewrite lookup_empty in Hx. discriminate.
    - intros k tm Hk. rewrite lookup_empty in Hk. discriminate.
    - intros x l k Hx. rewrite lookup_empty in Hx. discriminate. }
  destruct (setup_complete_arms_every_task (λ _, Scenario.nowD)
              [Scenario.gym; Scenario.meeting] Scenario.app Hown Hnodup)
    as [_ Hall].
  exact (proj2 (Hall 1%nat Scenario.meeting eq_refl)).
Defined.

(** ** Deleting tasks *)

Lemma liveTimers_cancel_empty x y st :
  liveTimers x st = ∅ → liveTimers x (cancelTaskNotifications y st) = ∅.
Proof.
  rewrite !liveTimers_empty. intros Hnone k tm. unfold cancelTaskNotifications.
  destruct (scheduledNotifications st !! y); [|by apply Hnone]. simpl.
  intros Hk. apply cleared_lookup_Some in Hk as [Hk _]. by eapply Hnone.
Qed.

Lemma fire_cancelled db taskId st timeoutIds k :
  scheduledNotifications st !! taskId = Some timeoutIds → k ∈ timeoutIds →
  fireTimeout db k (cancelTaskNotifications taskId st) =
    ([], cancelTaskNotifications taskId st).
Proof.
  intros Hreg Hk. unfold fireTimeout.
  assert (timeouts (cancelTaskNotifications taskId st) !! k = None) as ->; [|done].
  unfold cancelTaskNotifications. rewrite Hreg. simpl.
  by apply cleared_lookup_elem.
Qed.

(** X9.  Deleting a task.  After [handleDeleteTask] the tasks that remain are
    the tasks with another id, in their order; the store has no task
    under the id; the id has no live timer and no registry entry, and a
    timer that was registered for it shows nothing if the host still runs
    it.  The history is not touched. *)
Theorem deleted_task_is_gone taskId st :
  registryTracks (notif st) →
  tasks (TaskManager.handleDeleteTask taskId st) =
    filter (λ t, id t ≠ taskId) (tasks st) ∧
  tasksStore (TaskManager.handleDeleteTask taskId st) !! taskId = None ∧
  liveTimers taskId (notif (TaskManager.handleDeleteTask taskId st)) = ∅ ∧
  scheduledNotifications (notif (TaskManager.handleDeleteTask taskId st))
    !! taskId = None ∧
  (∀ db timeoutIds k,
     scheduledNotifications (notif st) !! taskId = Some timeoutIds →
     k ∈ timeoutIds →
     (fireTimeout db k (notif (TaskManager.handleDeleteTask taskId st))).1 = []) ∧
  history (TaskManager.handleDeleteTask taskId st) = history st.
Proof.
  intros Htr. simpl.
  destruct (cancelTaskNotifications_spec taskId (notif st) Htr) as (Hreg & Hlive & _).
  split; [done|]. split.
  { apply saveTasks_absent. intros Hin.
    apply list_elem_of_fmap in Hin as (t & -> & Ht).
    by apply list_elem_of_filter in Ht as [Hne _]. }
  split; [done|]. split; [done|]. split; [|done].
  intros db timeoutIds k Hids Hk. by erewrite fire_cancelled.
Qed.

Lemma deleted_task_is_gone_witness :
  liveTimers "uuid-meeting"
    (notif (TaskManager.handleDeleteTask "uuid-meeting"
              (mkApp [Scenario.meeting] [] [] (saveTasks [Scenario.meeting])
                 Scenario.armed))) = ∅ ∧
  (fireTimeout (saveTasks []) 2
     (notif (TaskManager.handleDeleteTask "uuid-meeting"
               (mkApp [Scenario.meeting] [] [] (saveTasks [Scenario.meeting])
                  Scenario.armed)))).1 = [].
Proof.
  assert (registryTracks Scenario.noTimers) as Htr0.
  { intros k tm x Hk. simpl in Hk. rewrite lookup_empty in Hk. discriminate. }
  destruct (scheduleTaskNotifications_spec Scenario.nowD Scenario.meeting
              Scenario.noTimers Htr0) as (Htr & _).
  destruct (deleted_task_is_gone "uuid-meeting"
              (mkApp [Scenario.meeting] [] [] (saveTasks [Scenario.meeting])
                 Scenario.armed) Htr) as (_ & _ & Hlive & _ & Hfire & _).
  split; [exact Hlive|].
  apply (Hfire (saveTasks []) [1%nat; 2%nat] 2%nat).
  - vm_compute. reflexivity.
  - apply list_elem_of_further, list_elem_of_here.
Defined.

Lemma cancel_all_spec (selected : list string) st :
  registryTracks st →
  registryTracks (foldl (λ s x, cancelTaskNotifications x s) st selected) ∧
  (∀ x, x ∈ selected →
     liveTimers x (foldl (λ s x, cancelTaskNotifications x s) st selected) = ∅) ∧
  (∀ x, liveTimers x st = ∅ →
     liveTimers x (foldl (λ s x, cancelTaskNotifications x s) st selected) = ∅).
Proof.
  revert st. induction selected as [|y l IH]; intros st Htr; simpl.
  - split; [done|]. split; [|done]. intros x Hx. by apply elem_of_nil in Hx.
  - destruct (cancelTaskNotifications_spec y st Htr) as (_ & Hlive & Htr1).
    destruct (IH _ Htr1) as (Htr2 & Hin & Hkeep).
    split; [done|]. split.
    + intros x Hx. apply elem_of_cons in Hx as [->|Hx];
        [by apply Hkeep | by apply Hin].
    + intros x Hx. apply Hkeep. by apply liveTimers_cancel_empty.
Qed.

(** X10.  Deleting the selection.  After [handleBulkDelete] no task with a
    selected id is left in the list or in the store, no selected id has a
    live timer, the tasks that were not selected are kept in their order,
    and the selection is empty. *)
Theorem bulk_delete_removes_selection selectedTasks st :
  registryTracks (notif st) →
  tasks (TaskManager.handleBulkDelete selectedTasks st).1 =
    filter (λ t, id t ∉ selectedTasks) (tasks st) ∧
  (TaskManager.handleBulkDelete selectedTasks st).2 = [] ∧
  ∀ x, x ∈ selectedTasks →
    (x ∉ id <$> tasks (TaskManager.handleBulkDelete selectedTasks st).1) ∧
    tasksStore (TaskManager.handleBulkDelete selectedTasks st).1 !! x = None ∧
    liveTimers x (notif (TaskManager.handleBulkDelete selectedTasks st).1) = ∅.
Proof.
  intros Htr. simpl. split; [done|]. split; [done|]. intros x Hx.
  assert (x ∉ id <$> filter (λ t, id t ∉ selectedTasks) (tasks st)) as Hgone.
  { intros Hin. apply list_elem_of_fmap in Hin as (t & -> & Ht).
    by apply list_elem_of_filter in Ht as [Hne _]. }
  split; [done|]. split; [by apply saveTasks_absent|].
  destruct (cancel_all_spec selectedTasks (notif st) Htr) as (_ & Hin & _).
  by apply Hin.
Qed.

Lemma bulk_delete_removes_selection_witness :
  liveTimers "uuid-meeting"
    (notif (TaskManager.handleBulkDelete ["uuid-gym"; "uuid-meeting"]
              (mkApp [Scenario.gym; Scenario.meeting] [] []
                 (saveTasks [Scenario.gym; Scenario.meeting])
                 Scenario.armed)).1) = ∅.
Proof.
  assert (registryTracks Scenario.noTimers) as Htr0.
  { intros k tm x Hk. simpl in Hk. rewrite lookup_empty in Hk. discriminate. }
  destruct (scheduleTaskNotifications_spec Scenario.nowD Scenario.meeting
              Scenario.noTimers Htr0) as (Htr & _).
  destruct (bulk_delete_removes_selection ["uuid-gym"; "uuid-meeting"]
              (mkApp [Scenario.gym; Scenario.meeting] [] []
                 (saveTasks [Scenario.gym; Scenario.meeting]) Scenario.armed)
              Htr) as (_ & _ & Hall).
  apply (Hall "uuid-meeting"). apply list_elem_of_further, list_elem_of_here.
Defined.

(** ** Saving and updating one task *)

Lemma find_by_id_None taskId (l : list Task) :
  List.find (λ t, bool_decide (id t = taskId)) l = None → taskId ∉ id <$> l.
Proof.
  intros Hnone Hin. apply list_elem_of_fmap in Hin as (t & -> & Ht).
  apply list_elem_of_In in Ht.
  pose proof (find_none _ _ Hnone t Ht) as Hf. simpl in Hf.
  by rewrite bool_decide_eq_true_2 in Hf.
Qed.

Lemma find_by_id_Some taskId (l : list Task) t :
  List.find (λ t, bool_decide (id t = taskId)) l = Some t →
  t ∈ l ∧ id t = taskId.
Proof.
  intros H. apply find_some in H as [Hin H].
  split; [by apply list_elem_of_In | by apply bool_decide_eq_true in H].
Qed.

Lemma find_by_id_NoDup (l : list Task) t :
  NoDup (id <$> l) → t ∈ l →
  List.find (λ u, bool_decide (id u = id t)) l = Some t.
Proof.
  induction l as [|a l IH]; intros Hnodup Ht; [by apply elem_of_nil in Ht|].
  rewrite fmap_cons in Hnodup. apply NoDup_cons in Hnodup as [Hnotin Hnodup].
  simpl. apply elem_of_cons in Ht as [->|Ht].
  - by rewrite bool_decide_eq_true_2.
  - rewrite bool_decide_eq_false_2; [by apply IH|].
    intros Heq. apply Hnotin. rewrite Heq. by apply list_elem_of_fmap_2.
Qed.

Lemma replaceById_elem task l :
  id task ∈ id <$> l →
  task ∈ replaceById task l ∧
  ∀ t, id t ≠ id task → t ∈ replaceById task l ↔ t ∈ l.
Proof.
  intros Hin. rewrite replaceById_fmap. split.
  - apply list_elem_of_fmap in Hin as (u & Hid & Hu).
    apply list_elem_of_fmap. exists u. split; [|done].
    by rewrite bool_decide_eq_true_2.
  - intros t Hne. rewrite list_elem_of_fmap. split.
    + intros (u & -> & Hu). by case_bool_decide.
    + intros Ht. exists t. split; [|done]. by rewrite bool_decide_eq_false_2.
Qed.

Lemma upsert_spec task (l : list Task) :
  NoDup (id <$> l) →
  let newTasks :=
    match List.find (λ t, bool_decide (id t = id task)) l with
    | Some _ => replaceById task l
    | None => l ++ [task]
    end in
  NoDup (id <$> newTasks) ∧ task ∈ newTasks ∧
  (∀ t, id t ≠ id task → t ∈ newTasks ↔ t ∈ l) ∧
  id <$> newTasks =
    if bool_decide (id task ∈ id <$> l) then id <$> l
    else (id <$> l) ++ [id task].
Proof.
  intros Hnodup. simpl.
  destruct (List.find _ l) as [u|] eqn:Hfind.
  - apply find_by_id_Some in Hfind as [Hu Hid].
    assert (id task ∈ id <$> l) as Hin.
    { rewrite <- Hid. by apply list_elem_of_fmap_2. }
    destruct (replaceById_elem task l Hin) as [Htask Hother].
    rewrite ids_replaceById, bool_decide_eq_true_2 by done. done.
  - apply find_by_id_None in Hfind.
    rewrite fmap_app, bool_decide_eq_false_2 by done. simpl.
    split; [|split; [|split; [|done]]].
    + apply NoDup_app. split; [done|]. split; [|apply NoDup_singleton].
      intros x Hx Hx'. apply list_elem_of_singleton in Hx'. by subst.
    + apply elem_of_app. right. apply list_elem_of_here.
    + intros t Hne. rewrite elem_of_app, list_elem_of_singleton.
      split; [|by left]. intros [Ht| ->]; done.
Qed.

(** X11.  Saving one task.  [saveTask] of the data context on a list with
    distinct ids is an upsert: a task with a known id takes the place of
    its prior version and a task with a new id goes to the end, so the ids
    stay distinct; every other task stays in the list; the store holds
    every task of the new list under its id; the saved task has the timers
    this call armed and the timers of every other task are untouched. *)
Theorem saveTask_upserts nowv task st :
  timersOwned (notif st) → NoDup (id <$> tasks st) →
  NoDup (id <$> tasks (saveTask nowv task st)) ∧
  id <$> tasks (saveTask nowv task st) =
    (if bool_decide (id task ∈ id <$> tasks st) then id <$> tasks st
     else (id <$> tasks st) ++ [id task]) ∧
  task ∈ tasks (saveTask nowv task st) ∧
  (∀ t, id t ≠ id task → t ∈ tasks (saveTask nowv task st) ↔ t ∈ tasks st) ∧
  (∀ t, t ∈ tasks (saveTask nowv task st) →
        tasksStore (saveTask nowv task st) !! id t = Some t) ∧
  size (liveTimers (id task) (notif (saveTask nowv task st))) =
    armedCount nowv task ∧
  (∀ y, y ≠ id task →
        liveTimers y (notif (saveTask nowv task st)) = liveTimers y (notif st)).
Proof.
  intros Hown Hnodup.
  destruct (upsert_spec task (tasks st) Hnodup) as (Hnd & Htask & Hother & Hids).
  unfold saveTask. simpl.
  split; [done|]. split; [done|]. split; [done|]. split; [done|].
  split; [|split].
  - intros t Ht. by apply saveTasks_present.
  - apply scheduleTaskNotifications_spec. by destruct Hown.
  - intros y Hy. by apply liveTimers_arm_other.
Qed.

Lemma saveTask_upserts_witness :
  tasksStore (saveTask Scenario.nowD Scenario.meeting Scenario.app)
    !! "uuid-meeting" = Some Scenario.meeting ∧
  size (liveTimers "uuid-meeting"
          (notif (saveTask Scenario.nowD Scenario.meeting Scenario.app))) = 2%nat.
Proof.
  assert (NoDup (id <$> tasks Scenario.app)) as Hnodup.
  { simpl. apply NoDup_cons. split; [|apply NoDup_singleton].
    intros Hin. apply list_elem_of_singleton in Hin. discriminate Hin. }
  destruct (saveTask_upserts Scenario.nowD Scenario.meeting Scenario.app
              (timersOwned_fresh 1) Hnodup)
    as (_ & _ & Htask & _ & Hstore & Hsize & _).
  split; [exact (Hstore Scenario.meeting Htask) | exact Hsize].
Defined.

(** X12.  A click on the status button.  On a list with distinct ids
    [toggleStatus] puts the task with its status switched in the place of
    the task and leaves every other task where it is; the store holds the
    new list; the task has the timers its new status asks for (none when
    it is now completed) and the timers of the other tasks are
    untouched. *)
Theorem status_click_changes_one_task clk task st :
  timersOwned (notif st) → NoDup (id <$> tasks st) → task ∈ tasks st →
  tasks (toggleStatus clk (id task) st) =
    (λ t, if bool_decide (t = task) then handleStatusChange task else t)
      <$> tasks st ∧
  (∀ t, t ∈ tasks (toggleStatus clk (id task) st) →
        tasksStore (toggleStatus clk (id task) st) !! id t = Some t) ∧
  size (liveTimers (id task) (notif (toggleStatus clk (id task) st))) =
    armedCount (armNow clk) (handleStatusChange task) ∧
  (∀ y, y ≠ id task →
        liveTimers y (notif (toggleStatus clk (id task) st)) =
        liveTimers y (notif st)).
Proof.
  intros Hown Hnodup Htask. unfold toggleStatus.
  rewrite find_by_id_NoDup by done.
  assert (notif (if bool_decide (status (handleStatusChange task) = completed)
                 then addCompletedTask (completionNow clk) (hourNow clk) st
                        (handleStatusChange task) st
                 else st) = notif st) as Hnotif.
  { case_bool_decide; [|done]. unfold addCompletedTask.
    by destruct (existsb _ _). }
  unfold handleUpdateTask. simpl. simpl in Hnotif. rewrite !Hnotif.
  split; [|split; [|split]].
  - rewrite replaceById_fmap. apply list_fmap_ext. intros i t Hi. simpl.
    assert (id t = id task ↔ t = task) as Hiff.
    { split; [|by intros ->]. intros Heq.
      apply list_elem_of_lookup in Htask as [j Hj].
      assert (i = j); [|by simplify_eq].
      eapply NoDup_lookup; [exact Hnodup| |];
        rewrite list_lookup_fmap; [by rewrite Hi | by rewrite Hj; simpl; f_equal]. }
    by rewrite (bool_decide_ext _ _ Hiff).
  - intros t Ht. apply saveTasks_present; [|done].
    by rewrite ids_replaceById.
  - apply (scheduleTaskNotifications_spec (armNow clk) (handleStatusChange task)).
    by destruct Hown.
  - intros y Hy. by apply liveTimers_arm_other.
Qed.

Lemma status_click_changes_one_task_witness :
  tasks (toggleStatus (Scenario.clockAt 7 0) "uuid-gym" Scenario.app) =
    [Scenario.reading; withStatus Scenario.gym completed] ∧
  size (liveTimers "uuid-gym"
          (notif (toggleStatus (Scenario.clockAt 7 0) "uuid-gym" Scenario.app)))
    = 0%nat.
Proof.
  assert (NoDup (id <$> tasks Scenario.app)) as Hnodup.
  { simpl. apply NoDup_cons. split; [|apply NoDup_singleton].
    intros Hin. apply list_elem_of_singleton in Hin. discriminate Hin. }
  assert (Scenario.gym ∈ tasks Scenario.app) as Hin.
  { apply list_elem_of_further, list_elem_of_here. }
  destruct (status_click_changes_one_task (Scenario.clockAt 7 0) Scenario.gym
              Scenario.app (timersOwned_fresh 1) Hnodup Hin)
    as (Htasks & _ & Hsize & _).
  split; [exact Htasks | exact Hsize].
Defined.

(** ** Completing the selection *)

Lemma addCompletedTask_frame nowv hour render task s :
  tasks (addCompletedTask nowv hour render task s) = tasks s ∧
  tasksStore (addCompletedTask nowv hour render task s) = tasksStore s ∧
  notif (addCompletedTask nowv hour render task s) = notif s.
Proof. unfold addCompletedTask. by destruct (existsb _ _). Qed.

Lemma bulk_fold_frame (clocks : nat → Clock) render (l : list (nat * Task)) s :
  let s' := foldl (λ s '(i, t),
                     addCompletedTask (completionNow (clocks i))
                       (hourNow (clocks i)) render t s) s l in
  tasks s' = tasks s ∧ tasksStore s' = tasksStore s ∧ notif s' = notif s.
Proof.
  revert s. induction l as [|[i t] l IH]; intros s; simpl; [done|].
  destruct (IH (addCompletedTask (completionNow (clocks i)) (hourNow (clocks i))
                  render t s)) as (-> & -> & ->).
  apply addCompletedTask_frame.
Qed.

Lemma bulk_fold_history (clocks : nat → Clock) render (l : list (nat * Task)) s :
  ∃ recs,
    history (foldl (λ s '(i, t),
                      addCompletedTask (completionNow (clocks i))
                        (hourNow (clocks i)) render t s) s l) =
      history s ++ recs ∧
    ct_task <$> recs =
      (λ x, withStatus x.2 completed) <$>
        filter (λ x, recorded (id x.2) (history render) = false) l.
Proof.
  revert s. induction l as [|[i t] l IH]; intros s; simpl.
  - exists []. by rewrite app_nil_r.
  - destruct (IH (addCompletedTask (completionNow (clocks i)) (hourNow (clocks i))
                    render t s)) as (recs & -> & Hrecs).
    unfold addCompletedTask at 1. fold (recorded (id t) (history render)).
    destruct (recorded (id t) (history render)) eqn:Hrec.
    + exists recs. split; [done|].
      by rewrite filter_cons_False by (simpl; congruence).
    + eexists (_ :: recs). split.
      * simpl. by rewrite <- app_assoc.
      * rewrite filter_cons_True by done. by rewrite !fmap_cons, Hrecs.
Qed.

Lemma filter_indexed {B C} (h : nat → C) (g : Task → B) (P : Task → Prop)
    `{!∀ t, Decision (P t)} (l : list Task) :
  (λ x : C * Task, g x.2) <$> filter (λ x, P x.2) (imap (λ i t, (h i, t)) l) =
  g <$> filter P l.
Proof.
  revert h. induction l as [|t l IH]; intros h; [done|].
  rewrite imap_cons. destruct (decide (P t)) as [Ht|Ht].
  - rewrite !filter_cons_True by done. rewrite !fmap_cons. simpl. f_equal.
    apply (IH (h ∘ S)).
  - rewrite !filter_cons_False by done. apply (IH (h ∘ S)).
Qed.

Lemma List_filter_bool_decide {A} (P : A → Prop) `{!∀ x, Decision (P x)} l :
  List.filter (λ x, bool_decide (P x)) l = filter P l.
Proof.
  induction l as [|x l IH]; [done|]. simpl. case_bool_decide.
  - rewrite filter_cons_True by done. by f_equal.
  - by rewrite filter_cons_False.
Qed.

(** X13.  What a bulk completion records.  [handleBulkComplete] appends to the
    history one record for every selected task that had no record when
    the component rendered, in the order of the task list and with the
    status completed, and changes no record that was there. *)
Theorem bulk_complete_records_selection clocks selectedTasks st :
  ∃ recs,
    history (handleBulkComplete clocks selectedTasks st) = history st ++ recs ∧
    ct_task <$> recs =
      (λ t, withStatus t completed) <$>
        filter (λ t, id t ∈ selectedTasks ∧ recorded (id t) (history st) = false)
          (tasks st).
Proof.
  unfold handleBulkComplete.
  destruct (bulk_fold_history clocks st
              (imap pair (List.filter (λ t, bool_decide (id t ∈ selectedTasks))
                            (tasks st)))
              (handleSetTasks
                 (map (λ t, if bool_decide (id t ∈ selectedTasks)
                            then withStatus t completed else t) (tasks st)) st))
    as (recs & Hhist & Hrecs).
  exists recs. split; [exact Hhist|]. rewrite Hrecs.
  etrans;
    [exact (filter_indexed (λ i, i) (λ t, withStatus t completed)
              (λ t, recorded (id t) (history st) = false)
              (List.filter (λ t, bool_decide (id t ∈ selectedTasks)) (tasks st)))|].
  rewrite List_filter_bool_decide, list_filter_filter. f_equal.
  apply list_filter_iff. intros t. tauto.
Qed.

(** X14.  A bulk completion keeps the timers.  [handleBulkComplete] does not
    call the notification service: the timers are as before, while the
    store holds the selected tasks as completed.  So the end timer of a
    selected task, when the host runs it, shows "Task Ended" and not
    "Task Overdue". *)
Theorem bulk_complete_end_timer_says_ended clocks selectedTasks st t task k d :
  NoDup (id <$> tasks st) → t ∈ tasks st → id t ∈ selectedTasks →
  id task = id t →
  timeouts (notif st) !! k = Some (mkTimeout (EndCallback task) d) →
  notif (handleBulkComplete clocks selectedTasks st) = notif st ∧
  tasksStore (handleBulkComplete clocks selectedTasks st) !! id t =
    Some (withStatus t completed) ∧
  (fireTimeout (tasksStore (handleBulkComplete clocks selectedTasks st)) k
     (notif (handleBulkComplete clocks selectedTasks st))).1 =
    [taskEnded (title task) (id task)].
Proof.
  intros Hnodup Ht Hsel Hid Hk. unfold handleBulkComplete.
  destruct (bulk_fold_frame clocks st
              (imap pair (List.filter (λ t, bool_decide (id t ∈ selectedTasks))
                            (tasks st)))
              (handleSetTasks
                 (map (λ t, if bool_decide (id t ∈ selectedTasks)
                            then withStatus t completed else t) (tasks st)) st))
    as (_ & -> & ->).
  simpl.
  assert (saveTasks
            (map (λ t, if bool_decide (id t ∈ selectedTasks)
                       then withStatus t completed else t) (tasks st)) !! id t =
          Some (withStatus t completed)) as Hstore.
  { apply (saveTasks_present _ (withStatus t completed)).
    - rewrite <- list_fmap_compose.
      erewrite list_fmap_ext; [exact Hnodup|]. intros i u _. simpl.
      by case_bool_decide.
    - apply list_elem_of_fmap. exists t. split; [|done].
      by rewrite bool_decide_eq_true_2. }
  split; [done|]. split; [done|].
  unfold fireTimeout. rewrite Hk. simpl. by rewrite Hid, Hstore.
Qed.

Lemma bulk_complete_end_timer_says_ended_witness :
  (fireTimeout
     (tasksStore (handleBulkComplete (λ _, Scenario.clockAt 12 30) ["uuid-meeting"]
                    (mkApp [Scenario.meeting] [] [] (saveTasks [Scenario.meeting])
                       Scenario.armed)))
     2
     (notif (handleBulkComplete (λ _, Scenario.clockAt 12 30) ["uuid-meeting"]
               (mkApp [Scenario.meeting] [] [] (saveTasks [Scenario.meeting])
                  Scenario.armed)))).1 =
    [taskEnded "Meeting" "uuid-meeting"].
Proof.
  assert (timeouts Scenario.armed !! 2%nat =
          Some (mkTimeout (EndCallback Scenario.meeting) (endTime Scenario.meeting)))
    as Hk by (vm_compute; reflexivity).
  assert (NoDup (id <$> [Scenario.meeting])) as Hnodup by apply NoDup_singleton.
  assert (Scenario.meeting ∈ [Scenario.meeting]) as Hin by apply list_elem_of_here.
  assert ("uuid-meeting" ∈ ["uuid-meeting"]) as Hsel by apply list_elem_of_here.
  exact (proj2 (proj2 (bulk_complete_end_timer_says_ended
                         (λ _, Scenario.clockAt 12 30) ["uuid-meeting"]
                         (mkApp [Scenario.meeting] [] []
                            (saveTasks [Scenario.meeting]) Scenario.armed)
                         Scenario.meeting Scenario.meeting 2 _
                         Hnodup Hin Hsel eq_refl Hk))).
Defined.

(** ** The selection *)

(** X15.  Selecting and unselecting.  [handleToggleSelect] flips the
    membership
    of the id it is given and of no other id, keeps a selection free of
    duplicates free of them, and applied twice gives a selection with
    the same members. *)
Theorem toggle_select_flips taskId prev :
  (taskId ∈ TaskManager.handleToggleSelect taskId prev ↔ taskId ∉ prev) ∧
  (∀ y, y ≠ taskId →
        y ∈ TaskManager.handleToggleSelect taskId prev ↔ y ∈ prev) ∧
  (NoDup prev → NoDup (TaskManager.handleToggleSelect taskId prev)) ∧
  (∀ y, y ∈ TaskManager.handleToggleSelect taskId
              (TaskManager.handleToggleSelect taskId prev) ↔ y ∈ prev).
Proof.
  assert (∀ l,
    (taskId ∈ TaskManager.handleToggleSelect taskId l ↔ taskId ∉ l) ∧
    (∀ y, y ≠ taskId → y ∈ TaskManager.handleToggleSelect taskId l ↔ y ∈ l))
    as Hflip.
  { intros l. unfold TaskManager.handleToggleSelect. case_bool_decide as Hin.
    - split.
      + rewrite list_elem_of_filter. tauto.
      + intros y Hy. rewrite list_elem_of_filter. tauto.
    - split.
      + rewrite elem_of_app, list_elem_of_singleton. tauto.
      + intros y Hy. rewrite elem_of_app, list_elem_of_singleton. tauto. }
  destruct (Hflip prev) as [Hself Hother].
  split; [done|]. split; [done|]. split.
  - intros Hnodup. unfold TaskManager.handleToggleSelect.
    case_bool_decide as Hin.
    + by apply NoDup_filter.
    + apply NoDup_app. split; [done|]. split; [|apply NoDup_singleton].
      intros x Hx Hx'. apply list_elem_of_singleton in Hx'. by subst.
  - intros y. destruct (Hflip (TaskManager.handleToggleSelect taskId prev))
      as [Hself2 Hother2].
    destruct (decide (y = taskId)) as [->|Hne].
    + rewrite Hself2, Hself. destruct (decide (taskId ∈ prev)); tauto.
    + by rewrite Hother2, Hother.
Qed.

Lemma toggle_select_flips_witness :
  NoDup (TaskManager.handleToggleSelect "uuid-gym" ["uuid-reading"; "uuid-gym"]).
Proof.
  apply (toggle_select_flips "uuid-gym" ["uuid-reading"; "uuid-gym"]).
  apply NoDup_cons. split; [|apply NoDup_singleton].
  intros Hin. apply list_elem_of_singleton in Hin. discriminate Hin.
Defined.

(** ** Drag and drop *)

Lemma findIndexFrom_id k (l : list Task) i x :
  NoDup (id <$> l) → (id <$> l) !! i = Some x →
  findIndexFrom (λ t, bool_decide (id t = x)) k l = k + Z.of_nat i.
Proof.
  revert k i. induction l as [|a l IH]; intros k i Hnodup Hi; [done|].
  rewrite fmap_cons in Hnodup, Hi. apply NoDup_cons in Hnodup as [Hnotin Hnodup].
  destruct i as [|i]; simpl in *.
  - injection Hi as ->. rewrite bool_decide_eq_true_2 by done. lia.
  - rewrite bool_decide_eq_false_2.
    + rewrite (IH (k + 1) i) by done. lia.
    + intros Heq. apply Hnotin. rewrite Heq. by eapply list_elem_of_lookup_2.
Qed.

Lemma splice_at {A} (l : list A) (i : nat) deleteCount items :
  (i ≤ length l)%nat →
  splice l (Z.of_nat i) deleteCount items =
  (take deleteCount (drop i l), take i l ++ items ++ drop (i + deleteCount) l).
Proof.
  intros Hi. unfold splice.
  destruct (Z.ltb_spec (Z.of_nat i) 0) as [Hlt|_]; [lia|].
  by replace (Z.to_nat (Z.min (Z.of_nat i) (Z.of_nat (length l)))) with i by lia.
Qed.

Lemma imap_fmap_Some (f : nat → Task → Task) (l : list Task) :
  imap (λ index (t : option Task), f index <$> t) (Some <$> l) =
  Some <$> imap f l.
Proof.
  revert f. induction l as [|a l IH]; intros f; [done|].
  rewrite fmap_cons, !imap_cons, fmap_cons. f_equal. apply (IH (f ∘ S)).
Qed.

Lemma filter_take_drop {A} (P : A → Prop) `{!∀ x, Decision (P x)} (l : list A) j :
  filter P (take j l) ++ filter P (drop j l) = filter P l.
Proof. by rewrite <- filter_app, take_drop. Qed.

(** X16.  Dropping a task on another one.  On a list with distinct ids, when
    the dragged task and the target are both in the list and differ,
    [handleDrop] hands over a list of the same tasks in which the dragged
    task stands at the position the target had, the other tasks keep
    their relative order, and the [order] field of every task is its
    position. *)
Theorem drop_moves_dragged_to_target dragging target tasks i j :
  NoDup (id <$> tasks) →
  (id <$> tasks) !! i = Some (id dragging) →
  (id <$> tasks) !! j = Some (id target) →
  id target ≠ id dragging →
  ∃ out,
    TaskManager.handleDrop (Some dragging) target tasks = Some (Some <$> out) ∧
    length out = length tasks ∧
    (id <$> out) !! j = Some (id dragging) ∧
    filter (λ x, x ≠ id dragging) (id <$> out) =
      filter (λ x, x ≠ id dragging) (id <$> tasks) ∧
    ∀ k t, out !! k = Some t →
      order t = Z.of_nat k ∧ ∃ u, u ∈ tasks ∧ t = withOrder u (Z.of_nat k).
Proof.
  intros Hnodup Hi Hj Hne.
  pose proof (lookup_lt_Some _ _ _ Hi) as Hilt.
  pose proof (lookup_lt_Some _ _ _ Hj) as Hjlt.
  rewrite length_fmap in Hilt, Hjlt.
  rewrite list_lookup_fmap in Hi.
  destruct (tasks !! i) as [u|] eqn:Hu; [|done]. simpl in Hi.
  injection Hi as Hidu.
  set (d := delete i tasks).
  assert (length d = pred (length tasks)) as Hlen.
  { unfold d. rewrite length_delete; [lia|by eexists]. }
  set (out0 := take j d ++ [u] ++ drop j d).
  exists (imap (λ index t, withOrder t (Z.of_nat index)) out0).
  assert (length out0 = length tasks) as Hlen0.
  { unfold out0. rewrite !length_app, length_take, length_drop. simpl. lia. }
  split; [|split; [|split; [|split]]].
  - unfold TaskManager.handleDrop. rewrite bool_decide_eq_true_2 by done.
    unfold findIndex. rewrite (findIndexFrom_id 0 tasks i) by
      (by rewrite ?list_lookup_fmap, ?Hu; simpl; f_equal).
    rewrite (findIndexFrom_id 0 tasks j) by done.
    rewrite !Z.add_0_l.
    rewrite splice_at by (rewrite length_fmap; lia).
    assert (take 1 (drop i (Some <$> tasks)) = [Some u]) as ->.
    { rewrite <- fmap_drop, <- fmap_take.
      by rewrite (drop_S _ _ _ Hu). }
    assert (take i (Some <$> tasks) ++ [] ++ drop (i + 1) (Some <$> tasks) =
            Some <$> d) as ->.
    { unfold d. rewrite delete_take_drop, fmap_app, fmap_take, fmap_drop.
      simpl. by rewrite Nat.add_1_r. }
    cbn -[splice].
    rewrite splice_at by (rewrite length_fmap; lia).
    f_equal. rewrite Nat.add_0_r.
    assert (take j (Some <$> d) ++ [Some u] ++ drop j (Some <$> d) =
            Some <$> out0) as ->.
    { unfold out0. by rewrite !fmap_app, fmap_take, fmap_drop. }
    apply imap_fmap_Some.
  - by rewrite length_imap.
  - rewrite list_lookup_fmap, list_lookup_imap. unfold out0.
    rewrite lookup_app_r by (rewrite length_take; lia).
    rewrite length_take.
    replace (j - j `min` length d)%nat with 0%nat by lia. simpl.
    by f_equal.
  - assert (id <$> imap (λ index t, withOrder t (Z.of_nat index)) out0 =
            id <$> out0) as ->.
    { by apply (map_imap_invariant id). }
    unfold out0. rewrite !fmap_app, !filter_app. simpl.
    rewrite filter_cons_False, filter_nil by (intros Hn; by apply Hn).
    rewrite app_nil_l, fmap_take, fmap_drop, filter_take_drop.
    unfold d. rewrite delete_take_drop.
    rewrite <- (take_drop_middle tasks i u Hu) at 3.
    rewrite !fmap_app, fmap_cons, !filter_app.
    by rewrite filter_cons_False by (intros Hn; by apply Hn).
  - intros k t Hk. rewrite list_lookup_imap in Hk.
    destruct (out0 !! k) as [u'|] eqn:Hu'; [|done]. simpl in Hk.
    injection Hk as <-. split; [done|]. exists u'. split; [|done].
    apply list_elem_of_lookup_2 in Hu'. unfold out0 in Hu'.
    rewrite !elem_of_app, list_elem_of_singleton in Hu'.
    assert (∀ x, x ∈ d → x ∈ tasks) as Hd.
    { intros x Hx. by eapply list_elem_of_delete_inv. }
    destruct Hu' as [Hin|[->|Hin]].
    + apply Hd. eapply elem_of_sublist; [exact Hin | apply sublist_take].
    + by eapply list_elem_of_lookup_2.
    + apply Hd. eapply elem_of_sublist; [exact Hin | apply sublist_drop].
Qed.

Lemma drop_moves_dragged_to_target_witness :
  ∃ out,
    TaskManager.handleDrop (Some Scenario.gym) Scenario.reading
      [Scenario.reading; Scenario.gym] = Some (Some <$> out) ∧
    (id <$> out) !! 0%nat = Some "uuid-gym".
Proof.
  assert (NoDup (id <$> [Scenario.reading; Scenario.gym])) as Hnodup.
  { simpl. apply NoDup_cons. split; [|apply NoDup_singleton].
    intros Hin. apply list_elem_of_singleton in Hin. discriminate Hin. }
  destruct (drop_moves_dragged_to_target Scenario.gym Scenario.reading
              [Scenario.reading; Scenario.gym] 1 0 Hnodup eq_refl eq_refl
              ltac:(discriminate))
    as (out & Hout & _ & Hpos & _).
  exists out. split; [exact Hout | exact Hpos].
Defined.

(** A dragged task that is no longer in the list: [findIndex] gives -1
    and [splice(-1, 1)] takes the last task, which is moved instead. *)
Example handleDrop_of_a_task_that_left :
  TaskManager.handleDrop (Some Scenario.meeting) Scenario.reading
    [Scenario.reading; Scenario.gym] =
  Some [Some (withOrder Scenario.gym 0); Some (withOrder Scenario.reading 1)].
Proof. vm_compute. reflexivity. Qed.

(** On an empty list the first [splice] removes nothing and the list that
    is handed over holds one object without the fields of a task. *)
Example handleDrop_on_no_tasks :
  TaskManager.handleDrop (Some Scenario.gym) Scenario.reading [] = Some [None].
Proof. vm_compute. reflexivity. Qed.

(** ** The task list that is shown *)

Lemma elem_of_List_filter {A} (f : A → bool) (l : list A) x :
  x ∈ List.filter f l ↔ x ∈ l ∧ f x = true.
Proof. rewrite !list_elem_of_In. apply filter_In. Qed.

Lemma List_filter_submseteq {A} (f : A → bool) (l : list A) :
  List.filter f l ⊆+ l.
Proof.
  induction l as [|x l IH]; simpl; [done|].
  destruct (f x); [by apply submseteq_skip | by apply submseteq_cons].
Qed.

(** X17.  The list the TaskManager shows.  Whatever the lower-casing of
    the host is, [filteredTasks] is in ascending [order]; it holds
    exactly the tasks that pass the search (no term, or the lower-cased
    term occurs in the lower-cased title), the status filter and the
    category filter, each at most as often as the task list does; and
    two terms with the same lower-case form, both empty or both not,
    show the same list. *)
Theorem filteredTasks_shows_matching_in_order lowerCase searchTerm
    statusFilter categoryFilter tasks :
  Sorted (λ a b, order a ≤ order b)
    (TaskManager.filteredTasks lowerCase searchTerm statusFilter
       categoryFilter tasks) ∧
  TaskManager.filteredTasks lowerCase searchTerm statusFilter categoryFilter
    tasks ⊆+ tasks ∧
  (∀ t, t ∈ TaskManager.filteredTasks lowerCase searchTerm statusFilter
              categoryFilter tasks ↔
        t ∈ tasks ∧
        (searchTerm = EmptyString ∨
         includes (lowerCase (title t)) (lowerCase searchTerm) = true) ∧
        match statusFilter with
        | TaskManager.allStatuses => True
        | TaskManager.onlyStatus s => status t = s
        end ∧
        (categoryFilter = "all" ∨ categoryId t = categoryFilter)) ∧
  (∀ other,
     lowerCase other = lowerCase searchTerm →
     (other = EmptyString ↔ searchTerm = EmptyString) →
     TaskManager.filteredTasks lowerCase other statusFilter categoryFilter
       tasks =
     TaskManager.filteredTasks lowerCase searchTerm statusFilter
       categoryFilter tasks).
Proof.
  unfold TaskManager.filteredTasks. split; [apply (sortBy_Sorted order)|].
  split.
  { rewrite sortBy_Permutation.
    etrans; [apply List_filter_submseteq|].
    etrans; [apply List_filter_submseteq|]. apply List_filter_submseteq. }
  split.
  - intros t. rewrite sortBy_Permutation, !elem_of_List_filter.
    rewrite !orb_true_iff, !bool_decide_eq_true.
    destruct statusFilter as [|s]; [|rewrite bool_decide_eq_true]; tauto.
  - intros other Hlower Hempty. do 3 f_equal.
    apply filter_ext. intros t. rewrite Hlower. f_equal.
    by apply bool_decide_ext.
Qed.

Lemma filteredTasks_shows_matching_in_order_witness :
  TaskManager.filteredTasks toLowerCase "GYM" TaskManager.allStatuses "all"
    [Scenario.reading; Scenario.gym] =
  TaskManager.filteredTasks toLowerCase "gym" TaskManager.allStatuses "all"
    [Scenario.reading; Scenario.gym].
Proof.
  apply (filteredTasks_shows_matching_in_order toLowerCase "gym"
           TaskManager.allStatuses "all" [Scenario.reading; Scenario.gym]).
  - reflexivity.
  - split; discriminate.
Defined.

(** With the lower-casing of the ASCII letters, the search for "GYM"
    shows the task "Gym" and no other. *)
Example filteredTasks_search :
  TaskManager.filteredTasks toLowerCase "GYM" TaskManager.allStatuses "all"
    [Scenario.reading; Scenario.gym] = [Scenario.gym].
Proof. vm_compute. reflexivity. Qed.

(** ** The activity chart *)

Lemma mapGet_cons k k' v (m : list (string * Z)) :
  mapGet k ((k', v) :: m) = if bool_decide (k' = k) then Some v else mapGet k m.
Proof. unfold mapGet. simpl. by case_bool_decide. Qed.

Lemma mapGet_mapSet k k' v m :
  mapGet k' (mapSet k v m) = if bool_decide (k = k') then Some v else mapGet k' m.
Proof.
  induction m as [|[k0 v0] m IH]; cbn [mapSet].
  - rewrite mapGet_cons. by case_bool_decide.
  - destruct (decide (k0 = k)) as [->|Hk0].
    + rewrite (bool_decide_eq_true_2 (k = k)) by done. rewrite !mapGet_cons.
      by case_bool_decide.
    + rewrite (bool_decide_eq_false_2 (k0 = k)) by done.
      rewrite !mapGet_cons, IH. repeat case_bool_decide; congruence.
Qed.

Lemma mapGet_is_Some k (m : list (string * Z)) : is_Some (mapGet k m) ↔ k ∈ m.*1.
Proof.
  induction m as [|[k0 v0] m IH].
  - split; [by intros [? ?] | intros H; by apply elem_of_nil in H].
  - rewrite mapGet_cons, fmap_cons, elem_of_cons. simpl. case_bool_decide.
    + split; [by left | by eexists].
    + rewrite IH. split; [by right | intros [?|?]; congruence].
Qed.

Lemma keys_mapSet k v m :
  (mapSet k v m).*1 = if bool_decide (k ∈ m.*1) then m.*1 else m.*1 ++ [k].
Proof.
  induction m as [|[k0 v0] m IH]; cbn [mapSet].
  - by rewrite bool_decide_eq_false_2 by apply not_elem_of_nil.
  - destruct (decide (k0 = k)) as [->|Hk0].
    + rewrite (bool_decide_eq_true_2 (k = k)) by done. rewrite !fmap_cons.
      simpl. by rewrite bool_decide_eq_true_2 by apply list_elem_of_here.
    + rewrite (bool_decide_eq_false_2 (k0 = k)) by done. rewrite !fmap_cons.
      cbn [fst].
      rewrite IH. destruct (decide (k ∈ m.*1)) as [Hin|Hin].
      * rewrite !bool_decide_eq_true_2; [done| |done].
        by apply list_elem_of_further.
      * rewrite !bool_decide_eq_false_2; [done| |done].
        rewrite not_elem_of_cons. split; [congruence | done].
Qed.

Lemma values_mapSet k v m :
  foldr Z.add 0 (mapSet k v m).*2 =
  foldr Z.add 0 m.*2 - default 0 (mapGet k m) + v.
Proof.
  induction m as [|[k0 v0] m IH]; [simpl; lia|].
  rewrite mapGet_cons. cbn [mapSet].
  destruct (decide (k0 = k)) as [->|Hk0].
  - rewrite !(bool_decide_eq_true_2 (k = k)) by done. simpl. lia.
  - rewrite !(bool_decide_eq_false_2 (k0 = k)) by done.
    rewrite !fmap_cons. cbn [foldr snd]. rewrite IH. lia.
Qed.

Lemma categoryTime_snoc (history : list CompletedTask) (task : CompletedTask) :
  categoryTime (history ++ [task]) =
  mapSet (categoryId task)
    (default 0 (mapGet (categoryId task) (categoryTime history))
     + (endTime task - startTime task))
    (categoryTime history).
Proof. unfold categoryTime. by rewrite foldl_app. Qed.

Lemma recordedTime_app h1 h2 :
  recordedTime (h1 ++ h2) = recordedTime h1 + recordedTime h2.
Proof. induction h1 as [|r h1 IH]; simpl; [done|]. rewrite IH. lia. Qed.

Lemma timeInCategory_snoc c history (task : CompletedTask) :
  timeInCategory c (history ++ [task]) =
  timeInCategory c history +
  (if bool_decide (categoryId task = c) then endTime task - startTime task
   else 0).
Proof.
  unfold timeInCategory. rewrite filter_app, recordedTime_app. f_equal.
  case_bool_decide.
  - rewrite filter_cons_True by done. simpl. lia.
  - by rewrite filter_cons_False.
Qed.

Lemma timeInCategory_absent c (history : list CompletedTask) :
  c ∉ (λ r : CompletedTask, categoryId r) <$> history →
  timeInCategory c history = 0.
Proof.
  intros Hc. unfold timeInCategory.
  induction history as [|r history IH]; [done|].
  rewrite fmap_cons in Hc. apply not_elem_of_cons in Hc as [Hne Hc].
  rewrite filter_cons_False by (simpl; congruence). by apply IH.
Qed.

(** X18.  The chart of the time spent.  [pieData] has one slice for every
    category that occurs in the history and no other; the value of the
    slice of a category is the time the records of that category took;
    and the values of all slices add up to the time of all records. *)
Theorem pie_chart_adds_up history categories :
  ps_value <$> pieData history categories = (categoryTime history).*2 ∧
  NoDup (categoryTime history).*1 ∧
  (∀ c, mapGet c (categoryTime history) =
        if bool_decide (c ∈ (λ r : CompletedTask, categoryId r) <$> history)
        then Some (timeInCategory c history) else None) ∧
  foldr Z.add 0 (ps_value <$> pieData history categories) =
    recordedTime history.
Proof.
  assert (ps_value <$> pieData history categories = (categoryTime history).*2)
    as Hvalues.
  { unfold pieData. rewrite <- list_fmap_compose.
    apply list_fmap_ext. by intros i [catId time] _. }
  split; [done|]. rewrite Hvalues. clear Hvalues categories.
  induction history as [|task history IH] using rev_ind.
  - split; [constructor|]. split; [|done]. intros c.
    by rewrite bool_decide_eq_false_2 by apply not_elem_of_nil.
  - destruct IH as (Hnodup & Hget & Htotal).
    rewrite categoryTime_snoc. split; [|split].
    + rewrite keys_mapSet. case_bool_decide as Hin; [done|].
      apply NoDup_app. split; [done|]. split; [|apply NoDup_singleton].
      intros x Hx Hx'. apply list_elem_of_singleton in Hx'. by subst.
    + intros c. rewrite mapGet_mapSet, timeInCategory_snoc, fmap_app.
      case_bool_decide as Hcat.
      * subst c. rewrite bool_decide_eq_true_2
          by (apply elem_of_app; right; apply list_elem_of_here).
        rewrite Hget. f_equal. case_bool_decide as Hin; simpl; [done|].
        by rewrite timeInCategory_absent.
      * rewrite Hget, Z.add_0_r. apply (f_equal (λ b : bool, if b then _ else _)).
        apply bool_decide_ext. rewrite elem_of_app. simpl.
        rewrite list_elem_of_singleton. split; [tauto|].
        intros [?|?]; [done|congruence].
    + rewrite values_mapSet, recordedTime_app, Htotal. simpl. lia.
Qed.

(** ** Accounts and the session *)

Lemma elem_of_getAllUsers u db :
  u ∈ getAllUsers db ↔ ∃ k, usersStore db !! k = Some u.
Proof.
  unfold getAllUsers. change (map snd) with (fmap (M:=list) (@snd nat User)).
  rewrite list_elem_of_fmap. split.
  - intros ([k u'] & -> & Hin). rewrite sortBy_Permutation in Hin.
    apply elem_of_map_to_list in Hin. by exists k.
  - intros [k Hk]. exists (k, u). split; [done|].
    rewrite sortBy_Permutation. by apply elem_of_map_to_list.
Qed.

Lemma getUserByEmail_Some email db u :
  getUserByEmail email db = Some u →
  u_email u = email ∧ ∃ k, usersStore db !! k = Some u.
Proof.
  unfold getUserByEmail. intros Hfind. apply find_some in Hfind as [Hin Hemail].
  apply bool_decide_eq_true in Hemail. split; [done|].
  apply elem_of_getAllUsers. by apply list_elem_of_In.
Qed.

Lemma getUserByEmail_None email db k u :
  getUserByEmail email db = None → usersStore db !! k = Some u →
  u_email u ≠ email.
Proof.
  unfold getUserByEmail. intros Hfind Hk Hemail.
  assert (u ∈ getAllUsers db) as Hin by (apply elem_of_getAllUsers; by exists k).
  apply list_elem_of_In in Hin.
  pose proof (find_none _ _ Hfind u Hin) as Hf. simpl in Hf.
  by rewrite bool_decide_eq_true_2 in Hf.
Qed.

Lemma getUserByEmail_only email db k u :
  usersStore db !! k = Some u → u_email u = email →
  (∀ k' u', usersStore db !! k' = Some u' → u_email u' = email → u' = u) →
  getUserByEmail email db = Some u.
Proof.
  intros Hk Hemail Honly.
  destruct (getUserByEmail email db) as [u'|] eqn:Hfind.
  - apply getUserByEmail_Some in Hfind as [Hemail' [k' Hk']].
    f_equal. by eapply Honly.
  - exfalso. by eapply getUserByEmail_None.
Qed.

(** X19.  Signing up and logging in.  When no account has the email, [signup]
    succeeds, stores the account under the next key of the [users] store
    and makes it the user; after a logout, [login] with the same email and
    password succeeds and gives that account back, [login] with another
    password fails and changes nothing, and a second [signup] with the
    email is refused and changes nothing. *)
Theorem signup_then_login name email password st :
  getUserByEmail email (userDb st) = None →
  let account :=
    mkUser (Some (usersKeyGenerator (userDb st))) name email (Some password)
      None None in
  let st1 := (signup name email password st).2 in
  (signup name email password st).1 = true ∧
  user st1 = Some account ∧
  getUser (usersKeyGenerator (userDb st)) (userDb st1) = Some account ∧
  (login email password (logout st1)).1 = true ∧
  user (login email password (logout st1)).2 = Some account ∧
  (∀ other, other ≠ password →
     login email other (logout st1) = (false, logout st1)) ∧
  (∀ name' password', signup name' email password' st1 = (false, st1)).
Proof.
  intros Hfree account st1.
  assert (signup name email password st =
          (true, mkAuth (setCurrentUser account
                           (mkUserDb (<[usersKeyGenerator (userDb st) := account]>
                                        (usersStore (userDb st)))
                              (S (usersKeyGenerator (userDb st)))
                              (currentUserStore (userDb st))))
                   (Some account))) as Hsignup.
  { unfold signup. by rewrite Hfree. }
  assert (∀ db', usersStore db' =
                 <[usersKeyGenerator (userDb st) := account]>
                   (usersStore (userDb st)) →
                 getUserByEmail email db' = Some account) as Hfound.
  { intros db' Hdb'. apply (getUserByEmail_only email db'
                              (usersKeyGenerator (userDb st))).
    - rewrite Hdb'. apply lookup_insert_eq.
    - done.
    - intros k' u' Hk' Hemail. rewrite Hdb' in Hk'.
      apply lookup_insert_Some in Hk' as [[_ <-]|[_ Hk']]; [done|].
      exfalso. by eapply getUserByEmail_None. }
  unfold st1. rewrite Hsignup. simpl.
  split; [done|]. split; [done|]. split; [apply lookup_insert_eq|].
  unfold login, signup. simpl. rewrite !Hfound by done. simpl.
  rewrite bool_decide_eq_true_2 by done. simpl.
  split; [done|]. split; [done|]. split; [|done].
  intros other Hother. rewrite bool_decide_eq_false_2; [done|]. congruence.
Qed.

Lemma signup_then_login_witness :
  user (login "ann@example.org" "secret"
          (logout (signup "Ann" "ann@example.org" "secret"
                     (mountAuth newUserDb)).2)).2 =
  Some (mkUser (Some 1%nat) "Ann" "ann@example.org" (Some "secret") None None).
Proof.
  assert (getUserByEmail "ann@example.org" (userDb (mountAuth newUserDb)) = None)
    as Hfree by (vm_compute; reflexivity).
  destruct (signup_then_login "Ann" "ann@example.org" "secret"
              (mountAuth newUserDb) Hfree) as (_ & _ & _ & _ & Huser & _).
  exact Huser.
Defined.

(** X20.  Restoring the session.  [setCurrentUser] stores the session record
    under the key 1 with its id set to 1, and [checkUser] reads the id of
    that record: when the page is loaded after a login, the user is the
    account stored under the id 1 of the [users] store (or nobody when
    there is none), whichever account logged in.  After a logout nobody
    is restored. *)
Theorem session_restore_reads_account_1 email password st :
  (login email password st).1 = true →
  user (checkUser (mountAuth (userDb (login email password st).2))) =
    getUser 1 (userDb st) ∧
  user (checkUser (mountAuth (userDb (logout (login email password st).2)))) =
    None.
Proof.
  unfold login. destruct (getUserByEmail email (userDb st)) as [found|]; [|done].
  case_bool_decide; [|done]. intros _. simpl. split.
  - unfold checkUser, getCurrentUser, setCurrentUser. simpl.
    by rewrite lookup_insert_eq.
  - unfold checkUser, getCurrentUser, logout, clearCurrentUser. simpl.
    by rewrite lookup_delete_eq.
Qed.

Lemma session_restore_reads_account_1_witness :
  user (login "bea@example.org" "hidden"
          (signup "Bea" "bea@example.org" "hidden"
             (signup "Ann" "ann@example.org" "secret"
                (mountAuth newUserDb)).2).2).2 =
    Some (mkUser (Some 2%nat) "Bea" "bea@example.org" (Some "hidden") None None) ∧
  user (checkUser
          (mountAuth
             (userDb
                (login "bea@example.org" "hidden"
                   (signup "Bea" "bea@example.org" "hidden"
                      (signup "Ann" "ann@example.org" "secret"
                         (mountAuth newUserDb)).2).2).2))) =
    Some (mkUser (Some 1%nat) "Ann" "ann@example.org" (Some "secret") None None).
Proof.
  split; [vm_compute; reflexivity|].
  etrans;
    [exact (proj1 (session_restore_reads_account_1 "bea@example.org" "hidden"
                     (signup "Bea" "bea@example.org" "hidden"
                        (signup "Ann" "ann@example.org" "secret"
                           (mountAuth newUserDb)).2).2
                     ltac:(vm_compute; reflexivity)))|].
  vm_compute. reflexivity.
Defined.

(** ** The task form *)

(** X21.  Saving from the duration fields.  For a task that does not end
    before
    it starts, the effect of the TaskModal splits its length into hours
    that are not negative and minutes from 0 to 59; submitting the form
    in duration mode with nothing changed keeps the start and every other
    field and gives the end [start + 60000 * wholeMinutes], which is the
    end of the task when its length is a whole number of minutes.  (The
    start field is taken to parse back to the start of the task: it holds
    the start to the minute.) *)
Theorem duration_fields_round_trip task categories dr endMs :
  id task ≠ EmptyString → title task ≠ EmptyString →
  categoryId task ≠ EmptyString → createdAt task ≠ 0 →
  startTime task ≤ endTime task →
  let form :=
    switchTimeInputMode
      (openTaskModal (Some task) categories (startTime task) endMs) in
  0 ≤ f_hours form ∧ 0 ≤ f_minutes form < 60 ∧
  f_hours form * 60 + f_minutes form =
    diffMinutes (startTime task) (endTime task) ∧
  handleSubmit (Some task) dr form =
    Some (mkTask (id task) (title task)
            (Some (default EmptyString (description task))) (startTime task)
            (startTime task +
             60000 * diffMinutes (startTime task) (endTime task))
            (status task) (priority task) (categoryId task) (order task)
            (createdAt task)) ∧
  ((endTime task - startTime task) `mod` 60000 = 0 →
   startTime task + 60000 * diffMinutes (startTime task) (endTime task) =
     endTime task).
Proof.
  intros Hid Htitle Hcat Hcreated Hle form.
  assert (0 ≤ diffMinutes (startTime task) (endTime task)) as Hdiff.
  { unfold diffMinutes. apply Z.quot_pos; lia. }
  assert (f_hours form = diffMinutes (startTime task) (endTime task) / 60)
    as Hhours by done.
  assert (f_minutes form = diffMinutes (startTime task) (endTime task) `mod` 60)
    as Hminutes.
  { unfold form. simpl. apply Z.rem_mod_nonneg; lia. }
  pose proof (Z.div_mod (diffMinutes (startTime task) (endTime task)) 60
                ltac:(lia)) as Hsplit.
  pose proof (Z.mod_pos_bound (diffMinutes (startTime task) (endTime task)) 60
                ltac:(lia)) as Hbound.
  assert (0 ≤ diffMinutes (startTime task) (endTime task) / 60) as Hq
    by (apply Z.div_pos; lia).
  rewrite Hhours, Hminutes.
  split; [lia|]. split; [lia|]. split; [lia|]. split.
  - unfold handleSubmit.
    assert (f_title form = title task) as -> by done.
    assert (f_categoryId form = categoryId task) as ->.
    { unfold form. simpl. by rewrite bool_decide_eq_false_2. }
    rewrite !bool_decide_eq_false_2 by done. simpl.
    destruct (Z.eqb_spec (createdAt task) 0) as [?|_]; [done|].
    do 2 f_equal. rewrite Z.rem_mod_nonneg by lia. lia.
  - intros Hwhole. unfold diffMinutes.
    rewrite Z.quot_div_nonneg by lia.
    pose proof (Z.div_mod (endTime task - startTime task) 60000 ltac:(lia)).
    lia.
Qed.

Lemma duration_fields_round_trip_witness :
  handleSubmit (Some Scenario.gym) (mkDraw "uuid-new" 0)
    (switchTimeInputMode
       (openTaskModal (Some Scenario.gym) Scenario.categories
          (startTime Scenario.gym) (endTime Scenario.gym))) =
  Some (mkTask "uuid-gym" "Gym" (Some EmptyString) (Scenario.at_ 9 30)
          (Scenario.at_ 10 30) pending medium "exercise" 1
          (Scenario.today + 35000001)).
Proof.
  destruct (duration_fields_round_trip Scenario.gym Scenario.categories
              (mkDraw "uuid-new" 0) (endTime Scenario.gym)
              ltac:(discriminate) ltac:(discriminate) ltac:(discriminate)
              ltac:(vm_compute; discriminate) ltac:(vm_compute; discriminate))
    as (_ & _ & _ & Hsaved & _).
  etrans; [exact Hsaved|]. vm_compute. reflexivity.
Defined.

(** A task that ends before it starts: the hours are rounded down and the
    minutes keep the sign, so 30 minutes back become 90 minutes back. *)
Example duration_fields_of_an_inverted_task :
  let t := mkTask "uuid-x" "Back" None (Scenario.at_ 10 0) (Scenario.at_ 9 30)
             pending medium "study" 0 1 in
  let form := switchTimeInputMode
                (openTaskModal (Some t) Scenario.categories (Scenario.at_ 10 0)
                   (Scenario.at_ 9 30)) in
  f_hours form = -1 ∧ f_minutes form = -30 ∧
  endTime <$> handleSubmit (Some t) (mkDraw "uuid-new" 0) form =
    Some (Scenario.at_ 8 30).
Proof. vm_compute. done. Qed.

(** ** A setup in duration mode, from the form to the dashboard *)

Lemma durationStep_mode blankName categories st a :
  mode (durationStep blankName categories st a) = mode st ∧
  previewedTasks (durationStep blankName categories st a) = previewedTasks st.
Proof.
  destruct a as [h|h|n|m|i|i|dr]; simpl; try done.
  - by destruct (tempTasks st !! i).
  - by destruct (tempTasks st !! i).
  - unfold handleAddOrUpdateDurationTask.
    by destruct (blankName (durationTaskName st) || (durationTaskMinutes st <=? 0)).
Qed.

(** The ids of the duration list after an action of the form: those it
    had, and the UUID the action drew. *)
Lemma durationStep_ids blankName categories st a :
  NoDup (id <$> tempTasks st) →
  (∀ x, x ∈ actionUuids (FormAction a) → x ∉ id <$> tempTasks st) →
  NoDup (id <$> tempTasks (durationStep blankName categories st a)) ∧
  ∀ x, x ∈ id <$> tempTasks (durationStep blankName categories st a) →
       x ∈ id <$> tempTasks st ∨ x ∈ actionUuids (FormAction a).
Proof.
  intros Hnodup Hfresh.
  destruct a as [h|h|n|m|i|i|dr]; simpl; try (split; [done|by left]).
  - destruct (tempTasks st !! i); (split; [done|by left]).
  - destruct (tempTasks st !! i) as [t|]; [|split; [done|by left]]. simpl.
    split.
    + eapply sublist_NoDup; [exact Hnodup|].
      apply fmap_sublist, sublist_filter.
    + intros x Hx. left. apply list_elem_of_fmap in Hx as (u & -> & Hu).
      apply list_elem_of_filter in Hu as [_ Hu]. by apply list_elem_of_fmap_2.
  - unfold handleAddOrUpdateDurationTask.
    destruct (blankName (durationTaskName st) || (durationTaskMinutes st <=? 0));
      [split; [done|by left]|]. simpl.
    assert (id <$> map (λ t, if bool_decide (id t = default EmptyString
                                                (editingDurationTaskId st))
                             then withTitleEnd t (durationTaskName st)
                                    (durationTaskMinutes st * 60 * 1000)
                             else t) (tempTasks st) = id <$> tempTasks st)
      as Hupdated.
    { rewrite <- list_fmap_compose. apply list_fmap_ext. intros j t _. simpl.
      by case_bool_decide. }
    assert (NoDup (id <$> tempTasks st ++
                     [mkTask (uuid dr) (durationTaskName st)
                        (Some "Duration-based task") 0
                        (durationTaskMinutes st * 60 * 1000) pending medium
                        (studyCategoryId categories)
                        (Z.of_nat (length (tempTasks st))) (now dr)])) as Hadded.
    { rewrite fmap_app. simpl. apply NoDup_app. split; [done|].
      split; [|apply NoDup_singleton].
      intros x Hx Hx'. apply list_elem_of_singleton in Hx'. subst x.
      by apply (Hfresh (uuid dr)); [apply list_elem_of_here|]. }
    assert (∀ x, x ∈ id <$> tempTasks st ++
                   [mkTask (uuid dr) (durationTaskName st)
                      (Some "Duration-based task") 0
                      (durationTaskMinutes st * 60 * 1000) pending medium
                      (studyCategoryId categories)
                      (Z.of_nat (length (tempTasks st))) (now dr)] →
                 x ∈ id <$> tempTasks st ∨ x ∈ [uuid dr]) as Hin.
    { intros x. rewrite fmap_app, elem_of_app. simpl. tauto. }
    destruct (editingDurationTaskId st) as [eid|]; [|done].
    case_bool_decide; [done|]. simpl in Hupdated. rewrite Hupdated.
    split; [done|by left].
Qed.

Lemma NoDup_of_submseteq {A} (l k : list A) : NoDup k → l ⊆+ k → NoDup l.
Proof.
  intros Hk Hsub. apply submseteq_Permutation in Hsub as [k' Hperm].
  rewrite Hperm in Hk. by apply NoDup_app in Hk as [? _].
Qed.

Lemma fixedRequests_pos categories fts rs :
  fixedRequests categories fts = Some rs → Forall (λ q, 0 < q.1) rs.
Proof.
  revert rs. induction fts as [|x fts IH]; intros rs; simpl.
  - by intros [= <-].
  - unfold fixedRequest at 1.
    destruct (Z.leb_spec (ft_durationHours x.1) 0) as [Hle|Hgt]; simpl.
    + destruct (fixedRequests categories fts) as [rs'|]; [|done]. simpl.
      intros [= <-]. by apply IH.
    + destruct (findCategoryId _ _); [|done]. simpl.
      destruct (fixedRequests categories fts) as [rs'|]; [|done]. simpl.
      intros [= <-]. constructor; [simpl; lia | by apply IH].
Qed.

Lemma fixedRequests_ids categories fts rs :
  fixedRequests categories fts = Some rs →
  ((λ r : Z * TaskDetails, d_id r.2) <$> rs) `sublist_of`
    ((λ x : FixedTask * Draw, uuid x.2) <$> fts).
Proof.
  revert rs. induction fts as [|x fts IH]; intros rs; simpl.
  - by intros [= <-].
  - unfold fixedRequest at 1.
    destruct (Z.leb_spec (ft_durationHours x.1) 0) as [Hle|Hgt]; simpl.
    + destruct (fixedRequests categories fts) as [rs'|]; [|done]. simpl.
      intros [= <-]. apply sublist_cons. by apply IH.
    + destruct (findCategoryId _ _); [|done]. simpl.
      destruct (fixedRequests categories fts) as [rs'|]; [|done]. simpl.
      intros [= <-]. apply sublist_skip. by apply IH.
Qed.

Lemma place_ids p dayEnd reqs :
  (id <$> place p dayEnd reqs) `sublist_of`
    ((λ r : Z * TaskDetails, d_id r.2) <$> reqs).
Proof.
  revert p. induction reqs as [|[d details] reqs IH]; intros p; simpl; [done|].
  destruct ((p <? dayEnd) && (d <=? dayEnd - p)); simpl;
    [by apply sublist_skip | by apply sublist_cons].
Qed.

Lemma userRequests_ids tempTasks :
  (λ r : Z * TaskDetails, d_id r.2) <$> userRequests tempTasks ≡ₚ id <$> tempTasks.
Proof.
  unfold userRequests.
  change (map (λ dt : Task, (endTime dt, detailsOf dt)))
    with (fmap (M:=list) (λ dt : Task, (endTime dt, detailsOf dt))).
  rewrite <- list_fmap_compose.
  erewrite (list_fmap_ext _ id); [by rewrite sortBy_Permutation|].
  by intros i t _.
Qed.

Lemma place_lasting p dayEnd reqs :
  Forall (λ r, 0 < r.1) reqs →
  Forall (λ t, p ≤ startTime t ∧ startTime t < endTime t ∧ endTime t ≤ dayEnd)
    (place p dayEnd reqs).
Proof.
  intros Hpos. revert p. induction Hpos as [|[d details] reqs Hd _ IH];
    intros p; simpl in *; [done|].
  destruct (Z.ltb_spec p dayEnd); simpl; [|done].
  destruct (Z.leb_spec d (dayEnd - p)); simpl; [|done].
  constructor; [simpl; lia|].
  eapply Forall_impl; [apply IH|]. simpl. intros t. lia.
Qed.

Lemma Forall_imap_invariant (P : Task → Prop) (f : nat → Task → Task) l :
  (∀ i t, P t → P (f i t)) → Forall P l → Forall P (imap f l).
Proof.
  intros Hf Hl. apply Forall_forall. intros t Ht.
  apply elem_of_lookup_imap in Ht as (i & t0 & -> & Ht0).
  apply Hf. rewrite Forall_forall in Hl. apply Hl.
  by eapply list_elem_of_lookup_2.
Qed.

Lemma chained_disjoint from l :
  Forall (λ t, startTime t ≤ endTime t) l → chained from l →
  pairwise disjointTasks l ∧ Forall (λ t, from ≤ startTime t) l.
Proof.
  intros Hall. revert from. induction Hall as [|t l Ht _ IH]; intros from;
    simpl; [done|].
  intros [Hfrom Hl]. destruct (IH _ Hl) as [Hpw Hlater].
  split; [split; [|done]|].
  - eapply Forall_impl; [exact Hlater|]. simpl. intros b Hb.
    unfold disjointTasks, overlap. lia.
  - constructor; [lia|]. eapply Forall_impl; [exact Hlater|]. simpl.
    intros b. lia.
Qed.

(** What the allocator returns for durations that are positive and ids
    that are distinct and not empty. *)
Lemma scheduleDurationTasks_facts today draws categories sleepDuration
    workDuration tempTasks out :
  durationsPositive tempTasks →
  scheduleDurationTasks today draws categories sleepDuration workDuration
    tempTasks = Some out →
  Forall (λ t, today ≤ startTime t ∧ startTime t < endTime t ∧
               endTime t ≤ today + msPerDay) out ∧
  chained today out ∧
  pairwise disjointTasks out ∧
  (freshUuids ([uuid draws.1; uuid draws.2] ++ (id <$> tempTasks)) →
   freshUuids (id <$> out)).
Proof.
  intros Hpos.
  assert (Forall (λ t, 0 ≤ endTime t) tempTasks) as Hnonneg.
  { eapply Forall_impl; [exact Hpos|]. simpl. intros t. lia. }
  rewrite scheduleDurationTasks_place by done.
  destruct (fixedRequests categories _) as [rs|] eqn:Hrs; [|done]. simpl.
  assert (Forall (λ r, 0 < r.1) (rs ++ userRequests tempTasks)) as Hreqs.
  { apply Forall_app. split; [by eapply fixedRequests_pos|].
    unfold userRequests. apply Forall_fmap. by rewrite sortBy_Permutation. }
  assert (Forall (λ r, 0 ≤ r.1) (rs ++ userRequests tempTasks)) as Hreqs0.
  { eapply Forall_impl; [exact Hreqs|]. simpl. intros r. lia. }
  rewrite place_sorted by done. intros [= <-].
  assert (Forall (λ t, today ≤ startTime t ∧ startTime t < endTime t ∧
                       endTime t ≤ today + msPerDay)
            (imap (λ index t, withOrder t (Z.of_nat index))
               (place today (today + msPerDay) (rs ++ userRequests tempTasks))))
    as Hall.
  { apply Forall_imap_invariant; [by intros i t|]. by apply place_lasting. }
  assert (chained today
            (imap (λ index t, withOrder t (Z.of_nat index))
               (place today (today + msPerDay) (rs ++ userRequests tempTasks))))
    as Hchain.
  { apply chained_imap; [by intros i t|]. apply chained_place. }
  split; [done|]. split; [done|]. split.
  { eapply chained_disjoint; [|exact Hchain].
    eapply Forall_impl; [exact Hall|]. simpl. intros t. lia. }
  intros [Hnodup Hnonempty].
  assert (id <$> imap (λ index t, withOrder t (Z.of_nat index))
                   (place today (today + msPerDay) (rs ++ userRequests tempTasks))
          = id <$> place today (today + msPerDay) (rs ++ userRequests tempTasks))
    as ->.
  { by apply (map_imap_invariant id). }
  pose proof (place_ids today (today + msPerDay) (rs ++ userRequests tempTasks))
    as Hsub.
  rewrite fmap_app in Hsub.
  apply fixedRequests_ids in Hrs.
  assert (((λ r : Z * TaskDetails, d_id r.2) <$> rs) ++
          ((λ r : Z * TaskDetails, d_id r.2) <$> userRequests tempTasks)
          ⊆+ [uuid draws.1; uuid draws.2] ++ (id <$> tempTasks)) as Hmset.
  { apply submseteq_app.
    - by apply sublist_submseteq.
    - by rewrite userRequests_ids. }
  apply sublist_submseteq in Hsub.
  split.
  - eapply NoDup_of_submseteq; [exact Hnodup|]. by etrans.
  - intros Hin. apply Hnonempty.
    eapply elem_of_submseteq; [exact Hin|]. by etrans.
Qed.

(** *** What a setup in duration mode keeps *)

Lemma setupInv_enter later st0 : setupInv later (enterDurationMode st0).
Proof.
  split; [done|]. split; [constructor|]. split; [constructor|].
  split; [|done]. intros x Hx. by apply elem_of_nil in Hx.
Qed.

Lemma setupInv_change later later' st st' :
  setupInv later st →
  mode st' = mode st → tempTasks st' = tempTasks st →
  (∀ x, x ∉ later → x ∉ later') →
  (∀ previewed, previewedTasks st' = Some previewed →
     previewedTasks st = Some previewed ∨
     (NoDup (id <$> previewed) ∧ (EmptyString ∉ id <$> previewed) ∧
      pairwise disjointTasks previewed)) →
  setupInv later' st'.
Proof.
  intros (Hmode & Hpos & Hnodup & Hids & Hprev) Hmode' Htemp Hlater Hprev'.
  unfold setupInv. rewrite Hmode', Htemp.
  split; [done|]. split; [done|]. split; [done|]. split.
  - intros x Hx. destruct (Hids x Hx) as [Hne Hnot]. split; [done|].
    by apply Hlater.
  - intros previewed Hp. destruct (Hprev' previewed Hp) as [Hold|Hgood];
      [by apply Hprev | done].
Qed.

Lemma handleSubmit_id t dr form task :
  id t ≠ EmptyString → handleSubmit (Some t) dr form = Some task →
  id task = id t.
Proof.
  intros Hid. unfold handleSubmit.
  destruct (bool_decide (f_title form = EmptyString) ||
            bool_decide (f_categoryId form = EmptyString)); [done|].
  intros [= <-]. simpl. by rewrite bool_decide_eq_false_2.
Qed.

(** An edit of a previewed task, accepted or not, leaves a preview with
    distinct ids and no overlap. *)
Lemma handleSaveTask_previewed task st previewed :
  previewedTasks st = Some previewed → id task ∈ id <$> previewed →
  NoDup (id <$> previewed) → (EmptyString ∉ id <$> previewed) →
  pairwise disjointTasks previewed →
  mode (handleSaveTask task st).1 = mode st ∧
  tempTasks (handleSaveTask task st).1 = tempTasks st ∧
  ∃ previewed',
    previewedTasks (handleSaveTask task st).1 = Some previewed' ∧
    NoDup (id <$> previewed') ∧ (EmptyString ∉ id <$> previewed') ∧
    pairwise disjointTasks previewed'.
Proof.
  intros Hprev Hin Hnodup Hnonempty Hpw. unfold handleSaveTask. rewrite Hprev.
  assert (hasId (id task) previewed = true) as ->.
  { apply list_elem_of_fmap in Hin as (t & Hid & Ht).
    apply existsb_exists. exists t. split; [by apply list_elem_of_In|].
    by apply bool_decide_eq_true. }
  destruct (existsb (overlapsWith task) previewed) eqn:Hov; simpl.
  { split; [done|]. split; [done|]. by exists previewed. }
  split; [done|]. split; [done|]. eexists. split; [done|].
  assert (sortBy (λ a b, startTime a - startTime b) (replaceById task previewed)
          ≡ₚ replaceById task previewed) as Hperm by apply sortBy_Permutation.
  split; [by rewrite Hperm, ids_replaceById|].
  split; [by rewrite Hperm, ids_replaceById|].
  eapply pairwise_Permutation; [apply _ | symmetry; exact Hperm |].
  apply pairwise_replaceById; [apply _ | done | done |].
  intros o Ho Hne Hover.
  assert (existsb (overlapsWith task) previewed = true) as Hex; [|congruence].
  apply existsb_exists. exists o. split; [by apply list_elem_of_In|].
  by apply overlapsWith_of_overlap.
Qed.

Lemma setupInv_step blankName categories later st a :
  freshUuids (actionUuids a ++ later) →
  setupInv (actionUuids a ++ later) st →
  setupInv later (setupStep blankName categories st a).
Proof.
  intros [Hfresh Hnonempty] Hinv.
  assert (∀ x, x ∉ actionUuids a ++ later → x ∉ later) as Hweaken.
  { intros x Hx Hin. apply Hx, elem_of_app. by right. }
  assert (setupInv later st) as Hinv0.
  { eapply setupInv_change; [exact Hinv|done|done|done|]. intros p Hp. by left. }
  destruct a as [a|today draws| |index dr form|]; simpl.
  - (* the duration form *)
    destruct Hinv as (Hmode & Hpos & Hnodup & Hids & Hprev).
    destruct (durationStep_mode blankName categories st a) as [Hmode' Hprev'].
    destruct (durationStep_ids blankName categories st a Hnodup) as [Hnodup' Hids'].
    { intros x Hx Hin. destruct (Hids x Hin) as [_ Hnot].
      apply Hnot, elem_of_app. by left. }
    unfold setupInv. rewrite Hmode', Hprev'.
    split; [done|]. split; [by apply durationStep_positive|].
    split; [done|]. split; [|done].
    intros x Hx. destruct (Hids' x Hx) as [Hold|Hnew].
    + destruct (Hids x Hold) as [Hne Hnot]. split; [done|]. by apply Hweaken.
    + split.
      * intros ->. apply Hnonempty, elem_of_app. by left.
      * apply NoDup_app in Hfresh as (_ & Hdisj & _). by apply Hdisj.
  - (* Preview Schedule *)
    destruct (previewedTasks st) as [p|] eqn:Hp; [done|].
    destruct (tempTasks st) as [|t0 temp] eqn:Htemp; [done|].
    unfold previewSchedule. rewrite Htemp.
    destruct (scheduleDurationTasks _ _ _ _ _ _) as [out|] eqn:Hout; [|done].
    destruct Hinv as (Hmode & Hpos & Hnodup & Hids & Hprev).
    rewrite Htemp in Hpos, Hnodup, Hids.
    destruct (scheduleDurationTasks_facts _ _ _ _ _ _ _ Hpos Hout)
      as (_ & _ & Hpw & Hout_ids).
    destruct Hout_ids as [Hnd Hne].
    { split.
      - apply NoDup_app in Hfresh as (Hnd & _ & _).
        apply NoDup_app. split; [done|]. split; [|done].
        intros x Hx Hin. destruct (Hids x Hin) as [_ Hnot].
        apply Hnot, elem_of_app. by left.
      - intros Hin. apply elem_of_app in Hin as [Hin|Hin].
        + apply Hnonempty, elem_of_app. by left.
        + by destruct (Hids _ Hin). }
    eapply setupInv_change; [exact Hinv0|done|done|done|].
    intros previewed [= <-]. by right.
  - (* Go Back *)
    destruct (previewedTasks st) as [p|] eqn:Hp; [|done].
    eapply setupInv_change; [exact Hinv0|done|done|done|]. by intros p' Hp'.
  - (* the edit of a previewed task *)
    destruct (previewedTasks st) as [p|] eqn:Hp; [|done].
    destruct (p !! index) as [t|] eqn:Ht; [|done].
    destruct Hinv0 as (Hmode & Hpos & Hnodup & Hids & Hprev).
    destruct (Hprev p Hp) as (Hnd & Hne & Hpw).
    assert (id t ∈ id <$> p) as Hin.
    { apply list_elem_of_fmap_2. by eapply list_elem_of_lookup_2. }
    assert (setupInv later (handleEditTask t st)) as Hinv1.
    { eapply setupInv_change; [done|done|done|done|]. intros p' Hp'. by left. }
    destruct (handleSubmit (Some t) dr form) as [task|] eqn:Hsubmit; [|done].
    apply handleSubmit_id in Hsubmit; [|intros Heq; apply Hne; by rewrite <- Heq].
    destruct (handleSaveTask_previewed task (handleEditTask t st) p)
      as (Hmode' & Htemp' & p' & Hp' & Hgood); [done|by rewrite Hsubmit|done..|].
    eapply setupInv_change; [exact Hinv1|done|done|done|].
    intros previewed Hpreviewed. right. rewrite Hp' in Hpreviewed.
    by injection Hpreviewed as <-.
  - (* the TaskModal is closed *)
    eapply setupInv_change; [exact Hinv0|done|done|done|]. intros p Hp. by left.
Qed.

Lemma sessionUuids_cons a actions :
  sessionUuids (a :: actions) = actionUuids a ++ sessionUuids actions.
Proof. done. Qed.

Lemma freshUuids_tail u later : freshUuids (u ++ later) → freshUuids later.
Proof.
  intros [Hnodup Hne]. split.
  - by apply NoDup_app in Hnodup as (_ & _ & ?).
  - intros Hin. apply Hne, elem_of_app. by right.
Qed.

(** The invariant holds after every list of actions that draws its UUIDs
    afresh. *)
Lemma setupInv_session blankName categories st0 actions later :
  freshUuids (sessionUuids actions ++ later) →
  setupInv later
    (foldl (setupStep blankName categories) (enterDurationMode st0) actions).
Proof.
  intros Hfresh.
  assert (setupInv (sessionUuids actions ++ later) (enterDurationMode st0))
    as Hinit by apply setupInv_enter.
  revert Hfresh Hinit. generalize (enterDurationMode st0). clear st0.
  induction actions as [|a actions IH]; intros st Hfresh Hst; simpl; [done|].
  rewrite sessionUuids_cons, <- app_assoc in Hfresh, Hst.
  apply IH; [by eapply freshUuids_tail|]. by apply setupInv_step.
Qed.



(** The preview of Study, edited to the next day: the edit is accepted
    and "Save & Start Day" hands over a task that is not inside the
    day. *)
Example edited_preview_leaves_the_day :
  handleSaveAndExit Scenario.today Sample.laterDraws Scenario.categories
    (foldl (setupStep blank Scenario.categories)
       (enterDurationMode Scenario.previewing) Sample.studyEdited)
    = Some [Sample.studyMoved] ∧
  Scenario.today + 24 * 60 * 60 * 1000 < startTime Sample.studyMoved.
Proof. split; [vm_compute; reflexivity | vm_compute; reflexivity]. Qed.

Lemma showsSetupModal_false todayStart todayEnd (l : list Task) t :
  t ∈ l → todayStart ≤ startTime t ≤ todayEnd →
  showsSetupModal todayStart todayEnd l = false.
Proof.
  intros Ht Hstart. unfold showsSetupModal.
  assert (t ∈ List.filter
                (λ t, (startTime t >=? todayStart) && (startTime t <=? todayEnd)) l)
    as Hin.
  { apply elem_of_List_filter. split; [done|].
    apply andb_true_intro. split; [apply Z.geb_le|apply Z.leb_le]; lia. }
  destruct (List.filter _ l); [by apply elem_of_nil in Hin | done].
Qed.

(** X23.  After the setup.  Take any setup in duration mode, as in X22,
    that ends with no preview on display.  On the day of the setup (a day
    of 24 hours), once [handleSetupComplete] has taken the schedule that
    "Save & Start Day" hands over, the effect of AppContent opens the
    setup modal again exactly when that schedule is empty: every task the
    allocator places starts today.  (With an edited preview on display
    the modal can open again although tasks were handed over, see
    [edited_preview_reopens_the_modal].) *)
Theorem setup_modal_reopens_only_for_empty_schedule blankName today draws
    categories st0 actions todayEnd nows app :
  freshUuids (sessionUuids actions) →
  previewedTasks
    (foldl (setupStep blankName categories) (enterDurationMode st0) actions)
    = None →
  categories ≠ [] → todayEnd = today + 24 * 60 * 60 * 1000 - 1 →
  ∃ out,
    handleSaveAndExit today draws categories
      (foldl (setupStep blankName categories) (enterDurationMode st0) actions)
      = Some out ∧
    showsSetupModal today todayEnd (tasks (handleSetupComplete nows out app)) =
      bool_decide (out = []).
Proof.
  intros Hfresh Hp Hcat ->.
  rewrite <- (app_nil_r (sessionUuids actions)) in Hfresh.
  destruct (setupInv_session blankName categories st0 actions _ Hfresh)
    as (Hmode & Hpos & _).
  unfold handleSaveAndExit. rewrite Hmode, Hp.
  destruct (scheduleDurationTasks_is_Some today draws categories
              (sleepDuration (foldl (setupStep blankName categories)
                                (enterDurationMode st0) actions))
              (workDuration (foldl (setupStep blankName categories)
                               (enterDurationMode st0) actions))
              (tempTasks (foldl (setupStep blankName categories)
                            (enterDurationMode st0) actions)) Hcat)
    as [out Hout].
  exists out. split; [done|].
  destruct (scheduleDurationTasks_facts _ _ _ _ _ _ _ Hpos Hout) as (Hall & _).
  simpl. destruct out as [|t out]; [done|].
  rewrite bool_decide_eq_false_2 by done.
  apply (showsSetupModal_false _ _ _ t); [apply list_elem_of_here|].
  apply Forall_cons in Hall as [Ht _]. unfold msPerDay in Ht. lia.
Qed.

Lemma setup_modal_reopens_only_for_empty_schedule_witness :
  ∃ out,
    handleSaveAndExit Scenario.today Sample.laterDraws Scenario.categories
      (foldl (setupStep blank Scenario.categories)
         (enterDurationMode Scenario.previewing) Sample.studyForm)
      = Some out ∧
    showsSetupModal Scenario.today (Scenario.today + 24 * 60 * 60 * 1000 - 1)
      (tasks (handleSetupComplete (λ _, Scenario.nowD) out Scenario.app)) =
      bool_decide (out = []).
Proof.
  assert (freshUuids (sessionUuids Sample.studyForm)) as Hfresh.
  { split; apply (bool_decide_unpack _); vm_compute; exact I. }
  exact (setup_modal_reopens_only_for_empty_schedule blank Scenario.today
           Sample.laterDraws Scenario.categories Scenario.previewing
           Sample.studyForm _ (λ _, Scenario.nowD) Scenario.app
           Hfresh eq_refl ltac:(discriminate) eq_refl).
Defined.

(** Sleep and work set to 0 and no duration task: the schedule is empty
    and the setup modal opens again. *)
Example empty_setup_reopens_the_modal :
  handleSaveAndExit Scenario.today Scenario.draws Scenario.categories
    (foldl (setupStep blank Scenario.categories)
       (enterDurationMode Scenario.previewing)
       [FormAction (TypeSleep 0); FormAction (TypeWork 0)])
    = Some [] ∧
  showsSetupModal Scenario.today (Scenario.today + 24 * 60 * 60 * 1000 - 1)
    (tasks (handleSetupComplete (λ _, Scenario.nowD) [] Scenario.app)) = true.
Proof. vm_compute. done. Qed.

(** The preview of Study, edited to the next day: a task is handed over
    and the setup modal opens again all the same, since no task starts
    today. *)
Example edited_preview_reopens_the_modal :
  showsSetupModal Scenario.today (Scenario.today + 24 * 60 * 60 * 1000 - 1)
    (tasks (handleSetupComplete (λ _, Scenario.nowD) [Sample.studyMoved]
              Scenario.app)) = true.
Proof. vm_compute. reflexivity. Qed.

(** ** Clock mode *)

(** X24.  Clock mode takes every task.  Without a preview (clock mode has
    none)
    [handleSaveTask] of the SetupModal never alerts, whatever the times of
    the task are: the task replaces the task of its id or is added, and
    "Save & Exit" hands over the tasks in ascending order of start time,
    with distinct ids when they were distinct.  Overlaps are not looked
    for. *)
Theorem clock_mode_takes_any_task today draws categories task st :
  mode st = clock → previewedTasks st = None → NoDup (id <$> tempTasks st) →
  (handleSaveTask task st).2 = None ∧
  ∃ handed,
    handleSaveAndExit today draws categories (handleSaveTask task st).1
      = Some handed ∧
    Sorted (λ a b, startTime a ≤ startTime b) handed ∧
    NoDup (id <$> handed) ∧
    (∃ saved, saved ∈ handed ∧ id saved = id task ∧
              startTime saved = startTime task ∧ endTime saved = endTime task) ∧
    (∀ t, id t ≠ id task → t ∈ handed ↔ t ∈ tempTasks st).
Proof.
  intros Hmode Hprev Hnodup. unfold handleSaveTask. rewrite Hprev.
  split; [done|]. unfold handleSaveAndExit.
  destruct (List.find _ (tempTasks st)) as [u|] eqn:Hfind; simpl; rewrite Hmode.
  - eexists. split; [done|]. split; [apply (sortBy_Sorted startTime)|].
    apply find_by_id_Some in Hfind as [Hu Hid].
    assert (id task ∈ id <$> tempTasks st) as Hin.
    { rewrite <- Hid. by apply list_elem_of_fmap_2. }
    destruct (replaceById_elem task (tempTasks st) Hin) as [Htask Hother].
    split; [by rewrite sortBy_Permutation, ids_replaceById|]. split.
    + exists task. by rewrite sortBy_Permutation.
    + intros t Hne. rewrite sortBy_Permutation. by apply Hother.
  - eexists. split; [done|]. split; [apply (sortBy_Sorted startTime)|].
    apply find_by_id_None in Hfind.
    split; [|split].
    + rewrite sortBy_Permutation, fmap_app. simpl.
      apply NoDup_app. split; [done|]. split; [|apply NoDup_singleton].
      intros x Hx Hx'. apply list_elem_of_singleton in Hx'. by subst.
    + exists (withOrder task (Z.of_nat (length (tempTasks st)))).
      rewrite sortBy_Permutation. split; [|done].
      apply elem_of_app. right. apply list_elem_of_here.
    + intros t Hne. rewrite sortBy_Permutation, elem_of_app,
        list_elem_of_singleton.
      split; [|by left]. intros [Ht|Heq]; [done|]. subst t. by destruct Hne.
Qed.

Lemma clock_mode_takes_any_task_witness :
  ∃ handed,
    handleSaveAndExit Scenario.today Scenario.draws Scenario.categories
      (handleSaveTask Scenario.readingEdited
         (mkSetup clock [Scenario.reading; Scenario.gym] None false 8 8
            EmptyString 30 None None)).1 = Some handed ∧
    Sorted (λ a b, startTime a ≤ startTime b) handed.
Proof.
  assert (NoDup (id <$> [Scenario.reading; Scenario.gym])) as Hnodup.
  { simpl. apply NoDup_cons. split; [|apply NoDup_singleton].
    intros Hin. apply list_elem_of_singleton in Hin. discriminate Hin. }
  destruct (clock_mode_takes_any_task Scenario.today Scenario.draws
              Scenario.categories Scenario.readingEdited
              (mkSetup clock [Scenario.reading; Scenario.gym] None false 8 8
                 EmptyString 30 None None) eq_refl eq_refl Hnodup)
    as (_ & handed & Hhanded & Hsorted & _).
  exists handed. split; [exact Hhanded | exact Hsorted].
Defined.

(** The edit that the preview of duration mode refuses (Reading moved to
    09:00 - 10:00, over Gym from 09:30) goes through in clock mode. *)
Example clock_mode_hands_over_an_overlap :
  handleSaveAndExit Scenario.today Scenario.draws Scenario.categories
    (handleSaveTask Scenario.readingEdited
       (mkSetup clock [Scenario.reading; Scenario.gym] None false 8 8
          EmptyString 30 None None)).1 =
    Some [Scenario.readingEdited; Scenario.gym] ∧
  overlap Scenario.readingEdited Scenario.gym.
Proof. split; [vm_compute; reflexivity | vm_compute; done]. Qed.

(** ** Achievements *)

Lemma unlockEarlyRiser_lookup l i a :
  l !! i = Some a →
  ∃ a', unlockEarlyRiser l !! i = Some a' ∧
        a_id a' = a_id a ∧ a_title a' = a_title a ∧
        a_description a' = a_description a ∧ a_icon a' = a_icon a ∧
        (a_id a ≠ "early-riser" → a' = a) ∧
        (unlocked a = true → unlocked a' = true).
Proof.
  revert i. induction l as [|b l IH]; intros i Hi; [done|]. simpl.
  case_bool_decide as Hb.
  - destruct i as [|i]; simpl in *; [|by exists a].
    injection Hi as ->. eexists. split; [done|]. simpl. done.
  - destruct i as [|i]; simpl in *; [|by apply IH].
    injection Hi as ->. by exists a.
Qed.

(** X25.  What a completion does to the achievements.  [handleUpdateTask]
    keeps the list of achievements in length, ids, titles, descriptions
    and icons; an achievement that is unlocked stays unlocked; and the
    only achievement it can change is 'early-riser', which it unlocks
    only for a task that is completed before 8 o'clock.  No other
    achievement is ever unlocked. *)
Theorem completion_unlocks_only_early_riser clk updatedTask st i a :
  achievements st !! i = Some a →
  ∃ a',
    achievements (handleUpdateTask clk updatedTask st) !! i = Some a' ∧
    a_id a' = a_id a ∧ a_title a' = a_title a ∧
    a_description a' = a_description a ∧ a_icon a' = a_icon a ∧
    (unlocked a = true → unlocked a' = true) ∧
    (a' ≠ a →
     a_id a = "early-riser" ∧ unlocked a = false ∧ unlocked a' = true ∧
     status updatedTask = completed ∧ hourNow clk < 8).
Proof.
  intros Hi. unfold handleUpdateTask. simpl.
  case_bool_decide as Hstatus; [|by exists a].
  unfold addCompletedTask.
  destruct (existsb _ (history st)); [by exists a|]. simpl.
  destruct (List.find _ (achievements st)) as [earlyRiser|]; [|by exists a].
  destruct (unlocked earlyRiser); simpl; [by exists a|].
  destruct (Z.ltb_spec (hourNow clk) 8) as [Hhour|_]; [|by exists a].
  destruct (unlockEarlyRiser_lookup _ _ _ Hi)
    as (a' & Ha' & Hid & Htitle & Hdesc & Hicon & Hother & Hkeep).
  exists a'. split; [done|]. split; [done|]. split; [done|]. split; [done|].
  split; [done|]. split; [done|]. intros Hne.
  destruct (decide (a_id a = "early-riser")) as [Hearly|Hno];
    [|by destruct Hne; apply Hother].
  split; [done|].
  destruct (unlocked a) eqn:Hu.
  - exfalso. apply Hne. destruct a, a'; simpl in *. rewrite Hkeep by done.
    congruence.
  - split; [done|]. split; [|done].
    destruct (unlocked a') eqn:Hu'; [done|].
    exfalso. apply Hne. destruct a, a'; simpl in *. congruence.
Qed.

Lemma completion_unlocks_only_early_riser_witness :
  ∃ a',
    achievements
      (handleUpdateTask (Scenario.clockAt 7 0)
         (withStatus Scenario.reading completed)
         (mkApp [Scenario.reading] []
            [mkAchievement "streak-7" "Week-long Warrior" "Seven days" false
               "trophy";
             mkAchievement "early-riser" "Early Riser" "Before 8" false
               "sunrise"]
            (saveTasks [Scenario.reading]) Scenario.noTimers)) !! 0%nat
      = Some a' ∧
    a_id a' = "streak-7".
Proof.
  destruct (completion_unlocks_only_early_riser (Scenario.clockAt 7 0)
              (withStatus Scenario.reading completed)
              (mkApp [Scenario.reading] []
                 [mkAchievement "streak-7" "Week-long Warrior" "Seven days"
                    false "trophy";
                  mkAchievement "early-riser" "Early Riser" "Before 8" false
                    "sunrise"]
                 (saveTasks [Scenario.reading]) Scenario.noTimers)
              0 _ eq_refl) as (a' & Ha' & Hid & _).
  exists a'. split; [exact Ha' | exact Hid].
Defined.
